(** * Skill discovery, import and validation: a shallow embedding

    This development embeds the skill pipeline of the gateway
    (src/agents/skills-discover.ts, skills-import.ts, skills-validate.ts and
    the handlers of gateway/server-methods/skills.ts, with the helpers of the
    Dify-compatible endpoint that the same file holds) and proves
    properties of it.

    Conventions.
    - A JavaScript string is a list of Unicode code points ([jsstring]).
      Where the source counts UTF-16 code units ([.length], the default sort
      order) the model counts two units for a code point above U+FFFF.
    - The Unicode tables of the JavaScript runtime (general categories L and
      N, lower-casing) are exact on ASCII and taken from a [UnicodeData]
      record elsewhere; lower-casing is code point by code point.
    - JavaScript numbers that carry scores are exact rationals ([Q]). *)

From Stdlib Require Import String Ascii Bool Arith NArith ZArith QArith Qminmax Qround Lia Lqa List.
From Stdlib Require Import Sorted Permutation.
Import ListNotations.

Set Implicit Arguments.
Close Scope Q_scope.
Open Scope nat_scope.
Open Scope list_scope.

(** ** JavaScript strings *)

Module JS.

Definition jsstring := list N.

Definition js (s : string) : jsstring :=
  map N_of_ascii (list_ascii_of_string s).

Definition str_eqb (a b : jsstring) : bool :=
  if list_eq_dec N.eq_dec a b then true else false.

(** [arr.includes(x)] / [set.has(x)] on strings. *)
Definition mem (x : jsstring) (l : list jsstring) : bool :=
  existsb (str_eqb x) l.

(** [new Set(arr)]: insertion order, first occurrence kept. *)
Definition set_add (x : jsstring) (s : list jsstring) : list jsstring :=
  if mem x s then s else s ++ [x].

Definition set_of (l : list jsstring) : list jsstring :=
  fold_left (fun s x => set_add x s) l [].

(** Number of UTF-16 code units of a string ([.length]). *)
Definition units (c : N) : nat := if (c <? 65536)%N then 1 else 2.

Definition utf16_length (s : jsstring) : nat :=
  fold_right (fun c n => units c + n) 0 s.

(** White space and line terminators of ECMAScript ([trim], [\s]). *)
Definition is_space (c : N) : bool :=
  ((9 <=? c) && (c <=? 13) || (c =? 32) || (c =? 160) || (c =? 5760)
   || (8192 <=? c) && (c <=? 8202) || (c =? 8232) || (c =? 8233)
   || (c =? 8239) || (c =? 8287) || (c =? 12288) || (c =? 65279))%N.

Fixpoint drop_while (p : N -> bool) (s : jsstring) : jsstring :=
  match s with
  | [] => []
  | c :: s' => if p c then drop_while p s' else s
  end.

Definition trimStart (s : jsstring) : jsstring := drop_while is_space s.
Definition trimEnd (s : jsstring) : jsstring := rev (drop_while is_space (rev s)).
Definition trim (s : jsstring) : jsstring := trimEnd (trimStart s).

(** A string is truthy when it is not empty. *)
Definition truthy (s : jsstring) : bool :=
  match s with [] => false | _ => true end.

Fixpoint starts_with (p s : jsstring) : bool :=
  match p, s with
  | [], _ => true
  | _ :: _, [] => false
  | a :: p', b :: s' => (a =? b)%N && starts_with p' s'
  end.

(** [s.includes(p)]. *)
Fixpoint includes (s p : jsstring) : bool :=
  starts_with p s || match s with [] => false | _ :: s' => includes s' p end.

Definition ends_with (s p : jsstring) : bool := starts_with (rev p) (rev s).

(** [o ?? ""]. *)
Definition or_empty (o : option jsstring) : jsstring :=
  match o with Some s => s | None => [] end.

(** [arr.join(sep)]. *)
Fixpoint join (sep : jsstring) (l : list jsstring) : jsstring :=
  match l with
  | [] => []
  | [x] => x
  | x :: rest => x ++ sep ++ join sep rest
  end.

(** [s.replaceAll(a, b)] for single characters. *)
Definition replace_char (a b : N) (s : jsstring) : jsstring :=
  map (fun c => if (c =? a)%N then b else c) s.

(** The tables of the runtime beyond ASCII. *)
Record UnicodeData := {
  uni_alnum : N -> bool;   (* general category L or N *)
  uni_lower : N -> N       (* simple lower-case mapping *)
}.

(** A table without letters beyond ASCII, used to run ASCII examples. *)
Definition basic_latin : UnicodeData :=
  {| uni_alnum := fun _ => false; uni_lower := fun c => c |}.

Section Unicode.
Variable U : UnicodeData.

Definition ascii_alnum (c : N) : bool :=
  ((48 <=? c) && (c <=? 57) || (65 <=? c) && (c <=? 90)
   || (97 <=? c) && (c <=? 122))%N.

(** [[\p{L}\p{N}]]. *)
Definition is_alnum (c : N) : bool :=
  if (c <? 128)%N then ascii_alnum c else uni_alnum U c.

Definition lower (c : N) : N :=
  if (c <? 128)%N then (if (65 <=? c) && (c <=? 90) then c + 32 else c)%N
  else uni_lower U c.

Definition toLowerCase (s : jsstring) : jsstring := map lower s.

(** All maximal runs of characters satisfying [p], in order
    ([s.match(/[...]+/g) ?? []]). *)
Fixpoint runs (p : N -> bool) (s : jsstring) (cur : jsstring) : list jsstring :=
  match s with
  | [] => match cur with [] => [] | _ => [cur] end
  | c :: s' =>
      if p c then runs p s' (cur ++ [c])
      else match cur with
           | [] => runs p s' []
           | _ => cur :: runs p s' []
           end
  end.

End Unicode.

(** Stable sort by a comparator, as [Array.prototype.sort]: [le a b] holds
    when the comparator does not put [b] before [a]. *)
Section Sort.
Variable A : Type.
Variable le : A -> A -> bool.

Fixpoint insert_sorted (x : A) (l : list A) : list A :=
  match l with
  | [] => [x]
  | y :: l' => if le x y then x :: l else y :: insert_sorted x l'
  end.

Definition stable_sort (l : list A) : list A :=
  fold_right insert_sorted [] l.

End Sort.

(** The default order of [toSorted()] on strings: UTF-16 code units. *)
Definition utf16 (s : jsstring) : list N :=
  flat_map (fun c => if (c <? 65536)%N then [c]
                     else [55296 + (c - 65536) / 1024; 56320 + (c - 65536) mod 1024]%N) s.

Fixpoint lex_leb (a b : list N) : bool :=
  match a, b with
  | [], _ => true
  | _ :: _, [] => false
  | x :: a', y :: b' => if (x <? y)%N then true else if (y <? x)%N then false else lex_leb a' b'
  end.

Definition str_leb (a b : jsstring) : bool := lex_leb (utf16 a) (utf16 b).

(** Decimal rendering of a natural number in a template string. *)
Definition digit (n : nat) : N := N.of_nat (48 + n).

Fixpoint decimal_fuel (fuel n : nat) (acc : jsstring) : jsstring :=
  match fuel with
  | O => acc
  | S f =>
      let acc' := digit (n mod 10) :: acc in
      if n <? 10 then acc' else decimal_fuel f (n / 10) acc'
  end.

Definition decimal (n : nat) : jsstring := decimal_fuel (S n) n [].

End JS.

Import JS.

(** ** Discovery: scoring (src/agents/skills-discover.ts) *)

Module Discover.

Definition DISCOVERY_IGNORED_NAMES : list jsstring :=
  map js [".git"; "node_modules"; "dist"; "build"; "out"; ".next"; ".turbo";
          ".venv"; "venv"; ".idea"; ".vscode"]%string.

Definition ENGLISH_STOPWORDS : list jsstring :=
  map js ["the"; "a"; "an"; "is"; "are"; "was"; "were"; "be"; "been"; "have";
          "has"; "had"; "do"; "does"; "did"; "will"; "would"; "to"; "of"; "in";
          "for"; "on"; "with"; "at"; "by"; "from"; "and"; "but"; "if"; "or";
          "this"; "that"; "use"; "using"; "skill"; "skills"; "claude";
          "openclaw"; "bot"; "assistant"; "please"; "need"; "want"; "help"]%string.

Section Scoring.
Variable U : UnicodeData.

Definition tokenize (text : jsstring) : list jsstring :=
  filter truthy (map trim (runs (is_alnum U) (toLowerCase U text) [])).

Definition count_non_ascii (s : jsstring) : nat :=
  length (filter (fun c => (127 <? c)%N) s).

Definition Qltb (a b : Q) : bool := negb (Qle_bool b a).

Definition isMostlyAscii (tokens : list jsstring) : bool :=
  let joined := concat tokens in
  if negb (truthy joined) then true
  else Qltb ((Z.of_nat (count_non_ascii joined) # 1) / (Z.of_nat (utf16_length joined) # 1))
            (2 # 10)%Q.

Definition pickQueryTokens (prompt : jsstring) (maxTokens : nat) : list jsstring :=
  let tokens := tokenize prompt in
  let asciiMode := isMostlyAscii tokens in
  let filtered :=
    filter (fun t => if asciiMode then negb (mem t ENGLISH_STOPWORDS) else true)
      (filter truthy (map trim tokens)) in
  let unique := set_of filtered in
  let sorted := stable_sort (fun a b => utf16_length b <=? utf16_length a) unique in
  firstn (Nat.max 1 maxTokens) sorted.

Record ScoreParams := {
  sp_prompt : jsstring;
  sp_name : option jsstring;
  sp_description : option jsstring;
  sp_keywords : option (list jsstring)
}.

Definition hyphen : N := 45.
Definition space : N := 32.

Definition overlap (a b : list jsstring) : nat :=
  length (filter (fun t => mem t b) a).

Definition ratio (n d : nat) : Q := ((Z.of_nat n # 1) / (Z.of_nat d # 1))%Q.

Definition queryTokens (p : ScoreParams) : list jsstring :=
  set_of (pickQueryTokens (sp_prompt p) 24).

Definition nameTokens (p : ScoreParams) : list jsstring :=
  set_of (tokenize (replace_char hyphen space (or_empty (sp_name p)))).

Definition descTokens (p : ScoreParams) : list jsstring :=
  set_of (tokenize (or_empty (sp_description p))).

Definition keywordTokens (p : ScoreParams) : list jsstring :=
  set_of (flat_map tokenize (match sp_keywords p with Some k => k | None => [] end)).

Definition raw (p : ScoreParams) : Q :=
  let nameScore := ratio (overlap (queryTokens p) (nameTokens p))
                         (Nat.max 1 (length (nameTokens p))) in
  let descScore := ratio (overlap (queryTokens p) (descTokens p))
                         (Nat.max 1 (length (queryTokens p))) in
  let keywordScore := ratio (overlap (queryTokens p) (keywordTokens p))
                            (Nat.max 1 (length (queryTokens p))) in
  (nameScore * 1 + descScore * (7 # 10) + keywordScore * (5 # 10))%Q.

Definition normalized (p : ScoreParams) : Q := Qmin (raw p / (22 # 10)) 1%Q.

(** The joined query [q] and the normalized name [nameNorm]. *)
Definition joinedQuery (p : ScoreParams) : jsstring :=
  join [space] (queryTokens p).

Definition nameNorm (p : ScoreParams) : jsstring :=
  trim (replace_char hyphen space (toLowerCase U (or_empty (sp_name p)))).

Definition bonusApplies (p : ScoreParams) : bool :=
  truthy (nameNorm p)
  && (str_eqb (joinedQuery p) (nameNorm p) || includes (joinedQuery p) (nameNorm p)).

Definition scoreSkillMatch (p : ScoreParams) : Q :=
  if length (queryTokens p) =? 0 then 0%Q
  else if bonusApplies p then Qmin 1 (normalized p + (15 # 100))%Q
  else normalized p.

End Scoring.

End Discover.

(** ** File system trees and the skill-tree scanner *)

Module FS.

(** A path is the list of its segments below the file-system root; it is
    absolute and normalized by construction. *)
Definition path := list jsstring.

Definition slash : N := 47.

Definition path_str (p : path) : jsstring :=
  match p with
  | [] => [slash]
  | _ => flat_map (fun seg => slash :: seg) p
  end.

Definition path_eqb (a b : path) : bool :=
  if list_eq_dec (list_eq_dec N.eq_dec) a b then true else false.

(** [path.basename] and [path.dirname]. *)
Definition basename (p : path) : jsstring := last p [].
Definition dirname (p : path) : path := removelast p.

(** Splitting a string at a separator character ([s.split(c)]). *)
Fixpoint split_on (c : N) (s : jsstring) (cur : jsstring) : list jsstring :=
  match s with
  | [] => [cur]
  | x :: s' => if (x =? c)%N then cur :: split_on c s' [] else split_on c s' (cur ++ [x])
  end.

(** [path.join(dir, rel)]: the segments of [rel] are appended and [.], [..]
    and empty segments are normalized away. *)
Definition push_segment (p : path) (seg : jsstring) : path :=
  if str_eqb seg [] || str_eqb seg (js ".") then p
  else if str_eqb seg (js "..") then removelast p
  else p ++ [seg].

Definition path_join (dir : path) (rel : jsstring) : path :=
  fold_left push_segment (split_on slash rel []) dir.

(** A node of the tree: a regular file, a directory, or something that is
    neither for [Dirent] (a symbolic link, a socket, ...).  Files and
    directories carry whether they can be read. *)
#[warnings="-register-all"]
Inductive node :=
| File (readable : bool) (content : jsstring)
| Dir (readable : bool) (entries : list (jsstring * node))
| Other.

Definition isFile (n : node) : bool := match n with File _ _ => true | _ => false end.
Definition isDirectory (n : node) : bool := match n with Dir _ _ => true | _ => false end.

Fixpoint find_entry (name : jsstring) (es : list (jsstring * node)) : option node :=
  match es with
  | [] => None
  | (n, x) :: rest => if str_eqb n name then Some x else find_entry name rest
  end.

(** The node at a path ([fs.stat]). *)
Fixpoint lookup (n : node) (p : path) : option node :=
  match p with
  | [] => Some n
  | seg :: p' =>
      match n with
      | Dir _ es => match find_entry seg es with
                    | Some c => lookup c p'
                    | None => None
                    end
      | _ => None
      end
  end.

Definition SKILL_MD : jsstring := js "SKILL.md".

(** [found.add(dir)] on the set of directories found so far. *)
Definition found_add (dir : path) (found : list path) : list path :=
  if existsb (path_eqb dir) found then found else found ++ [dir].

Definition has_manifest (entries : list (jsstring * node)) : bool :=
  existsb (fun e => isFile (snd e) && str_eqb (fst e) SKILL_MD) entries.

Definition MAX_DEPTH : nat := 12.

Section Walk.
Variable ignored : list jsstring.

(** The closure [walk] of [collectSkillDirs]; [n] is the node at [dir].
    [readdir] fails on anything but a readable directory. *)
Fixpoint walk (n : node) (dir : path) (depth : nat) (found : list path) {struct n} : list path :=
  if MAX_DEPTH <? depth then found
  else match n with
       | Dir true entries =>
           let found1 := if has_manifest entries then found_add dir found else found in
           fold_left
             (fun acc e =>
                match e with
                | (name, child) =>
                    if negb (isDirectory child) then acc
                    else if mem name ignored then acc
                    else walk child (dir ++ [name]) (S depth) acc
                end) entries found1
       | _ => found
       end.

Definition sort_paths (l : list path) : list path :=
  stable_sort (fun a b => str_leb (path_str a) (path_str b)) l.

(** [collectSkillDirs(rootDir)] where [root] is the node at [rootDir]; a
    missing root makes [readdir] fail and nothing is found. *)
Definition collect (fs : node) (rootDir : path) : list path :=
  match lookup fs rootDir with
  | Some n => sort_paths (walk n rootDir 0 [])
  | None => []
  end.

End Walk.

End FS.

Import FS.

(** ** Effects: a file-system state and exceptions *)

Module Eff.

Inductive outcome (A : Type) :=
| Returned (a : A)
| Thrown (err : jsstring).
Arguments Returned {A} a.
Arguments Thrown {A} err.

(** A computation on the file system; the state survives an exception. *)
Definition M (A : Type) := node -> outcome A * node.

Definition ret {A} (a : A) : M A := fun fs => (Returned a, fs).

Definition throw {A} (err : jsstring) : M A := fun fs => (Thrown err, fs).

Definition bind {A B} (m : M A) (k : A -> M B) : M B :=
  fun fs => match m fs with
            | (Returned a, fs') => k a fs'
            | (Thrown e, fs') => (Thrown e, fs')
            end.

(** [try { m } catch (err) { h(err) }]. *)
Definition try_catch {A} (m : M A) (h : jsstring -> M A) : M A :=
  fun fs => match m fs with
            | (Returned a, fs') => (Returned a, fs')
            | (Thrown e, fs') => h e fs'
            end.

(** [try { m } finally { c }]. *)
Definition try_finally {A} (m : M A) (c : M unit) : M A :=
  fun fs => match m fs with
            | (r, fs') => match c fs' with
                          | (Returned _, fs'') => (r, fs'')
                          | (Thrown e, fs'') => (Thrown e, fs'')
                          end
            end.

(** The outcome of a computation without its final state. *)
Definition attempt {A} (m : M A) : M (outcome A) :=
  fun fs => match m fs with (r, fs') => (Returned r, fs') end.

(** Modelled from the spec: [serializeByKey] (skills/serialize.js is not
    under src/) queues the tasks of one key so that they run one after the
    other; a call that runs alone runs its task. *)
Definition serializeByKey {A} (key : jsstring) (task : M A) : M A := task.

End Eff.

Import Eff.

Declare Scope eff_scope.
Delimit Scope eff_scope with eff.
Notation "x <- m ;; k" := (bind m (fun x => k))
  (at level 61, m at next level, right associativity) : eff_scope.

(** ** The operations of [node:fs/promises] used by the import engine *)

Module Fsp.

Local Open Scope eff_scope.

Definition ENOENT : jsstring := js "Error: ENOENT: no such file or directory".
Definition EACCES : jsstring := js "Error: EACCES: permission denied".
Definition ENOTDIR : jsstring := js "Error: ENOTDIR: not a directory".
Definition EISDIR : jsstring := js "Error: EISDIR: illegal operation on a directory".
Definition EINVAL : jsstring := js "Error: EINVAL: cannot copy to a subdirectory of self".

(** Replaces the first entry called [name]. *)
Fixpoint alter_entry (name : jsstring) (f : node -> node)
    (es : list (jsstring * node)) : list (jsstring * node) :=
  match es with
  | [] => []
  | (n, x) :: rest =>
      if str_eqb n name then (n, f x) :: rest
      else (n, x) :: alter_entry name f rest
  end.

Definition remove_entry (name : jsstring) (es : list (jsstring * node)) : list (jsstring * node) :=
  filter (fun e => negb (str_eqb (fst e) name)) es.

(** Puts [new] at [p], creating the directories on the way; fails below
    something that is not a directory. *)
Fixpoint write_at (n : node) (p : path) (new : node) : option node :=
  match p with
  | [] => Some new
  | seg :: p' =>
      match n with
      | Dir r es =>
          match find_entry seg es with
          | Some c =>
              match write_at c p' new with
              | Some c' => Some (Dir r (alter_entry seg (fun _ => c') es))
              | None => None
              end
          | None =>
              match write_at (Dir true []) p' new with
              | Some c' => Some (Dir r (es ++ [(seg, c')]))
              | None => None
              end
          end
      | _ => None
      end
  end.

(** [fs.mkdir(p, { recursive: true })]. *)
Fixpoint mkdirp (n : node) (p : path) : option node :=
  match p with
  | [] => match n with Dir _ _ => Some n | _ => None end
  | seg :: p' =>
      match n with
      | Dir r es =>
          match find_entry seg es with
          | Some c =>
              match mkdirp c p' with
              | Some c' => Some (Dir r (alter_entry seg (fun _ => c') es))
              | None => None
              end
          | None =>
              match mkdirp (Dir true []) p' with
              | Some c' => Some (Dir r (es ++ [(seg, c')]))
              | None => None
              end
          end
      | _ => None
      end
  end.

(** Removes the node at [p] with everything below it; nothing happens when
    it does not exist. *)
Fixpoint remove (n : node) (p : path) : node :=
  match p with
  | [] => n
  | [seg] =>
      match n with
      | Dir r es => Dir r (remove_entry seg es)
      | _ => n
      end
  | seg :: p' =>
      match n with
      | Dir r es => Dir r (alter_entry seg (fun c => remove c p') es)
      | _ => n
      end
  end.

Section Copy.
Variable ignored : list jsstring.

(** What [fs.cp] reads from a source tree under the filter
    [!ignored.has(path.basename(src))]: children with an ignored name are
    left out, an unreadable file or directory makes the copy fail. *)
Fixpoint copy_tree (n : node) : option node :=
  match n with
  | File true c => Some (File true c)
  | File false _ => None
  | Dir true es =>
      match
        fold_right
          (fun e acc =>
             match e with
             | (name, child) =>
                 if mem name ignored then acc
                 else match copy_tree child, acc with
                      | Some c', Some l => Some ((name, c') :: l)
                      | _, _ => None
                      end
             end) (Some []) es
      with
      | Some es' => Some (Dir true es')
      | None => None
      end
  | Dir false _ => None
  | Other => Some Other
  end.

(** [force: true]: a copied file replaces what is there, directories are
    merged. *)
Fixpoint merge (new old : node) {struct new} : node :=
  match new with
  | Dir r es =>
      match old with
      | Dir r' es' =>
          Dir r' (fold_left
                    (fun acc e =>
                       match e with
                       | (name, c) =>
                           match find_entry name acc with
                           | Some o => alter_entry name (fun _ => merge c o) acc
                           | None => acc ++ [(name, c)]
                           end
                       end) es es')
      | _ => new
      end
  | _ => new
  end.

Fixpoint is_prefix (a b : path) : bool :=
  match a, b with
  | [], _ => true
  | _ :: _, [] => false
  | x :: a', y :: b' => str_eqb x y && is_prefix a' b'
  end.

(** [fs.cp(src, dest, { recursive: true, force: true, dereference: false,
    filter })].  The filter is asked about [src] itself first: when it
    refuses, nothing is copied and the call succeeds. *)
Definition cp (src dest : path) : M unit :=
  fun fs =>
    if mem (basename src) ignored then (Returned tt, fs)
    else match lookup fs src with
         | None => (Thrown ENOENT, fs)
         | Some n =>
             if is_prefix src dest then (Thrown EINVAL, fs)
             else match copy_tree n with
                  | None => (Thrown EACCES, fs)
                  | Some c =>
                      let c' := match lookup fs dest with
                                | Some old => merge c old
                                | None => c
                                end in
                      match write_at fs dest c' with
                      | Some fs' => (Returned tt, fs')
                      | None => (Thrown ENOTDIR, fs)
                      end
                  end
         end.

End Copy.

Definition pathExists (p : path) : M bool :=
  fun fs => (Returned (match lookup fs p with Some _ => true | None => false end), fs).

Definition readFile (p : path) : M jsstring :=
  fun fs => match lookup fs p with
            | Some (File true c) => (Returned c, fs)
            | Some (File false _) => (Thrown EACCES, fs)
            | Some (Dir _ _) => (Thrown EISDIR, fs)
            | Some Other => (Thrown EACCES, fs)
            | None => (Thrown ENOENT, fs)
            end.

(** [fs.rm(p, { recursive: true, force: true })], taken to succeed: with
    [force] a missing path is no error, and a removal that the system
    refuses is not modelled. *)
Definition rm (p : path) : M unit :=
  fun fs => (Returned tt, remove fs p).

(** Modelled from the spec: [ensureDir] (utils.js is not under src/) makes
    the target root exist before anything is copied into it, as
    [fs.mkdir(dir, { recursive: true })] does. *)
Definition ensureDir (p : path) : M unit :=
  fun fs => match mkdirp fs p with
            | Some fs' => (Returned tt, fs')
            | None => (Thrown ENOTDIR, fs)
            end.

End Fsp.

Import Fsp.

(** ** The import engine (src/agents/skills-import.ts) *)

Module SkillsImport.

Local Open Scope eff_scope.

Inductive SkillsImportTarget := workspace | managed.

Record SkillsImportRequest := {
  source : jsstring;
  target : SkillsImportTarget;
  workspaceDir : option jsstring;
  managedSkillsDir : option jsstring;
  ref : option jsstring;
  subdir : option jsstring;
  overwrite : option bool;
  timeoutMs : option Q     (* [None]: absent or not a finite number *)
}.

Record SkillsImportEntry := {
  name : option jsstring;
  sourceDir : jsstring;
  destDir : jsstring;
  skillPath : jsstring
}.

Inductive SkipReason := conflict | invalid_skill | copy_failed.

Record SkillsImportSkippedEntry := {
  skippedSourceDir : jsstring;
  reason : SkipReason;
  skippedMessage : jsstring
}.

Record SkillsImportResult := {
  ok : bool;
  message : jsstring;
  targetDir : jsstring;
  imported : list SkillsImportEntry;
  skipped : list SkillsImportSkippedEntry;
  warnings : list jsstring
}.

Definition DEFAULT_IMPORT_TIMEOUT_MS : Z := 60000.

Definition IMPORT_IGNORED_NAMES : list jsstring :=
  map js [".git"; "node_modules"; "dist"; "build"; "out"; ".next"; ".turbo";
          ".venv"; "venv"; ".idea"; ".vscode"]%string.

(** *** sanitizeSkillDirName *)

Definition dash : N := 45.
Definition underscore : N := 95.
Definition backslash : N := 92.

(** [s.replaceAll(/[class]+/g, rep)]: every maximal run of characters of
    the class becomes one [rep]. *)
Fixpoint replace_runs (p : N -> bool) (rep : jsstring) (s : jsstring) (inrun : bool) : jsstring :=
  match s with
  | [] => []
  | c :: s' =>
      if p c then (if inrun then replace_runs p rep s' true
                   else rep ++ replace_runs p rep s' true)
      else c :: replace_runs p rep s' false
  end.

(** [[a-zA-Z0-9_-]]. *)
Definition is_safe_char (c : N) : bool :=
  ascii_alnum c || (c =? underscore)%N || (c =? dash)%N.

(** [s.replaceAll(/[^a-zA-Z0-9_-]/g, "-")], one dash per UTF-16 code unit. *)
Definition replace_unsafe (s : jsstring) : jsstring :=
  flat_map (fun c => if is_safe_char c then [c] else repeat dash (units c)) s.

Definition is_dash_or_underscore (c : N) : bool :=
  (c =? dash)%N || (c =? underscore)%N.

(** [s.replaceAll(/^[-_]+|[-_]+$/g, "")]. *)
Definition strip_edges (s : jsstring) : jsstring :=
  rev (drop_while is_dash_or_underscore (rev (drop_while is_dash_or_underscore s))).

Definition sanitizeSkillDirName (raw : jsstring) : jsstring :=
  let s1 := trim raw in
  let s2 := replace_runs (fun c => (c =? slash)%N || (c =? backslash)%N) [dash] s1 false in
  let s3 := replace_runs is_space [dash] s2 false in
  let s4 := replace_unsafe s3 in
  let s5 := replace_runs (fun c => (c =? dash)%N) [dash] s4 false in
  let s6 := strip_edges s5 in
  let normalized := firstn 64 s6 in
  if truthy normalized then normalized else js "skill".

(** *** Source classification *)

(** ASCII case folding, as the [i] flag of a regular expression. *)
Definition fold_case (c : N) : N :=
  if ((65 <=? c) && (c <=? 90))%N then (c + 32)%N else c.

Definition starts_with_ci (p s : jsstring) : bool :=
  starts_with (map fold_case p) (map fold_case (firstn (length p) s)).

Definition ends_with_ci (s p : jsstring) : bool :=
  starts_with_ci (rev p) (rev s).

(** [/^https?:\/\//i.test(value)]. *)
Definition is_http (value : jsstring) : bool :=
  starts_with_ci (js "http://") value || starts_with_ci (js "https://") value.

Definition isUrlLike (value : jsstring) : bool :=
  is_http value || starts_with_ci (js "ssh://") value.

Definition is_line_terminator (c : N) : bool :=
  ((c =? 10) || (c =? 13) || (c =? 8232) || (c =? 8233))%N.

Definition colon : N := 58.

(** [/^git@[^:]+:.+/i.test(value)]. *)
Definition isGitSshLike (value : jsstring) : bool :=
  starts_with_ci (js "git@") value
  && (let rest := skipn 4 value in
      let tail := drop_while (fun c => negb (c =? colon)%N) rest in
      negb (length tail =? length rest)
      && match tail with
         | _ :: c :: _ => negb (is_line_terminator c)
         | _ => false
         end).

(** The parts of [new URL(source)] that are read. *)
Record Url := {
  hostname : jsstring;
  pathname : jsstring
}.

Record GitHubTree := {
  repoUrl : jsstring;
  treeRef : option jsstring;
  treeSubdir : option jsstring
}.

(** [s.replace(/\.git$/i, "")]. *)
Definition strip_dot_git (s : jsstring) : jsstring :=
  if ends_with_ci s (js ".git") then firstn (length s - 4) s else s.

Definition github_repo_url (owner repo : jsstring) : jsstring :=
  js "https://github.com/" ++ owner ++ [slash] ++ repo ++ js ".git".

Section ParseTree.
Variable parseUrl : jsstring -> option Url.

Definition parseGitHubTreeUrl (src : jsstring) : option GitHubTree :=
  if negb (is_http src) then None
  else match parseUrl src with
       | None => None
       | Some url =>
           if negb (str_eqb (hostname url) (js "github.com")) then None
           else
             let parts := filter truthy (split_on slash (pathname url) []) in
             match parts with
             | owner :: repo0 :: rest =>
                 let repo := strip_dot_git repo0 in
                 if negb (truthy owner) || negb (truthy repo) then None
                 else match rest with
                      | kind :: r :: more =>
                          if str_eqb kind (js "tree") || str_eqb kind (js "blob") then
                            let rest' := join [slash] more in
                            Some {| repoUrl := github_repo_url owner repo;
                                    treeRef := Some r;
                                    treeSubdir :=
                                      if truthy rest'
                                      then Some (drop_while (fun c => (c =? slash)%N) rest')
                                      else None |}
                          else Some {| repoUrl := github_repo_url owner repo;
                                       treeRef := None; treeSubdir := None |}
                      | _ => Some {| repoUrl := github_repo_url owner repo;
                                     treeRef := None; treeSubdir := None |}
                      end
             | _ => None
             end
       end.

End ParseTree.

(** *** The host: what the engine consumes from outside this file *)

Record CmdResult := {
  stdout : jsstring;
  stderr : jsstring;
  code : option Z
}.

Record Frontmatter := {
  fm_name : option jsstring;
  fm_description : option jsstring;
  fm_metadata : option jsstring
}.

Record Env := {
  (** [resolveUserPath] of utils.js: an absolute, normalized path *)
  resolveUserPath : jsstring -> path;
  CONFIG_DIR : path;
  (** [os.tmpdir()] *)
  tmpdir : path;
  (** [parseFrontmatter] of skills/frontmatter.js; it may throw *)
  parseFrontmatter : jsstring -> outcome Frontmatter;
  (** [new URL(s)], [None] when it throws *)
  parseUrl : jsstring -> option Url;
  (** [fs.mkdtemp(path.join(dir, prefix))] *)
  mkdtemp : path -> jsstring -> M path;
  (** [runCommandWithTimeout(argv, { timeoutMs, cwd })] of process/exec.js *)
  runCommandWithTimeout : list jsstring -> option path -> Z -> M CmdResult
}.

Record Resolved := {
  rootDir : option path;          (* [None] is the empty string *)
  cleanup : option path;          (* the temporary directory to remove *)
  resolvedWarnings : list jsstring
}.

Definition decimalZ (z : Z) : jsstring :=
  if (z <? 0)%Z then dash :: decimal (Z.to_nat (- z)) else decimal (Z.to_nat z).

(** [a || b] on strings. *)
Definition or_else (a b : jsstring) : jsstring := if truthy a then a else b.

Definition is_truthy (o : option jsstring) : bool :=
  match o with Some s => truthy s | None => false end.

Definition code_nonzero (r : CmdResult) : bool :=
  match code r with Some 0%Z => false | _ => true end.

Section Engine.
Variable E : Env.

Definition clone_timeout (params : SkillsImportRequest) : Z :=
  match timeoutMs params with
  | Some t => Z.max 1000 (Qfloor t)
  | None => DEFAULT_IMPORT_TIMEOUT_MS
  end.

Definition tryClone (timeout : Z) (argv : list jsstring) (cwd : option path) : M CmdResult :=
  try_catch (runCommandWithTimeout E argv cwd timeout)
    (fun err => ret {| stdout := []; stderr := err; code := Some 1%Z |}).

Definition run_cleanup (c : option path) : M unit :=
  match c with
  | Some tmp => rm tmp
  | None => ret tt
  end.

(** The first part of [resolveSource]: what the source string says. *)
Record SourceParts := {
  normalizedGitUrl : jsstring;
  normalizedRef : option jsstring;
  normalizedSubdir : option jsstring;
  initialWarnings : list jsstring
}.

Definition sourceParts (params : SkillsImportRequest) (rawSource : jsstring) : SourceParts :=
  let githubTree := parseGitHubTreeUrl (parseUrl E) rawSource in
  {| normalizedGitUrl :=
       match githubTree with Some t => repoUrl t | None => rawSource end;
     normalizedRef :=
       match githubTree with
       | Some {| treeRef := Some r |} => Some r
       | _ => ref params
       end;
     normalizedSubdir :=
       match githubTree with
       | Some {| treeSubdir := Some d |} => Some d
       | _ => subdir params
       end;
     initialWarnings :=
       (if match githubTree with Some t => is_truthy (treeSubdir t) | None => false end
           && is_truthy (subdir params)
        then [js "Both source URL subdir and params.subdir were provided; using the URL subdir."]
        else [])
       ++ (if match githubTree with Some t => is_truthy (treeRef t) | None => false end
              && is_truthy (ref params)
           then [js "Both source URL ref and params.ref were provided; using the URL ref."]
           else []) |}.

Definition isGit (parts : SourceParts) (rawSource : jsstring) : bool :=
  isUrlLike (normalizedGitUrl parts) || isGitSshLike (normalizedGitUrl parts)
  || ends_with_ci rawSource (js ".git").

(** [sub ? path.join(root, sub) : root]. *)
Definition withSubdir (root : path) (sub : option jsstring) : path :=
  match sub with
  | Some d => if truthy d then path_join root d else root
  | None => root
  end.

Definition exit_text (c : option Z) (otherwise : jsstring) : jsstring :=
  match c with Some z => decimalZ z | None => otherwise end.

(** The shallow clone and its fallback; [inl] is the warning of a failure,
    after which the temporary directory is gone. *)
Definition cloneRepo (timeout : Z) (parts : SourceParts) (tmpDir repoDir : path)
    : M (jsstring + unit) :=
  let shallowCloneArgs :=
    map js ["git"; "clone"; "--depth"; "1"]%string
    ++ (if is_truthy (normalizedRef parts)
        then [js "--branch"; or_empty (normalizedRef parts)] else [])
    ++ [normalizedGitUrl parts; path_str repoDir] in
  clone <- tryClone timeout shallowCloneArgs None ;;
  if code_nonzero clone then
    fullClone <- tryClone timeout
                   [js "git"; js "clone"; normalizedGitUrl parts; path_str repoDir] None ;;
    if code_nonzero fullClone then
      _ <- rm tmpDir ;;
      ret (inl (or_else (trim (stderr clone))
                 (or_else (trim (stdout clone))
                    (or_else (trim (stderr fullClone))
                       (or_else (trim (stdout fullClone))
                          (js "git clone failed (exit "
                           ++ exit_text (code fullClone) (exit_text (code clone) (js "unknown"))
                           ++ js ")"))))))
    else ret (inr tt)
  else ret (inr tt).

(** The checkout of the requested ref; a failure is a warning. *)
Definition checkoutRef (timeout : Z) (parts : SourceParts) (repoDir : path)
    : M (list jsstring) :=
  if is_truthy (normalizedRef parts) then
    checkout <- tryClone timeout [js "git"; js "checkout"; or_empty (normalizedRef parts)]
                  (Some repoDir) ;;
    if code_nonzero checkout then
      ret [or_else (trim (stderr checkout))
             (or_else (trim (stdout checkout))
                (js "git checkout failed (exit "
                 ++ exit_text (code checkout) (js "unknown") ++ js ")"))]
    else ret []
  else ret [].

(** The last part of [resolveSource]: the source is not a local path. *)
Definition resolveRemote (params : SkillsImportRequest) (parts : SourceParts) : M Resolved :=
  tmpDir <- mkdtemp E (tmpdir E) (js "openclaw-skill-import-") ;;
  let repoDir := tmpDir ++ [js "repo"] in
  let timeout := clone_timeout params in
  cloned <- cloneRepo timeout parts tmpDir repoDir ;;
  match cloned with
  | inl failure =>
      ret {| rootDir := None; cleanup := None;
             resolvedWarnings := initialWarnings parts ++ [failure] |}
  | inr _ =>
      w3 <- checkoutRef timeout parts repoDir ;;
      ret {| rootDir := Some (withSubdir repoDir (normalizedSubdir parts));
             cleanup := Some tmpDir;
             resolvedWarnings := initialWarnings parts ++ w3 |}
  end.

Definition resolveSource (params : SkillsImportRequest) : M Resolved :=
  let rawSource := trim (source params) in
  if negb (truthy rawSource) then
    ret {| rootDir := None; cleanup := None; resolvedWarnings := [js "missing source"] |}
  else
    let parts := sourceParts params rawSource in
    let resolvedLocalPath := resolveUserPath E rawSource in
    found <- pathExists resolvedLocalPath ;;
    if found : bool then
      let root := if ends_with rawSource (js "/SKILL.md")
                  then dirname resolvedLocalPath else resolvedLocalPath in
      ret {| rootDir := Some (withSubdir root (normalizedSubdir parts));
             cleanup := None;
             resolvedWarnings := initialWarnings parts |}
    else if negb (isGit parts rawSource) then
      ret {| rootDir := None; cleanup := None;
             resolvedWarnings :=
               initialWarnings parts
               ++ [js "source path does not exist: " ++ path_str resolvedLocalPath] |}
    else resolveRemote params parts.

Definition resolveTargetDir (params : SkillsImportRequest) : option path :=
  match target params with
  | managed =>
      match managedSkillsDir params with
      | Some d => if truthy (trim d) then Some (resolveUserPath E d)
                  else Some (path_join (CONFIG_DIR E) (js "skills"))
      | None => Some (path_join (CONFIG_DIR E) (js "skills"))
      end
  | workspace =>
      match workspaceDir params with
      | Some d => if truthy (trim d)
                  then Some (path_join (resolveUserPath E (trim d)) (js "skills"))
                  else None
      | None => None
      end
  end.

Definition collectSkillDirs (rootDir : path) : M (list path) :=
  fun fs => (Returned (collect IMPORT_IGNORED_NAMES fs rootDir), fs).

(** The three accumulators of the loop over the found directories. *)
Record LoopState := {
  ls_imported : list SkillsImportEntry;
  ls_skipped : list SkillsImportSkippedEntry;
  usedDestNames : list jsstring
}.

(** The name of a manifest, when its frontmatter can be parsed and has one. *)
Definition declared_name (content : jsstring) : option jsstring :=
  match parseFrontmatter E content with
  | Returned fm =>
      match fm_name fm with
      | Some n => if truthy (trim n) then Some (trim n) else None
      | None => None
      end
  | Thrown _ => None
  end.

(** The destination directory name of the next entry. *)
Definition destName (used : list jsstring) (dirNameBase : jsstring) : jsstring :=
  if mem dirNameBase used
  then dirNameBase ++ [dash] ++ decimal (length used + 1)
  else dirNameBase.

Definition skip (st : LoopState) (e : SkillsImportSkippedEntry) : LoopState :=
  {| ls_imported := ls_imported st;
     ls_skipped := ls_skipped st ++ [e];
     usedDestNames := usedDestNames st |}.

(** One iteration of [for (const skillDir of skillDirs)]. *)
Definition importOne (targetDir : path) (ow : option bool)
    (st : LoopState) (skillDir : path) : M LoopState :=
  let skillPath := path_join skillDir SKILL_MD in
  read <- attempt (readFile skillPath) ;;
  match read with
  | Thrown err =>
      ret (skip st {| skippedSourceDir := path_str skillDir;
                      reason := invalid_skill;
                      skippedMessage := js "failed to read SKILL.md: " ++ err |})
  | Returned content =>
      let name := declared_name content in
      let dirNameBase :=
        sanitizeSkillDirName (match name with Some n => n | None => basename skillDir end) in
      let dirName := destName (usedDestNames st) dirNameBase in
      let st1 := {| ls_imported := ls_imported st;
                    ls_skipped := ls_skipped st;
                    usedDestNames := set_add dirName (usedDestNames st) |} in
      let destDir := path_join targetDir dirName in
      exists_ <- pathExists destDir ;;
      let overwriting := match ow with Some true => true | _ => false end in
      if (exists_ : bool) && negb overwriting then
        ret (skip st1 {| skippedSourceDir := path_str skillDir;
                         reason := conflict;
                         skippedMessage := js "destination exists: " ++ path_str destDir |})
      else
        _ <- (if exists_ && overwriting then rm destDir else ret tt) ;;
        copied <- attempt (cp IMPORT_IGNORED_NAMES skillDir destDir) ;;
        match copied with
        | Thrown err =>
            ret (skip st1 {| skippedSourceDir := path_str skillDir;
                             reason := copy_failed;
                             skippedMessage := js "copy failed: " ++ err |})
        | Returned _ =>
            ret {| ls_imported :=
                     ls_imported st1 ++
                       [{| name := name;
                           sourceDir := path_str skillDir;
                           destDir := path_str destDir;
                           skillPath := path_str (path_join destDir SKILL_MD) |}];
                   ls_skipped := ls_skipped st1;
                   usedDestNames := usedDestNames st1 |}
        end
  end.

Fixpoint importAll (targetDir : path) (ow : option bool)
    (st : LoopState) (skillDirs : list path) : M LoopState :=
  match skillDirs with
  | [] => ret st
  | d :: rest =>
      st' <- importOne targetDir ow st d ;;
      importAll targetDir ow st' rest
  end.

Definition failure (msg : jsstring) (targetDir : jsstring)
    (warnings : list jsstring) : SkillsImportResult :=
  {| ok := false; message := msg; targetDir := targetDir;
     imported := []; skipped := []; warnings := warnings |}.

(** The [try] block of [importSkills]: an early result, or the state of
    the loop when it is over. *)
Definition importFrom (params : SkillsImportRequest) (targetDir root : path)
    (warnings : list jsstring) : M (SkillsImportResult + LoopState) :=
  found <- pathExists root ;;
  if negb found then
    ret (inl (failure (js "source not found: " ++ path_str root)
                (path_str targetDir) warnings))
  else
    _ <- ensureDir targetDir ;;
    skillDirs <- collectSkillDirs root ;;
    if length skillDirs =? 0 then
      ret (inl (failure (js "no SKILL.md found in source") (path_str targetDir) warnings))
    else
      st <- importAll targetDir (overwrite params)
              {| ls_imported := []; ls_skipped := []; usedDestNames := [] |} skillDirs ;;
      ret (inr st).

(** The result after the loop. *)
Definition summarize (targetDir : path) (warnings : list jsstring) (st : LoopState)
    : SkillsImportResult :=
  let ok := 0 <? length (ls_imported st) in
  let message :=
    if ok then js "Imported " ++ decimal (length (ls_imported st))
               ++ js " skill(s) into " ++ path_str targetDir
    else if 0 <? length (ls_skipped st)
         then js "No skills imported (see skipped entries)"
         else js "No skills imported" in
  {| ok := ok; message := message; targetDir := path_str targetDir;
     imported := ls_imported st; skipped := ls_skipped st; warnings := warnings |}.

Definition importSkills (params : SkillsImportRequest) : M SkillsImportResult :=
  match resolveTargetDir params with
  | None => ret (failure (js "workspaceDir required when target=workspace") [] [])
  | Some targetDir =>
      serializeByKey (js "skillsImport:" ++ path_str targetDir)
        (resolved <- resolveSource params ;;
         let warnings := resolvedWarnings resolved in
         match rootDir resolved with
         | None =>
             ret (failure (last warnings (js "failed to resolve source"))
                    (path_str targetDir) warnings)
         | Some root =>
             r <- try_finally (importFrom params targetDir root warnings)
                    (run_cleanup (cleanup resolved)) ;;
             match r with
             | inl early => ret early
             | inr st => ret (summarize targetDir warnings st)
             end
         end)
  end.

End Engine.

End SkillsImport.

(** ** The validation engine (src/agents/skills-validate.ts) *)

Module SkillsValidate.

Import SkillsImport.
Local Open Scope eff_scope.

Record PiDiagnostic := {
  diagType : jsstring;
  diagMessage : jsstring;
  diagPath : option jsstring
}.

Record Skill := {
  skillName : jsstring;
  filePath : jsstring;
  skillSource : jsstring;
  skillDescription : option jsstring
}.

Record SkillEntry := {
  skill : Skill
}.

Record Missing := {
  bins : list jsstring;
  anyBins : list jsstring;
  env : list jsstring;
  config : list jsstring;
  os : list jsstring
}.

Record InstallOption := {
  installId : jsstring
}.

Record SkillStatusEntry := {
  statusName : jsstring;
  statusFilePath : jsstring;
  eligible : bool;
  missing : Missing;
  install : list InstallOption
}.

Record SkillStatusReport := {
  reportSkills : list SkillStatusEntry
}.

(** What [loadSkillsFromDir] may return, as [normalizePiLoadResult] tells
    the shapes apart. *)
Inductive PiLoadResult :=
| PiArray (skills : list Skill)
| PiObject (skills : list Skill) (diagnostics : option (list PiDiagnostic))
| PiOther.

Record NormalizedPiLoadResult := {
  piSkills : list Skill;
  piDiagnostics : list PiDiagnostic
}.

Definition normalizePiLoadResult (result : PiLoadResult) : NormalizedPiLoadResult :=
  match result with
  | PiArray skills => {| piSkills := skills; piDiagnostics := [] |}
  | PiObject skills diagnostics =>
      {| piSkills := skills;
         piDiagnostics := match diagnostics with Some d => d | None => [] end |}
  | PiOther => {| piSkills := []; piDiagnostics := [] |}
  end.

(** A parsed JSON5 value, as far as [inspectOpenClawMetadata] looks. *)
#[warnings="-register-all"]
Inductive json :=
| JNull
| JPrimitive (isTruthy : bool)
| JArray (items : list json)
| JObject (fields : list (jsstring * json)).

(** [Boolean(value && typeof value === "object")]. *)
Definition is_object (v : json) : bool :=
  match v with
  | JArray _ | JObject _ => true
  | _ => false
  end.

Fixpoint get_field (key : jsstring) (fields : list (jsstring * json)) : option json :=
  match fields with
  | [] => None
  | (k, v) :: rest => if str_eqb k key then Some v else get_field key rest
  end.

(** What [inspectOpenClawMetadata] returns, without the resolved [metadata],
    which the validation does not read. *)
Record MetadataInspection := {
  present : bool;
  parseOk : bool;
  manifestFound : bool;
  inspectionError : option jsstring
}.

Record Collision := {
  winnerPath : jsstring;
  winnerSource : jsstring
}.

Record SkillValidationEntry := {
  v_destDir : jsstring;
  v_skillPath : jsstring;
  importedName : option jsstring;
  declaredName : option jsstring;
  loadedName : option jsstring;
  description : option jsstring;
  loaded : bool;
  diagnostics : list PiDiagnostic;
  metadata : MetadataInspection;
  status : option SkillStatusEntry;
  ready : bool;
  rewriteRecommended : bool;
  rewriteReasons : list jsstring
}.

Record Summary := {
  total : nat;
  loadedCount : nat;
  readyCount : nat;
  rewriteCount : nat
}.

Record SkillsValidationReport := {
  v_ok : bool;
  v_message : jsstring;
  summary : Summary;
  v_skills : list SkillValidationEntry
}.

(** The phrases of the pattern of [shouldRecommendRewrite]. *)
Definition INTERESTING : list jsstring :=
  map js ["description is required"; "unknown frontmatter field";
          "name contains invalid characters"; "does not match parent directory";
          "failed to parse"]%string.

Definition is_interesting (message : jsstring) : bool :=
  existsb (fun phrase => includes (map fold_case message) phrase) INTERESTING.

Section Host.
Variables Config Eligibility : Type.

(** The host of the validation engine. *)
Record Host := {
  (** the working directory that [path.resolve] starts from *)
  cwd : path;
  h_parseFrontmatter : jsstring -> outcome Frontmatter;
  (** [JSON5.parse] *)
  json5_parse : jsstring -> outcome json;
  MANIFEST_KEY : jsstring;
  LEGACY_MANIFEST_KEYS : list jsstring;
  (** the loader and the eligibility report of the host read the disk *)
  loadWorkspaceSkillEntries : node -> jsstring -> option Config -> list SkillEntry;
  buildWorkspaceSkillStatus :
    node -> jsstring -> option Config -> option Eligibility -> SkillStatusReport;
  loadSkillsFromDir : node -> jsstring -> jsstring -> PiLoadResult
}.

Variable H : Host.

(** [path.resolve(p)]. *)
Definition normalizePath (p : jsstring) : path :=
  if starts_with [slash] p then path_join [] p else path_join (cwd H) p.

Definition inspectOpenClawMetadata (frontmatter : Frontmatter) : MetadataInspection :=
  let raw := match fm_metadata frontmatter with Some m => trim m | None => [] end in
  if negb (truthy raw) then
    {| present := false; parseOk := true; manifestFound := false; inspectionError := None |}
  else
    match json5_parse H raw with
    | Thrown err =>
        {| present := true; parseOk := false; manifestFound := false;
           inspectionError := Some err |}
    | Returned (JObject fields) =>
        {| present := true; parseOk := true;
           manifestFound :=
             existsb (fun key => match get_field key fields with
                                 | Some v => is_object v
                                 | None => false
                                 end)
               (MANIFEST_KEY H :: LEGACY_MANIFEST_KEYS H);
           inspectionError := None |}
    | Returned (JArray _) =>
        {| present := true; parseOk := true; manifestFound := false;
           inspectionError := None |}
    | Returned _ =>
        {| present := true; parseOk := false; manifestFound := false;
           inspectionError := Some (js "metadata must be a JSON object") |}
    end.

Definition findSkillEntryByPath (entries : list SkillEntry) (skillPath : jsstring)
    : option SkillEntry :=
  let target := normalizePath skillPath in
  find (fun entry => path_eqb (normalizePath (filePath (skill entry))) target) entries.

Definition findSkillStatusByPath (report : SkillStatusReport) (skillPath : jsstring)
    : option SkillStatusEntry :=
  let target := normalizePath skillPath in
  find (fun entry => path_eqb (normalizePath (statusFilePath entry)) target)
    (reportSkills report).

Definition findAnyNameCollision (entries : list SkillEntry) (importedPath : jsstring)
    (name : jsstring) : option Collision :=
  let importedPath' := normalizePath importedPath in
  let normalizedName := trim name in
  if negb (truthy normalizedName) then None
  else
    match find (fun entry =>
                  str_eqb (skillName (skill entry)) normalizedName
                  && negb (path_eqb (normalizePath (filePath (skill entry))) importedPath'))
               entries with
    | Some entry => Some {| winnerPath := filePath (skill entry);
                            winnerSource := skillSource (skill entry) |}
    | None => None
    end.

Definition shouldRecommendRewrite (loaded : bool) (diagnostics : list PiDiagnostic)
    (inspection : MetadataInspection) (status : option SkillStatusEntry)
    (collision : option Collision) : bool * list jsstring :=
  let r1 := if negb loaded
            then [js "Skill not loaded by OpenClaw (likely missing description or invalid frontmatter)."]
            else [] in
  let r2 := match collision with
            | Some c => [js "Skill name collides with another loaded skill: " ++ winnerSource c
                         ++ js " (" ++ winnerPath c ++ js ")."]
            | None => []
            end in
  let r3 := if present inspection && negb (parseOk inspection)
            then [js "Invalid JSON5 in frontmatter metadata: "
                  ++ match inspectionError inspection with
                     | Some e => e
                     | None => js "parse error"
                     end ++ js "."]
            else [] in
  let r4 := if present inspection && parseOk inspection && negb (manifestFound inspection)
            then [js "Frontmatter metadata is present but does not include an OpenClaw manifest key."]
            else [] in
  let interesting := filter is_interesting (map diagMessage diagnostics) in
  let r5 := map (fun msg => js "Agent Skills spec warning: " ++ msg)
              (firstn 5 (set_of interesting)) in
  let r6 := match status with
            | Some st =>
                if negb (eligible st)
                   && ((0 <? length (bins (missing st))) || (0 <? length (anyBins (missing st))))
                   && (length (install st) =? 0)
                then [js "Missing required binaries but no installer is declared in OpenClaw metadata."]
                else []
            | None => []
            end in
  let reasons := r1 ++ r2 ++ r3 ++ r4 ++ r5 ++ r6 in
  let unique := set_of (filter truthy (map trim reasons)) in
  (0 <? length unique, unique).

Definition status_eligible (s : option SkillStatusEntry) : bool :=
  match s with Some st => eligible st | None => false end.

(** The body of the loop of [validateImportedSkills] for one entry.  The
    source hands the resolved [skillPath] to the two lookups, which resolve
    it again; resolving a resolved path gives that path, so the lookups
    here get the path as imported and resolve it once. *)
Definition validateOne (fs : node) (entries : list SkillEntry) (report : SkillStatusReport)
    (imp : SkillsImportEntry) : outcome SkillValidationEntry :=
  let skillPath := normalizePath (SkillsImport.skillPath imp) in
  match fst (readFile skillPath fs) with
  | Thrown err =>
      Returned
        {| v_destDir := destDir imp;
           v_skillPath := SkillsImport.skillPath imp;
           importedName := name imp;
           declaredName := None;
           loadedName := None;
           description := None;
           loaded := false;
           diagnostics := [{| diagType := js "error";
                              diagMessage := js "Failed to read SKILL.md: " ++ err;
                              diagPath := Some (SkillsImport.skillPath imp) |}];
           metadata := {| present := false; parseOk := true; manifestFound := false;
                          inspectionError := None |};
           status := None;
           ready := false;
           rewriteRecommended := true;
           rewriteReasons := [js "Failed to read SKILL.md."] |}
  | Returned content =>
      match h_parseFrontmatter H content with
      | Thrown err => Thrown err
      | Returned frontmatter =>
          let declared := match fm_name frontmatter with
                          | Some n => Some (trim n)
                          | None => None
                          end in
          let inspection := inspectOpenClawMetadata frontmatter in
          let piLoad := normalizePiLoadResult
                          (loadSkillsFromDir H fs (destDir imp) (js "openclaw-import")) in
          let piDiags :=
            filter (fun diag =>
                      match diagPath diag with
                      | Some p => truthy p && path_eqb (normalizePath p) skillPath
                      | None => false
                      end) (piDiagnostics piLoad) in
          let piSkill := find (fun sk => path_eqb (normalizePath (filePath sk)) skillPath)
                           (piSkills piLoad) in
          let entry := findSkillEntryByPath entries (SkillsImport.skillPath imp) in
          let st := findSkillStatusByPath report (SkillsImport.skillPath imp) in
          let lname := match piSkill with
                       | Some sk => Some (skillName sk)
                       | None => match entry with
                                 | Some e => Some (skillName (skill e))
                                 | None => None
                                 end
                       end in
          let collision :=
            match entry, lname with
            | None, Some n =>
                if truthy n
                then findAnyNameCollision entries (SkillsImport.skillPath imp) n
                else None
            | _, _ => None
            end in
          let isLoaded := match entry with Some _ => true | None => false end in
          let isReady := isLoaded && status_eligible st in
          let rewrite := shouldRecommendRewrite isLoaded piDiags inspection st collision in
          Returned
            {| v_destDir := destDir imp;
               v_skillPath := SkillsImport.skillPath imp;
               importedName := name imp;
               declaredName := declared;
               loadedName := match lname with
                             | Some n => if truthy n then Some n else None
                             | None => None
                             end;
               description := match piSkill with
                              | Some sk => match skillDescription sk with
                                           | Some d => if truthy d then Some d else None
                                           | None => None
                                           end
                              | None => None
                              end;
               loaded := isLoaded;
               diagnostics := piDiags;
               metadata :=
                 {| present := present inspection;
                    parseOk := parseOk inspection;
                    manifestFound := manifestFound inspection;
                    inspectionError :=
                      match inspectionError inspection with
                      | Some e => if truthy e then Some e else None
                      | None => None
                      end |};
               status := st;
               ready := isReady;
               rewriteRecommended := fst rewrite;
               rewriteReasons := snd rewrite |}
      end
  end.

Fixpoint validateAll (fs : node) (entries : list SkillEntry) (report : SkillStatusReport)
    (l : list SkillsImportEntry) : outcome (list SkillValidationEntry) :=
  match l with
  | [] => Returned []
  | imp :: rest =>
      match validateOne fs entries report imp with
      | Thrown e => Thrown e
      | Returned v =>
          match validateAll fs entries report rest with
          | Thrown e => Thrown e
          | Returned vs => Returned (v :: vs)
          end
      end
  end.

Definition count {A} (p : A -> bool) (l : list A) : nat := length (filter p l).

Definition validateImportedSkills (workspaceDir : jsstring)
    (imported : list SkillsImportEntry) (config : option Config)
    (eligibility : option Eligibility) : M SkillsValidationReport :=
  fun fs =>
    let entries := loadWorkspaceSkillEntries H fs workspaceDir config in
    let report := buildWorkspaceSkillStatus H fs workspaceDir config eligibility in
    match validateAll fs entries report imported with
    | Thrown e => (Thrown e, fs)
    | Returned validations =>
        let total := length validations in
        let loadedCount := count loaded validations in
        let readyCount := count ready validations in
        let rewriteCount := count rewriteRecommended validations in
        let ok := (0 <? total) && (readyCount =? total) in
        let parts :=
          [js "Validated " ++ decimal total ++ js " imported skill(s)"]
          ++ (if negb (readyCount =? total)
              then [decimal readyCount ++ js "/" ++ decimal total ++ js " ready"] else [])
          ++ (if 0 <? rewriteCount
              then [decimal rewriteCount ++ js " need rewrite/patch-up"] else []) in
        (Returned
           {| v_ok := ok;
              v_message := join (js "; ") parts;
              summary := {| total := total; loadedCount := loadedCount;
                            readyCount := readyCount; rewriteCount := rewriteCount |};
              v_skills := validations |}, fs)
    end.

End Host.

End SkillsValidate.

(** ** The gateway method [skills.import]
    (src/gateway/server-methods/skills.ts) *)

Module Gateway.

Import SkillsImport SkillsValidate.
Local Open Scope eff_scope.

Record ImportParams := {
  p_source : jsstring;
  p_target : option SkillsImportTarget;
  p_ref : option jsstring;
  p_subdir : option jsstring;
  p_overwrite : option bool;
  p_autoInstall : option bool;
  p_timeoutMs : option Q
}.

Record InstallResult := {
  i_ok : bool;
  i_message : jsstring;
  i_stdout : jsstring;
  i_stderr : jsstring;
  i_code : option Z
}.

Record AutoInstallResult := {
  a_name : jsstring;
  a_installId : jsstring;
  a_result : InstallResult
}.

Inductive ErrorCode := INVALID_REQUEST | UNAVAILABLE.

Record Payload := {
  r_result : SkillsImportResult;
  r_validation : option SkillsValidationReport;
  r_autoInstall : option (nat * list AutoInstallResult)
}.

(** The arguments of [respond]. *)
Record Response := {
  respOk : bool;
  payload : option Payload;
  error : option (ErrorCode * jsstring)
}.

(** The calls the handler makes to its collaborators, in order. *)
Inductive Call :=
| CallImport (request : SkillsImportRequest)
| CallValidate (workspaceDir : jsstring) (imported : list SkillsImportEntry)
| CallInstall (skillName installId : jsstring)
| CallBump.

Section Handler.
Variables Config Eligibility : Type.
Variable E : Env.
Variable H : Host Config Eligibility.

Record GatewayHost := {
  loadConfig : node -> Config;
  (** [resolveAgentWorkspaceDir(cfg, resolveDefaultAgentId(cfg))] *)
  resolveWorkspaceDir : Config -> jsstring;
  getRemoteSkillEligibility : node -> Eligibility;
  (** [installSkill] of agents/skills-install.js *)
  installSkill : jsstring -> jsstring -> jsstring -> option Q -> Config -> M InstallResult
}.

Variable G : GatewayHost.

(** The installer the loop of the handler picks for a validation entry, if
    it picks one. *)
Definition installerFor (entry : SkillValidationEntry) : option (jsstring * jsstring) :=
  match status entry with
  | None => None
  | Some st =>
      if eligible st then None
      else if length (install st) =? 0 then None
      else if 0 <? length (os (missing st)) then None
      else if negb ((0 <? length (bins (missing st))) || (0 <? length (anyBins (missing st))))
      then None
      else match install st with
           | first :: _ =>
               if truthy (installId first) then Some (statusName st, installId first)
               else None
           | [] => None
           end
  end.

(** [for (const entry of validation.skills)]. *)
Fixpoint autoInstallAll (workspaceDir : jsstring) (timeout : option Q) (cfg : Config)
    (entries : list SkillValidationEntry)
    : M (list AutoInstallResult * list Call) :=
  match entries with
  | [] => ret ([], [])
  | entry :: rest =>
      match installerFor entry with
      | None => autoInstallAll workspaceDir timeout cfg rest
      | Some (skillName, id) =>
          installResult <- installSkill G workspaceDir skillName id timeout cfg ;;
          more <- autoInstallAll workspaceDir timeout cfg rest ;;
          ret ({| a_name := skillName; a_installId := id; a_result := installResult |}
                 :: fst more,
               CallInstall skillName id :: snd more)
      end
  end.

Definition importRequest (p : ImportParams) (workspaceDirRaw : jsstring)
    : SkillsImportRequest :=
  {| source := p_source p;
     target := match p_target p with Some t => t | None => workspace end;
     workspaceDir := Some workspaceDirRaw;
     managedSkillsDir := None;
     ref := p_ref p;
     subdir := p_subdir p;
     overwrite := p_overwrite p;
     timeoutMs := p_timeoutMs p |}.

(** The handler on parameters that passed [validateSkillsImportParams]; it
    yields what it hands to [respond] and the calls it made. *)
Definition skills_import (p : ImportParams) : M (Response * list Call) :=
  fun fs0 =>
    let cfg := loadConfig G fs0 in
    let workspaceDirRaw := resolveWorkspaceDir G cfg in
    let request := importRequest p workspaceDirRaw in
    (result <- importSkills E request ;;
     fun fs1 =>
       let eligibility := getRemoteSkillEligibility G fs1 in
       let validate :=
         validateImportedSkills H workspaceDirRaw (imported result) (Some cfg)
           (Some eligibility) in
       (first <- (if ok result
                  then v <- validate ;; ret (Some v, [CallValidate workspaceDirRaw (imported result)])
                  else ret (None, [])) ;;
        second <-
          match fst first, p_autoInstall p with
          | Some validation, Some true =>
              if ok result then
                done <- autoInstallAll workspaceDirRaw (p_timeoutMs p) cfg
                          (v_skills validation) ;;
                v <- validate ;;
                ret (Some v, fst done,
                     snd done ++ [CallValidate workspaceDirRaw (imported result)])
              else ret (fst first, [], [])
          | _, _ => ret (fst first, [], [])
          end ;;
        let validation := fst (fst second) in
        let autoInstallResults := snd (fst second) in
        ret ({| respOk := ok result;
                payload :=
                  Some {| r_result := result;
                          r_validation := validation;
                          r_autoInstall :=
                            if 0 <? length autoInstallResults
                            then Some (length autoInstallResults, autoInstallResults)
                            else None |};
                error := if ok result then None else Some (UNAVAILABLE, message result) |},
             [CallImport request] ++ snd first ++ snd second
             ++ (if ok result then [CallBump] else []))) fs1) fs0.

End Handler.

End Gateway.

(** ** The discovery engine (src/agents/skills-discover.ts) *)

Module SkillsDiscover.

Import Discover SkillsImport.
Local Open Scope eff_scope.

Inductive SkillsDiscoverMode :=
| auto
| skill_pool
| github
| other_mode (text : jsstring).

Record SkillsDiscoverRequest := {
  prompt : jsstring;
  limit : option Q;        (* [None]: absent or not a finite number *)
  mode : option SkillsDiscoverMode;
  githubToken : option jsstring;
  d_timeoutMs : option Q
}.

Inductive Provider := provider_skill_pool | provider_github.

Record SkillsDiscoverCandidate := {
  c_source : jsstring;
  score : Q;
  provider : Provider;
  c_reason : jsstring;
  c_skillName : option jsstring;
  c_description : option jsstring;
  repoFullName : option jsstring;
  repoStars : option Q;
  repoDefaultBranch : option jsstring;
  c_subdir : option jsstring
}.

Record SkillsDiscoverResult := {
  d_ok : bool;
  d_message : jsstring;
  candidates : list SkillsDiscoverCandidate;
  d_warnings : list jsstring
}.

(** An entry of the index; a field is [None] unless it is a string (an
    array for [keywords], whose items are already [String(k ?? "")]). *)
Record IndexEntry := {
  e_name : option jsstring;
  e_description : option jsstring;
  e_url : option jsstring;
  e_keywords : option (list jsstring)
}.

Record SkillPoolIndex := {
  skills : option (list IndexEntry)
}.

Record RepoItem := {
  full_name : option jsstring;
  clone_url : option jsstring;
  default_branch : option jsstring;
  stargazers_count : option Q
}.

Record GitHubRepoSearchResponse := {
  items : option (list RepoItem)
}.

(** A JSON document seen through the two casts of the engine. *)
Record JsonDoc := {
  asIndex : SkillPoolIndex;
  asSearch : GitHubRepoSearchResponse
}.

(** The two addresses that are fetched. *)
Inductive Endpoint :=
| SKILL_POOL_INDEX_URL
| RepoSearch (q sort order : jsstring) (per_page : nat).

(** What a request comes to.  A failure carries the status with its text
    and the body of the answer, the empty string when it cannot be read;
    the engine keeps the head of that body, counted here in code points
    where the source counts UTF-16 units. *)
Inductive FetchOutcome :=
| FetchThrew (err : jsstring)
| HttpFailure (statusLine body : jsstring)
| HttpOk (body : outcome JsonDoc).

Record Net := {
  (** [fetch(url, { headers, signal })] with the bearer token, if any *)
  fetch : Endpoint -> option jsstring -> Z -> FetchOutcome;
  GITHUB_TOKEN : option jsstring;
  GH_TOKEN : option jsstring
}.

Definition DEFAULT_TIMEOUT_MS : Z := 20000.

Definition thresholdSkillPool : Q := (25 # 100)%Q.
Definition thresholdGitHub : Q := (35 # 100)%Q.

Section Engine.
Variable U : UnicodeData.
Variable E : Env.
Variable W : Net.

Definition rankSkillPoolIndex (prompt : jsstring) (index : SkillPoolIndex)
    (limit : nat) (threshold : Q) : list SkillsDiscoverCandidate :=
  let entries := match skills index with Some l => l | None => [] end in
  let scored :=
    flat_map
      (fun entry =>
         let url := match e_url entry with Some u => trim u | None => [] end in
         if negb (truthy url) then []
         else
           let name := option_map trim (e_name entry) in
           let description := option_map trim (e_description entry) in
           let keywords := option_map (fun ks => filter truthy (map trim ks))
                             (e_keywords entry) in
           let s := scoreSkillMatch U {| sp_prompt := prompt; sp_name := name;
                                         sp_description := description;
                                         sp_keywords := keywords |} in
           if Qltb s threshold then []
           else [{| c_source := url; score := s; provider := provider_skill_pool;
                    c_reason := js "Matched AlataChan/skill-pool index";
                    c_skillName := name; c_description := description;
                    repoFullName := None; repoStars := None;
                    repoDefaultBranch := None; c_subdir := None |}])
      entries in
  firstn (Nat.max 1 limit)
    (stable_sort (fun a b => Qle_bool (score b) (score a)) scored).

(** [fetchJsonWithTimeout]: the answer and the request that was sent. *)
Definition fetchJsonWithTimeout (url : Endpoint) (token : option jsstring) (timeoutMs : Z)
    : (jsstring + JsonDoc) :=
  let bearer := match token with
                | Some t => if truthy (trim t) then Some (trim t) else None
                | None => None
                end in
  match fetch W url bearer (Z.max 1000 timeoutMs) with
  | FetchThrew err => inl err
  | HttpFailure statusLine body =>
      inl (js "HTTP " ++ statusLine ++ js ": " ++ firstn 200 body)
  | HttpOk (Thrown err) => inl err
  | HttpOk (Returned doc) => inr doc
  end.

Definition buildGitHubRepoSearchQuery (prompt : jsstring) : jsstring :=
  trim (join [space] (pickQueryTokens U prompt 6 ++ [js "SKILL.md"; js "in:readme"])).

Definition collectSkillDirs (rootDir : path) : M (list path) :=
  fun fs => (Returned (collect DISCOVERY_IGNORED_NAMES fs rootDir), fs).

Definition buildTreeUrl (fullName branch : jsstring) (sub : option jsstring) : jsstring :=
  let base := js "https://github.com/" ++ fullName ++ js "/tree/" ++ branch in
  let sub' := match sub with
              | Some d => drop_while (fun c => (c =? slash)%N) (trim d)
              | None => []
              end in
  if negb (truthy sub') then base else base ++ [slash] ++ sub'.

(** The best candidate among the manifest directories of a cloned
    repository. *)
Fixpoint bestCandidate (prompt fullName branch : jsstring) (stars : option Q)
    (threshold : Q) (repoDir : path) (dirs : list path)
    (best : option SkillsDiscoverCandidate) : M (option SkillsDiscoverCandidate) :=
  match dirs with
  | [] => ret best
  | dir :: rest =>
      read <- attempt (readFile (path_join dir SKILL_MD)) ;;
      match read with
      | Thrown _ => bestCandidate prompt fullName branch stars threshold repoDir rest best
      | Returned content =>
          let fm := parseFrontmatter E content in
          let name := match fm with
                      | Returned f => match fm_name f with
                                      | Some n => if truthy (trim n) then Some (trim n) else None
                                      | None => None
                                      end
                      | Thrown _ => None
                      end in
          let description :=
            match fm with
            | Returned f => match fm_description f with
                            | Some n => if truthy (trim n) then Some (trim n) else None
                            | None => None
                            end
            | Thrown _ => None
            end in
          let rel := join [slash] (skipn (length repoDir) dir) in
          let s := scoreSkillMatch U {| sp_prompt := prompt; sp_name := name;
                                        sp_description := description;
                                        sp_keywords := None |} in
          if Qltb s threshold
          then bestCandidate prompt fullName branch stars threshold repoDir rest best
          else
            let sub := if str_eqb rel (js ".") then None else Some rel in
            let candidate :=
              {| c_source := buildTreeUrl fullName branch sub; score := s;
                 provider := provider_github;
                 c_reason := js "Matched GitHub repo search (sorted by stars)";
                 c_skillName := name; c_description := description;
                 repoFullName := Some fullName; repoStars := stars;
                 repoDefaultBranch := Some branch; c_subdir := sub |} in
            bestCandidate prompt fullName branch stars threshold repoDir rest
              (match best with
               | Some b => if Qltb (score b) (score candidate) then Some candidate else best
               | None => Some candidate
               end)
      end
  end.

(** What the [try] block of the loop over repositories ends with. *)
Inductive RepoScan :=
| NextRepo (warning : list jsstring)
| Found (best : SkillsDiscoverCandidate).

Definition scanRepo (prompt : jsstring) (timeoutMs : Z) (threshold : Q)
    (fullName cloneUrl branch : jsstring) (stars : option Q) (repoDir : path)
    : M RepoScan :=
  clone <- runCommandWithTimeout E
             (map js ["git"; "clone"; "--depth"; "1"; "--branch"]%string
              ++ [branch; cloneUrl; path_str repoDir]) None timeoutMs ;;
  failed <-
    (if code_nonzero clone then
       fallback <- runCommandWithTimeout E
                     (map js ["git"; "clone"; "--depth"; "1"]%string
                      ++ [cloneUrl; path_str repoDir]) None timeoutMs ;;
       if code_nonzero fallback then
         ret (Some (js "git clone failed for " ++ fullName ++ js ": "
                    ++ or_else (trim (stderr fallback))
                         (or_else (trim (stdout fallback))
                            (js "exit " ++ match code fallback with
                                           | Some c => decimalZ c
                                           | None => js "null"
                                           end))))
       else ret None
     else ret None) ;;
  match failed with
  | Some warning => ret (NextRepo [warning])
  | None =>
      skillDirs <- collectSkillDirs repoDir ;;
      if length skillDirs =? 0 then ret (NextRepo [])
      else
        best <- bestCandidate prompt fullName branch stars threshold repoDir skillDirs None ;;
        match best with
        | Some b => ret (Found b)
        | None => ret (NextRepo [])
        end
  end.

Fixpoint scanRepos (prompt : jsstring) (timeoutMs : Z) (threshold : Q)
    (repos : list RepoItem) (warnings : list jsstring)
    : M (list SkillsDiscoverCandidate * list jsstring) :=
  match repos with
  | [] => ret ([], warnings)
  | repo :: rest =>
      let fullName := match full_name repo with Some s => trim s | None => [] end in
      let cloneUrl := match clone_url repo with Some s => trim s | None => [] end in
      let branch := match default_branch repo with Some s => trim s | None => js "main" end in
      if negb (truthy fullName) || negb (truthy cloneUrl)
      then scanRepos prompt timeoutMs threshold rest warnings
      else
        tmpDir <- mkdtemp E (tmpdir E) (js "openclaw-skill-discover-") ;;
        let repoDir := tmpDir ++ [js "repo"] in
        r <- try_finally
               (try_catch
                  (scanRepo prompt timeoutMs threshold fullName cloneUrl branch
                     (stargazers_count repo) repoDir)
                  (fun err => ret (NextRepo [js "GitHub discovery failed for " ++ fullName
                                             ++ js ": " ++ err])))
               (rm tmpDir) ;;
        match r with
        | Found b => ret ([b], warnings)
        | NextRepo w => scanRepos prompt timeoutMs threshold rest (warnings ++ w)
        end
  end.

Definition discoverFromGitHub (prompt : jsstring) (limit : nat) (token : option jsstring)
    (timeoutMs : Z) (threshold : Q)
    : M (list SkillsDiscoverCandidate * list jsstring * list Endpoint) :=
  let query := buildGitHubRepoSearchQuery prompt in
  let url := RepoSearch query (js "stars") (js "desc") (Nat.max 1 (Nat.min 10 limit)) in
  match fetchJsonWithTimeout url token timeoutMs with
  | inl err => ret ([], [js "GitHub repo search failed: " ++ err], [url])
  | inr data =>
      let repos := match items (asSearch data) with Some l => l | None => [] end in
      if length repos =? 0 then ret ([], [], [url])
      else
        r <- scanRepos prompt timeoutMs threshold repos [] ;;
        ret (fst r, snd r, [url])
  end.

Definition no_result (msg : jsstring) (warnings : list jsstring) : SkillsDiscoverResult :=
  {| d_ok := false; d_message := msg; candidates := []; d_warnings := warnings |}.

Definition found_result (n : list SkillsDiscoverCandidate) (via : jsstring)
    (warnings : list jsstring) : SkillsDiscoverResult :=
  {| d_ok := true;
     d_message := js "Found " ++ decimal (length n) ++ js " candidate(s) via " ++ via;
     candidates := n; d_warnings := warnings |}.

Definition mode_text (m : SkillsDiscoverMode) : jsstring :=
  match m with
  | auto => js "auto"
  | skill_pool => js "skill-pool"
  | github => js "github"
  | other_mode t => t
  end.

(** The second stage of [discoverSkills]: the code-search API. *)
Definition viaGitHub (params : SkillsDiscoverRequest) (prompt' : jsstring) (limit' : nat)
    (timeout : Z) (warnings : list jsstring) (fetched : list Endpoint)
    : M (SkillsDiscoverResult * list Endpoint) :=
  let token :=
    match githubToken params with
    | Some t => if truthy (trim t) then Some (trim t)
                else match GITHUB_TOKEN W with
                     | Some g => if truthy g then Some g else GH_TOKEN W
                     | None => GH_TOKEN W
                     end
    | None => match GITHUB_TOKEN W with
              | Some g => if truthy g then Some g else GH_TOKEN W
              | None => GH_TOKEN W
              end
    end in
  gh <- discoverFromGitHub prompt' limit' token timeout thresholdGitHub ;;
  let warnings' := warnings ++ snd (fst gh) in
  let found := fst (fst gh) in
  if 0 <? length found
  then ret (found_result found (js "GitHub") warnings', fetched ++ snd gh)
  else ret (no_result (js "No candidates found via GitHub") warnings', fetched ++ snd gh).

(** [discoverSkills]: the result and the addresses that were fetched, in
    order. *)
Definition discoverSkills (params : SkillsDiscoverRequest)
    : M (SkillsDiscoverResult * list Endpoint) :=
  let prompt' := trim (prompt params) in
  if negb (truthy prompt') then ret (no_result (js "prompt is required") [], [])
  else
    let limit' := match limit params with
                  | Some l => Z.to_nat (Z.max 1 (Z.min 10 (Qfloor l)))
                  | None => 5
                  end in
    let mode' := match mode params with Some m => m | None => auto end in
    let timeout := match d_timeoutMs params with
                   | Some t => Z.max 1000 (Qfloor t)
                   | None => DEFAULT_TIMEOUT_MS
                   end in
    serializeByKey (js "skillsDiscover:" ++ mode_text mode' ++ [58%N] ++ prompt')
    match mode' with
    | auto | skill_pool =>
        let idx := fetchJsonWithTimeout SKILL_POOL_INDEX_URL None timeout in
        let ranked := match idx with
                      | inr doc => rankSkillPoolIndex prompt' (asIndex doc) limit'
                                     thresholdSkillPool
                      | inl _ => []
                      end in
        let warnings := match idx with
                        | inr _ => []
                        | inl err => [js "skill-pool index fetch failed: " ++ err]
                        end in
        if 0 <? length ranked
        then ret (found_result ranked (js "skill-pool") warnings, [SKILL_POOL_INDEX_URL])
        else match mode' with
             | skill_pool =>
                 ret (no_result (js "No candidates found via skill-pool") warnings,
                      [SKILL_POOL_INDEX_URL])
             | _ => viaGitHub params prompt' limit' timeout warnings [SKILL_POOL_INDEX_URL]
             end
    | github => viaGitHub params prompt' limit' timeout [] []
    | other_mode t => ret (no_result (js "Unknown mode: " ++ t) [], [])
    end.

End Engine.

End SkillsDiscover.

(** ** The gateway methods [skills.bins], [skills.discover], [skills.add],
    [skills.install] and [skills.update]
    (src/gateway/server-methods/skills.ts) *)

Module GatewayBins.

(** The fields of a skill entry that [collectSkillBins] reads: the
    [metadata] of the entry, which the validation engine does not look at. *)
Record SkillInstallSpec := {
  specBins : option (list jsstring)
}.

Record Requires := {
  requiredBins : option (list jsstring);
  requiredAnyBins : option (list jsstring)
}.

Record OpenClawSkillMetadata := {
  requires : option Requires;
  (** an item is [None] when it is [null] or [undefined] *)
  install : option (list (option SkillInstallSpec))
}.

Record SkillEntry := {
  metadata : option OpenClawSkillMetadata
}.

(** [x ?? []]. *)
Definition or_nil {A} (o : option (list A)) : list A :=
  match o with Some l => l | None => [] end.

(** [const trimmed = bin.trim(); if (trimmed) bins.add(trimmed)]. *)
Definition add_trimmed (bins : list jsstring) (bin : jsstring) : list jsstring :=
  let trimmed := trim bin in
  if truthy trimmed then set_add trimmed bins else bins.

(** The body of the loop of [collectSkillBins] over the entries. *)
Definition collectEntry (bins : list jsstring) (entry : SkillEntry) : list jsstring :=
  let required :=
    or_nil (match metadata entry with
            | Some m => match requires m with Some r => requiredBins r | None => None end
            | None => None
            end) in
  let anyBins :=
    or_nil (match metadata entry with
            | Some m => match requires m with Some r => requiredAnyBins r | None => None end
            | None => None
            end) in
  let install :=
    or_nil (match metadata entry with Some m => install m | None => None end) in
  let bins1 := fold_left add_trimmed required bins in
  let bins2 := fold_left add_trimmed anyBins bins1 in
  fold_left
    (fun acc spec =>
       let specBins := or_nil (match spec with Some s => specBins s | None => None end) in
       fold_left add_trimmed specBins acc)
    install bins2.

Definition collectSkillBins (entries : list SkillEntry) : list jsstring :=
  stable_sort str_leb (fold_left collectEntry entries []).

Section Handler.
Variable Config : Type.

Record BinsHost := {
  loadConfig : node -> Config;
  (** [cfg.agents?.list] when it is an array; an item is the [id] of the
      entry when the entry is an object whose [id] is a string *)
  agentsList : Config -> option (list (option jsstring));
  resolveAgentWorkspaceDir : Config -> jsstring -> jsstring;
  resolveDefaultAgentId : Config -> jsstring;
  loadWorkspaceSkillEntries : node -> jsstring -> Config -> list SkillEntry
}.

Variable G : BinsHost.

Definition listWorkspaceDirs (cfg : Config) : list jsstring :=
  let dirs :=
    fold_left
      (fun dirs entry =>
         match entry with
         | Some id => set_add (resolveAgentWorkspaceDir G cfg id) dirs
         | None => dirs
         end)
      (or_nil (agentsList G cfg)) [] in
  set_add (resolveAgentWorkspaceDir G cfg (resolveDefaultAgentId G cfg)) dirs.

(** The handler of [skills.bins] on parameters that passed
    [validateSkillsBinsParams]: the [bins] of the payload it responds. *)
Definition skills_bins : M (list jsstring) :=
  fun fs =>
    let cfg := loadConfig G fs in
    let workspaceDirs := listWorkspaceDirs cfg in
    let bins :=
      fold_left
        (fun bins workspaceDir =>
           let entries := loadWorkspaceSkillEntries G fs workspaceDir cfg in
           fold_left (fun acc bin => set_add bin acc) (collectSkillBins entries) bins)
        workspaceDirs [] in
    (Returned (stable_sort str_leb bins), fs).

End Handler.

End GatewayBins.

Module GatewayAdd.

Import SkillsImport SkillsValidate SkillsDiscover Gateway.
Local Open Scope eff_scope.

Record AddParams := {
  a_prompt : jsstring;
  a_target : option SkillsImportTarget;
  a_overwrite : option bool;
  a_autoInstall : option bool;
  a_mode : option SkillsDiscoverMode;
  a_githubToken : option jsstring;
  a_timeoutMs : option Q
}.

Record DiscoverParams := {
  dp_prompt : jsstring;
  dp_limit : option Q;
  dp_mode : option SkillsDiscoverMode;
  dp_githubToken : option jsstring;
  dp_timeoutMs : option Q
}.

(** What [skills.add] responds with. *)
Inductive AddPayload :=
| NotDiscovered (discovered : SkillsDiscoverResult)
| Added (candidate : SkillsDiscoverCandidate) (import : SkillsImportResult)
        (validation : option SkillsValidationReport)
        (autoInstall : option (nat * list AutoInstallResult))
        (discoveryMessage : jsstring) (discoveryWarnings : list jsstring).

Record AddResponse := {
  addOk : bool;
  addPayload : AddPayload;
  addError : option (ErrorCode * jsstring)
}.

Record DiscoverResponse := {
  discoverOk : bool;
  discoverPayload : SkillsDiscoverResult;
  discoverError : option (ErrorCode * jsstring)
}.

Record InstallParams := {
  ip_name : jsstring;
  ip_installId : jsstring;
  ip_timeoutMs : option Q
}.

Record InstallResponse := {
  installOk : bool;
  installPayload : InstallResult;
  installError : option (ErrorCode * jsstring)
}.

Section Handlers.
Variables Config Eligibility : Type.
Variable U : UnicodeData.
Variable E : Env.
Variable W : Net.
Variable H : Host Config Eligibility.
Variable G : GatewayHost Config Eligibility.

(** The handler of [skills.discover] on parameters that passed
    [validateSkillsDiscoverParams]. *)
Definition skills_discover (p : DiscoverParams) : M DiscoverResponse :=
  found <- discoverSkills U E W
             {| prompt := dp_prompt p; limit := dp_limit p; mode := dp_mode p;
                githubToken := dp_githubToken p; d_timeoutMs := dp_timeoutMs p |} ;;
  let result := fst found in
  ret {| discoverOk := d_ok result;
         discoverPayload := result;
         discoverError := if d_ok result then None
                          else Some (UNAVAILABLE, d_message result) |}.

Definition addRequest (p : AddParams) (candidate : SkillsDiscoverCandidate)
    (workspaceDirRaw : jsstring) : SkillsImportRequest :=
  {| source := c_source candidate;
     target := match a_target p with Some t => t | None => workspace end;
     workspaceDir := Some workspaceDirRaw;
     managedSkillsDir := None;
     ref := None;
     subdir := None;
     overwrite := a_overwrite p;
     timeoutMs := a_timeoutMs p |}.

(** The handler of [skills.add] on parameters that passed
    [validateSkillsAddParams]; it yields what it hands to [respond] and the
    calls it made after the discovery. *)
Definition skills_add (p : AddParams) : M (AddResponse * list Call) :=
  found <- discoverSkills U E W
             {| prompt := a_prompt p; limit := Some (5 # 1)%Q; mode := a_mode p;
                githubToken := a_githubToken p; d_timeoutMs := a_timeoutMs p |} ;;
  let discovered := fst found in
  match candidates discovered with
  | [] =>
      ret ({| addOk := false; addPayload := NotDiscovered discovered;
              addError := Some (UNAVAILABLE, d_message discovered) |}, [])
  | candidate :: _ =>
      if negb (d_ok discovered) then
        ret ({| addOk := false; addPayload := NotDiscovered discovered;
                addError := Some (UNAVAILABLE, d_message discovered) |}, [])
      else
        fun fs0 =>
          let cfg := loadConfig G fs0 in
          let workspaceDirRaw := resolveWorkspaceDir G cfg in
          let request := addRequest p candidate workspaceDirRaw in
          (imported <- importSkills E request ;;
           fun fs1 =>
             let eligibility := getRemoteSkillEligibility G fs1 in
             let validate :=
               validateImportedSkills H workspaceDirRaw (SkillsImport.imported imported)
                 (Some cfg) (Some eligibility) in
             (first <- (if ok imported
                        then v <- validate ;;
                             ret (Some v,
                                  [CallValidate workspaceDirRaw
                                     (SkillsImport.imported imported)])
                        else ret (None, [])) ;;
              second <-
                match fst first, a_autoInstall p with
                | Some validation, Some true =>
                    if ok imported then
                      done <- autoInstallAll G workspaceDirRaw (a_timeoutMs p) cfg
                                (v_skills validation) ;;
                      v <- validate ;;
                      ret (Some v, fst done,
                           snd done ++ [CallValidate workspaceDirRaw
                                          (SkillsImport.imported imported)])
                    else ret (fst first, [], [])
                | _, _ => ret (fst first, [], [])
                end ;;
              let validation := fst (fst second) in
              let autoInstallResults := snd (fst second) in
              ret ({| addOk := ok imported;
                      addPayload :=
                        Added candidate imported validation
                          (if 0 <? length autoInstallResults
                           then Some (length autoInstallResults, autoInstallResults)
                           else None)
                          (d_message discovered) (d_warnings discovered);
                      addError := if ok imported then None
                                  else Some (UNAVAILABLE, message imported) |},
                   [CallImport request] ++ snd first ++ snd second
                   ++ (if ok imported then [CallBump] else []))) fs1) fs0
  end.

(** The handler of [skills.install] on parameters that passed
    [validateSkillsInstallParams]. *)
Definition skills_install (p : InstallParams) : M (InstallResponse * list Call) :=
  fun fs0 =>
    let cfg := loadConfig G fs0 in
    let workspaceDirRaw := resolveWorkspaceDir G cfg in
    (result <- installSkill G workspaceDirRaw (ip_name p) (ip_installId p)
                 (ip_timeoutMs p) cfg ;;
     ret ({| installOk := i_ok result;
             installPayload := result;
             installError := if i_ok result then None
                             else Some (UNAVAILABLE, i_message result) |},
          CallInstall (ip_name p) (ip_installId p)
          :: (if i_ok result then [CallBump] else []))) fs0.

End Handlers.

End GatewayAdd.

Module GatewayUpdate.

(** A plain JavaScript object as the list of its own enumerable
    properties.  Reading looks at own properties only: the inherited ones
    of [Object.prototype] are functions or the prototype itself, and
    spreading any of them gives the empty object, as for a missing key. *)
Section Objects.
Variable V : Type.

Definition object := list (jsstring * V).

Fixpoint obj_get (key : jsstring) (o : object) : option V :=
  match o with
  | [] => None
  | (k, v) :: rest => if str_eqb k key then Some v else obj_get key rest
  end.

Fixpoint obj_replace (key : jsstring) (value : V) (o : object) : object :=
  match o with
  | [] => []
  | (k, v) :: rest =>
      if str_eqb k key then (k, value) :: rest else (k, v) :: obj_replace key value rest
  end.

Definition PROTO : jsstring := js "__proto__".

(** [o[key] = value]: an own property is updated where it is, a new one
    comes last; assigning to [__proto__] creates no own property. *)
Definition obj_set (key : jsstring) (value : V) (o : object) : object :=
  match obj_get key o with
  | Some _ => obj_replace key value o
  | None => if str_eqb key PROTO then o else o ++ [(key, value)]
  end.

(** [delete o[key]]. *)
Definition obj_delete (key : jsstring) (o : object) : object :=
  filter (fun kv => negb (str_eqb (fst kv) key)) o.

End Objects.

Section Handler.
(** The values of the configuration that the handler copies without
    looking at them. *)
Variable Json : Type.

(** An entry of [cfg.skills.entries]. *)
Record SkillConfig := {
  enabled : option bool;
  apiKey : option jsstring;
  env : option (object jsstring);
  entryRest : object Json
}.

Record SkillsConfig := {
  entries : option (object SkillConfig);
  skillsRest : object Json
}.

Record OpenClawConfig := {
  skills : option SkillsConfig;
  configRest : object Json
}.

Record UpdateParams := {
  skillKey : jsstring;
  u_enabled : option bool;
  u_apiKey : option jsstring;
  (** [Object.entries(p.env)] *)
  u_env : option (list (jsstring * jsstring))
}.

Definition emptyEntry : SkillConfig :=
  {| enabled := None; apiKey := None; env := None; entryRest := [] |}.

(** The body of the loop over [Object.entries(p.env)]. *)
Definition mergeEnv (nextEnv : object jsstring) (kv : jsstring * jsstring)
    : object jsstring :=
  let trimmedKey := trim (fst kv) in
  if negb (truthy trimmedKey) then nextEnv
  else
    let trimmedVal := trim (snd kv) in
    if negb (truthy trimmedVal) then obj_delete trimmedKey nextEnv
    else obj_set trimmedKey trimmedVal nextEnv.

(** The entry [current] that the handler builds and responds with. *)
Definition updatedEntry (cfg : OpenClawConfig) (p : UpdateParams) : SkillConfig :=
  let entries0 := match skills cfg with
                  | Some s => match entries s with Some e => e | None => [] end
                  | None => []
                  end in
  let current := match obj_get (skillKey p) entries0 with
                 | Some c => c
                 | None => emptyEntry
                 end in
  let current1 :=
    match u_enabled p with
    | Some b => {| enabled := Some b; apiKey := apiKey current; env := env current;
                   entryRest := entryRest current |}
    | None => current
    end in
  let current2 :=
    match u_apiKey p with
    | Some raw =>
        let trimmed := trim raw in
        {| enabled := enabled current1;
           apiKey := if truthy trimmed then Some trimmed else None;
           env := env current1;
           entryRest := entryRest current1 |}
    | None => current1
    end in
  match u_env p with
  | Some given =>
      let nextEnv := match env current2 with Some e => e | None => [] end in
      {| enabled := enabled current2; apiKey := apiKey current2;
         env := Some (fold_left mergeEnv given nextEnv);
         entryRest := entryRest current2 |}
  | None => current2
  end.

(** [nextConfig], which the handler writes. *)
Definition updatedConfig (cfg : OpenClawConfig) (p : UpdateParams) : OpenClawConfig :=
  let skills0 := match skills cfg with
                 | Some s => s
                 | None => {| entries := None; skillsRest := [] |}
                 end in
  let entries0 := match entries skills0 with Some e => e | None => [] end in
  {| skills := Some {| entries := Some (obj_set (skillKey p) (updatedEntry cfg p) entries0);
                       skillsRest := skillsRest skills0 |};
     configRest := configRest cfg |}.

(** What the handler does to its collaborators, in order. *)
Inductive UpdateCall :=
| CallWriteConfigFile (nextConfig : OpenClawConfig)
| CallBumpSnapshot.

Record UpdateResponse := {
  updateOk : bool;
  updateSkillKey : jsstring;
  updateConfig : SkillConfig
}.

(** [writeConfigFile] of config/config.js; it may throw. *)
Variable writeConfigFile : OpenClawConfig -> outcome unit.

(** The handler of [skills.update] on parameters that passed
    [validateSkillsUpdateParams], from the configuration that [loadConfig]
    returns: what it responds, or the exception that leaves it, and the
    calls it made. *)
Definition skills_update (cfg : OpenClawConfig) (p : UpdateParams)
    : outcome UpdateResponse * list UpdateCall :=
  let nextConfig := updatedConfig cfg p in
  match writeConfigFile nextConfig with
  | Thrown err => (Thrown err, [CallWriteConfigFile nextConfig])
  | Returned _ =>
      (Returned {| updateOk := true; updateSkillKey := skillKey p;
                   updateConfig := updatedEntry cfg p |},
       [CallWriteConfigFile nextConfig; CallBumpSnapshot])
  end.

End Handler.

End GatewayUpdate.

(** ** The Dify-compatible endpoint: session keys and chunks
    (the second part of src/gateway/server-methods/skills.ts) *)

Module DifyCompat.

Definition VALID_PLATFORMS : list jsstring :=
  map js ["wechatcom"; "feishu"; "dingtalk"; "wechatmp"]%string.

(** [s.indexOf(c)] for a character of the basic plane; [None] is -1.  The
    index counts UTF-16 code units. *)
Fixpoint indexOf (c : N) (s : jsstring) : option nat :=
  match s with
  | [] => None
  | x :: s' =>
      if (x =? c)%N then Some 0
      else match indexOf c s' with
           | Some i => Some (units x + i)
           | None => None
           end
  end.

(** [s.substring(0, n)] where [n] is the index of a character of [s]. *)
Fixpoint substring0 (n : nat) (s : jsstring) : jsstring :=
  match s with
  | [] => []
  | x :: s' => if n <? units x then [] else x :: substring0 (n - units x) s'
  end.

Definition colon : N := 58.

Definition buildSessionKey (user : jsstring) : jsstring :=
  match indexOf colon user with
  | Some colonIndex =>
      if 0 <? colonIndex then
        let potentialPlatform := substring0 colonIndex user in
        if mem potentialPlatform VALID_PLATFORMS then js "sga:" ++ user
        else js "sga:" ++ user
      else js "sga:" ++ user
  | None => js "sga:" ++ user
  end.

(** The loop of [chunkText] over a text given by its UTF-16 code units,
    from the index [i]; [None] when the fuel does not suffice. *)
Fixpoint chunkLoop (fuel : nat) (text : list N) (chunkSize i : nat)
    : option (list (list N)) :=
  if length text <=? i then Some []
  else match fuel with
       | O => None
       | S fuel' =>
           match chunkLoop fuel' text chunkSize (i + chunkSize) with
           | Some chunks => Some (firstn chunkSize (skipn i text) :: chunks)
           | None => None
           end
       end.

(** [chunkText(text, chunkSize)] for a chunk size that is a natural
    number. *)
Definition chunkText (fuel : nat) (text : list N) (chunkSize : nat)
    : option (list (list N)) :=
  match chunkLoop fuel text chunkSize 0 with
  | Some [] => Some [[]]
  | Some chunks => Some chunks
  | None => None
  end.

End DifyCompat.

(** ** A concrete host, to run the model *)

Module Sample.

Import SkillsImport.

(** A frontmatter parser for manifests of the form [name: value]: the name
    is what follows the prefix on the first line. *)
Definition sampleFrontmatter (content : jsstring) : outcome Frontmatter :=
  if starts_with (js "name:") content
  then Returned {| fm_name := Some (hd [] (split_on 10 (skipn 5 content) []));
                   fm_description := None; fm_metadata := None |}
  else Returned {| fm_name := None; fm_description := None; fm_metadata := None |}.

(** A host without network: every command exits with status 128. *)
Definition sampleEnv : Env :=
  {| resolveUserPath := fun s => path_join [] s;
     CONFIG_DIR := [js "home"; js ".openclaw"];
     tmpdir := [js "tmp"];
     parseFrontmatter := sampleFrontmatter;
     parseUrl := fun _ => None;
     mkdtemp := fun dir prefix fs =>
                  match mkdirp fs (dir ++ [prefix ++ js "000000"]) with
                  | Some fs' => (Returned (dir ++ [prefix ++ js "000000"]), fs')
                  | None => (Thrown ENOTDIR, fs)
                  end;
     runCommandWithTimeout := fun _ _ _ fs =>
       (Returned {| stdout := []; stderr := js "fatal: unable to access"; code := Some 128%Z |},
        fs) |}.

Definition dir (es : list (string * node)) : node :=
  Dir true (map (fun e => (js (fst e), snd e)) es).

Definition file (content : string) : node := File true (js content).

Definition request (src : string) : SkillsImportRequest :=
  {| source := js src; target := workspace; workspaceDir := Some (js "/ws");
     managedSkillsDir := None; ref := None; subdir := None; overwrite := None;
     timeoutMs := None |}.

(** One skill with a vendored dependency that has a manifest of its own. *)
Definition disk1 : node :=
  dir [("src", dir [("my-skill",
                     dir [("SKILL.md", file "name: My Skill");
                          ("README.md", file "hello");
                          ("node_modules", dir [("dep", dir [("SKILL.md", file "name: dep")])])])]);
       ("ws", dir [])]%string.



(** Three skills whose names are [a], [a-3] and [a] in scan order. *)
Definition disk3 : node :=
  dir [("src", dir [("x", dir [("SKILL.md", file "name: a")]);
                    ("y", dir [("SKILL.md", file "name: a-3")]);
                    ("z", dir [("SKILL.md", file "name: a")])]);
       ("ws", dir [])]%string.

(** A skill inside a skill. *)
Definition nested : node :=
  dir [("a", dir [("SKILL.md", file "name: outer");
                  ("sub", dir [("SKILL.md", file "name: inner")])]);
       ("b", dir [("SKILL.md", file "name: sibling")])]%string.

(** Candidates for the scoring function. *)
Definition candidate (prompt name description : string) (keywords : list string)
    : Discover.ScoreParams :=
  {| Discover.sp_prompt := js prompt;
     Discover.sp_name := Some (js name);
     Discover.sp_description := Some (js description);
     Discover.sp_keywords := Some (map js keywords) |}.

(** A prompt made of a stop word only, against its own name and against
    the unrelated skill of the test suite. *)
Definition helpExact : Discover.ScoreParams :=
  candidate "help" "help" "" [].

Definition helpUnrelated : Discover.ScoreParams :=
  candidate "help" "git-pushing" "Helps you push git branches safely" ["git"; "push"]%string.

Definition invoicesExact : Discover.ScoreParams :=
  candidate "organize invoices" "organize invoices" "" [].

Definition invoicesUnrelated : Discover.ScoreParams :=
  candidate "organize invoices" "git-pushing" "Helps you push git branches safely"
    ["git"; "push"]%string.

(** A prompt and the skill named after it. *)
Definition invoiceOrganizer : Discover.ScoreParams :=
  candidate "invoice organizer" "invoice-organizer" "" [].

Definition blankPrompt : SkillsDiscover.SkillsDiscoverRequest :=
  {| SkillsDiscover.prompt := [32; 9; 10; 32]%N;
     SkillsDiscover.limit := None;
     SkillsDiscover.mode := None;
     SkillsDiscover.githubToken := None;
     SkillsDiscover.d_timeoutMs := None |}.

(** A network that always fails. *)
Definition offline : SkillsDiscover.Net :=
  {| SkillsDiscover.fetch := fun _ _ _ => SkillsDiscover.FetchThrew (js "TypeError: fetch failed");
     SkillsDiscover.GITHUB_TOKEN := None;
     SkillsDiscover.GH_TOKEN := None |}.

(** A host that has loaded the imported skill and reports the given
    status for it. *)
Definition installedManifest : jsstring := js "/ws/skills/My-Skill/SKILL.md".

Definition hostReporting (st : SkillsValidate.SkillStatusEntry)
    : SkillsValidate.Host unit unit :=
  {| SkillsValidate.cwd := [];
     SkillsValidate.h_parseFrontmatter := sampleFrontmatter;
     SkillsValidate.json5_parse := fun _ => Thrown (js "SyntaxError: JSON5: invalid character");
     SkillsValidate.MANIFEST_KEY := js "openclaw";
     SkillsValidate.LEGACY_MANIFEST_KEYS := [js "clawdbot"];
     SkillsValidate.loadWorkspaceSkillEntries := fun _ _ _ =>
       [{| SkillsValidate.skill :=
             {| SkillsValidate.skillName := js "My Skill";
                SkillsValidate.filePath := installedManifest;
                SkillsValidate.skillSource := js "openclaw-workspace";
                SkillsValidate.skillDescription := Some (js "A skill") |} |}];
     SkillsValidate.buildWorkspaceSkillStatus := fun _ _ _ _ =>
       {| SkillsValidate.reportSkills := [st] |};
     SkillsValidate.loadSkillsFromDir := fun _ _ _ => SkillsValidate.PiArray [] |}.

Definition statusOf (isEligible : bool) (missingBins missingEnv : list string)
    (installers : list string) : SkillsValidate.SkillStatusEntry :=
  {| SkillsValidate.statusName := js "My Skill";
     SkillsValidate.statusFilePath := installedManifest;
     SkillsValidate.eligible := isEligible;
     SkillsValidate.missing :=
       {| SkillsValidate.bins := map js missingBins;
          SkillsValidate.anyBins := [];
          SkillsValidate.env := map js missingEnv;
          SkillsValidate.config := [];
          SkillsValidate.os := [] |};
     SkillsValidate.install :=
       map (fun i => {| SkillsValidate.installId := js i |}) installers |}.

(** The skill is usable as it is. *)
Definition readyStatus : SkillsValidate.SkillStatusEntry :=
  statusOf true [] [] [].

(** The skill misses a binary and an environment variable and declares two
    installers. *)
Definition needsJqAndKey : SkillsValidate.SkillStatusEntry :=
  statusOf false ["jq"]%string ["API_KEY"]%string ["brew"; "apt"]%string.

Definition sampleGateway : Gateway.GatewayHost unit unit :=
  {| Gateway.loadConfig := fun _ => tt;
     Gateway.resolveWorkspaceDir := fun _ => js "/ws";
     Gateway.getRemoteSkillEligibility := fun _ => tt;
     Gateway.installSkill := fun _ _ _ _ _ fs =>
       (Returned {| Gateway.i_ok := true; Gateway.i_message := js "Installed";
                    Gateway.i_stdout := []; Gateway.i_stderr := [];
                    Gateway.i_code := Some 0%Z |}, fs) |}.

Definition importParams (autoInstall : bool) : Gateway.ImportParams :=
  {| Gateway.p_source := js "/src/my-skill";
     Gateway.p_target := None;
     Gateway.p_ref := None;
     Gateway.p_subdir := None;
     Gateway.p_overwrite := None;
     Gateway.p_autoInstall := Some autoInstall;
     Gateway.p_timeoutMs := None |}.

(** The entry that importing [/src/my-skill] into [/ws] yields. *)
Definition importedEntry : SkillsImportEntry :=
  {| name := Some (js "My Skill");
     sourceDir := js "/src/my-skill";
     destDir := js "/ws/skills/My-Skill";
     skillPath := installedManifest |}.

(** [disk1] after that import. *)
Definition disk1Imported : node :=
  dir [("src", dir [("my-skill",
                     dir [("SKILL.md", file "name: My Skill");
                          ("README.md", file "hello");
                          ("node_modules", dir [("dep", dir [("SKILL.md", file "name: dep")])])])]);
       ("ws", dir [("skills", dir [("My-Skill",
                                    dir [("SKILL.md", file "name: My Skill");
                                         ("README.md", file "hello")])])])]%string.

End Sample.


(** ** Vocabulary of the statements *)

Module Spec.

Import Discover.

(** A string that does not start with white space. *)
Definition clean_head (s : jsstring) : Prop :=
  match s with [] => True | c :: _ => is_space c = false end.

(** A candidate whose name is the prompt itself. *)
Definition exactNameMatch (p : ScoreParams) : Prop :=
  sp_name p = Some (sp_prompt p).

(** A candidate that shares no query token with the prompt in its name, its
    description or its keywords, and whose normalized name does not occur
    in the joined query. *)
Definition unrelated (U : UnicodeData) (p : ScoreParams) : Prop :=
  overlap (queryTokens U p) (nameTokens U p) = 0
  /\ overlap (queryTokens U p) (descTokens U p) = 0
  /\ overlap (queryTokens U p) (keywordTokens U p) = 0
  /\ bonusApplies U p = false.

(** The directories that the scanner reaches from a node at some depth and
    records, as paths relative to that node: the node itself when it is a
    readable directory holding a regular file SKILL.md, and what is reached
    in the same way through any of its subdirectories whose name is not
    ignored, matched or not, down to depth [MAX_DEPTH]. *)
Inductive Scanned (ignored : list jsstring) : node -> nat -> path -> Prop :=
| Scanned_here entries depth :
    depth <= MAX_DEPTH ->
    has_manifest entries = true ->
    Scanned ignored (Dir true entries) depth []
| Scanned_below entries depth name child rel :
    depth <= MAX_DEPTH ->
    In (name, child) entries ->
    isDirectory child = true ->
    mem name ignored = false ->
    Scanned ignored child (S depth) rel ->
    Scanned ignored (Dir true entries) depth (name :: rel).

(** The body of the loop of [walk] over the entries of a directory. *)
Definition step (ignored : list jsstring) (dir : path) (depth : nat)
    (acc : list path) (e : jsstring * node) : list path :=
  match e with
  | (name, child) =>
      if negb (isDirectory child) then acc
      else if mem name ignored then acc
      else walk ignored child (dir ++ [name]) (S depth) acc
  end.

(** What [walk] adds to the directories found so far. *)
Definition walk_spec (ignored : list jsstring) (n : node) : Prop :=
  forall dir depth found p,
    In p (walk ignored n dir depth found)
    <-> In p found \/ exists rel, p = dir ++ rel /\ Scanned ignored n depth rel.

(** [q] lies strictly below [p]. *)
Definition strict_descendant (q p : path) : Prop :=
  exists rel, rel <> [] /\ q = p ++ rel.

(** The condition under which the handler invokes an installer for a
    validation entry, and which one: the entry has a status that is not
    eligible, declares installers, misses no operating system, misses a
    binary, and the first declared installer has an identifier. *)
Definition firstInstaller (entry : SkillsValidate.SkillValidationEntry)
    (name id : jsstring) : Prop :=
  exists st first rest,
    SkillsValidate.status entry = Some st
    /\ SkillsValidate.eligible st = false
    /\ SkillsValidate.install st = first :: rest
    /\ SkillsValidate.os (SkillsValidate.missing st) = []
    /\ (SkillsValidate.bins (SkillsValidate.missing st) <> []
        \/ SkillsValidate.anyBins (SkillsValidate.missing st) <> [])
    /\ SkillsValidate.installId first = id
    /\ id <> []
    /\ SkillsValidate.statusName st = name.

(** An entry that is not eligible, declares an installer, misses no
    operating system and misses binaries only. *)
Definition missesOnlyBinaries (entry : SkillsValidate.SkillValidationEntry) : Prop :=
  exists st,
    SkillsValidate.status entry = Some st
    /\ SkillsValidate.eligible st = false
    /\ SkillsValidate.install st <> []
    /\ SkillsValidate.os (SkillsValidate.missing st) = []
    /\ (SkillsValidate.bins (SkillsValidate.missing st) <> []
        \/ SkillsValidate.anyBins (SkillsValidate.missing st) <> [])
    /\ SkillsValidate.env (SkillsValidate.missing st) = []
    /\ SkillsValidate.config (SkillsValidate.missing st) = [].

(** The installers picked for a list of entries, in order. *)
Definition installersChosen (entries : list SkillsValidate.SkillValidationEntry)
    : list (jsstring * jsstring) :=
  flat_map (fun entry => match Gateway.installerFor entry with
                         | Some x => [x]
                         | None => []
                         end) entries.

Definition installCall (x : jsstring * jsstring) : Gateway.Call :=
  Gateway.CallInstall (fst x) (snd x).

(** What one validation entry says about the skill it was made from. *)
Definition entry_sound (Config Eligibility : Type)
    (H : SkillsValidate.Host Config Eligibility) (fs : node) (entries : list SkillsValidate.SkillEntry)
    (report : SkillsValidate.SkillStatusReport)
    (v : SkillsValidate.SkillValidationEntry) : Prop :=
  (SkillsValidate.ready v = true <->
   SkillsValidate.loaded v = true /\ exists st, SkillsValidate.status v = Some st /\ SkillsValidate.eligible st = true)
  /\ (SkillsValidate.loaded v = true ->
      exists entry, In entry entries
                    /\ SkillsValidate.normalizePath H (SkillsValidate.filePath (SkillsValidate.skill entry)) = SkillsValidate.normalizePath H (SkillsValidate.v_skillPath v))
  /\ (forall st, SkillsValidate.status v = Some st ->
        In st (SkillsValidate.reportSkills report)
        /\ SkillsValidate.normalizePath H (SkillsValidate.statusFilePath st) = SkillsValidate.normalizePath H (SkillsValidate.v_skillPath v)).

(** The manifest at [p] can be read: it is a readable regular file. *)
Definition manifestRead (Config Eligibility : Type)
    (H : SkillsValidate.Host Config Eligibility) (fs : node) (p : jsstring) : Prop :=
  exists content,
    fst (Fsp.readFile (SkillsValidate.normalizePath H p) fs) = Returned content.

(** The loader of the host has an entry for the file at [p]. *)
Definition loaderHas (Config Eligibility : Type)
    (H : SkillsValidate.Host Config Eligibility)
    (entries : list SkillsValidate.SkillEntry) (p : jsstring) : Prop :=
  exists entry,
    In entry entries
    /\ SkillsValidate.normalizePath H (SkillsValidate.filePath (SkillsValidate.skill entry))
       = SkillsValidate.normalizePath H p.

(** [st] is the first status of the report that is about the file at [p]. *)
Definition firstStatusAt (Config Eligibility : Type)
    (H : SkillsValidate.Host Config Eligibility)
    (report : SkillsValidate.SkillStatusReport) (p : jsstring)
    (st : SkillsValidate.SkillStatusEntry) : Prop :=
  exists before after,
    SkillsValidate.reportSkills report = before ++ st :: after
    /\ SkillsValidate.normalizePath H (SkillsValidate.statusFilePath st)
       = SkillsValidate.normalizePath H p
    /\ Forall (fun s => SkillsValidate.normalizePath H (SkillsValidate.statusFilePath s)
                        <> SkillsValidate.normalizePath H p) before.

(** A word over letters, digits, hyphen and underscore. *)
Definition safe (s : jsstring) : Prop :=
  Forall (fun c => SkillsImport.is_safe_char c = true) s.


(** The same request with the overwrite flag set. *)
Definition withOverwrite (r : SkillsImport.SkillsImportRequest)
    : SkillsImport.SkillsImportRequest :=
  {| SkillsImport.source := SkillsImport.source r;
     SkillsImport.target := SkillsImport.target r;
     SkillsImport.workspaceDir := SkillsImport.workspaceDir r;
     SkillsImport.managedSkillsDir := SkillsImport.managedSkillsDir r;
     SkillsImport.ref := SkillsImport.ref r;
     SkillsImport.subdir := SkillsImport.subdir r;
     SkillsImport.overwrite := Some true;
     SkillsImport.timeoutMs := SkillsImport.timeoutMs r |}.


(** The destination name of the only skill of a run. *)
Definition soleDestName (E : SkillsImport.Env) (S : path) (content : jsstring) : jsstring :=
  SkillsImport.sanitizeSkillDirName
    (match SkillsImport.declared_name E content with
     | Some n => n
     | None => basename S
     end).




End Spec.

Import Spec.

(** ** More of the concrete host *)

Module SampleMore.

Import SkillsImport SkillsDiscover.

(** An index with a skill kept on the local disk, an unrelated skill and an
    entry without address. *)
Definition poolIndex : SkillPoolIndex :=
  {| skills :=
       Some [{| e_name := Some (js "git-pushing");
                e_description := Some (js "Helps you push git branches safely");
                e_url := Some (js "https://github.com/acme/skills/tree/main/git-pushing");
                e_keywords := Some [js "git"; js "push"] |};
             {| e_name := Some (js "invoice-organizer");
                e_description := Some (js "Organize invoices and receipts");
                e_url := Some (js " /src/my-skill ");
                e_keywords := Some [js "invoice"; js " pdf "] |};
             {| e_name := Some (js "invoice organizer");
                e_description := None;
                e_url := None;
                e_keywords := None |}] |}.

(** A network that serves the index and nothing else. *)
Definition poolNet : Net :=
  {| fetch := fun url _ _ =>
       match url with
       | SKILL_POOL_INDEX_URL =>
           HttpOk (Returned {| asIndex := poolIndex; asSearch := {| items := None |} |})
       | RepoSearch _ _ _ _ => FetchThrew (js "TypeError: fetch failed")
       end;
     GITHUB_TOKEN := None;
     GH_TOKEN := None |}.

Definition discoverRequest (text : string) (m : option SkillsDiscoverMode)
    : SkillsDiscoverRequest :=
  {| prompt := js text; limit := None; mode := m; githubToken := None;
     d_timeoutMs := None |}.

Definition addParams (text : string) : GatewayAdd.AddParams :=
  {| GatewayAdd.a_prompt := js text;
     GatewayAdd.a_target := None;
     GatewayAdd.a_overwrite := None;
     GatewayAdd.a_autoInstall := None;
     GatewayAdd.a_mode := None;
     GatewayAdd.a_githubToken := None;
     GatewayAdd.a_timeoutMs := None |}.

(** The parameters of [skills.import] for a source. *)
Definition importOf (src : string) (autoInstall : option bool) : Gateway.ImportParams :=
  {| Gateway.p_source := js src;
     Gateway.p_target := None;
     Gateway.p_ref := None;
     Gateway.p_subdir := None;
     Gateway.p_overwrite := None;
     Gateway.p_autoInstall := autoInstall;
     Gateway.p_timeoutMs := None |}.

(** A parser for the addresses of github.com that have neither query nor
    fragment. *)
Definition githubUrl (s : jsstring) : option Url :=
  if starts_with (js "https://github.com/") s
  then Some {| hostname := js "github.com"; pathname := skipn 18 s |}
  else None.

(** A configuration with one configured skill, and an update of it that
    clears the key, moves the region and drops the debug flag. *)
Definition weatherConfig : GatewayUpdate.OpenClawConfig unit :=
  {| GatewayUpdate.skills :=
       Some {| GatewayUpdate.entries :=
                 Some [(js "weather",
                        {| GatewayUpdate.enabled := Some true;
                           GatewayUpdate.apiKey := Some (js "old-key");
                           GatewayUpdate.env :=
                             Some [(js "REGION", js "eu"); (js "DEBUG", js "1")];
                           GatewayUpdate.entryRest := [] |})];
               GatewayUpdate.skillsRest := [] |};
     GatewayUpdate.configRest := [] |}.

Definition weatherUpdate : GatewayUpdate.UpdateParams :=
  {| GatewayUpdate.skillKey := js "weather";
     GatewayUpdate.u_enabled := None;
     GatewayUpdate.u_apiKey := Some (js "  ");
     GatewayUpdate.u_env :=
       Some [(js " REGION ", js " us "); (js "DEBUG", js " "); (js "  ", js "x")] |}.

End SampleMore.

(** ** Further vocabulary of the statements *)

Module Notions.

Import Discover SkillsImport SkillsDiscover.

(** An imported entry that lies directly in the target directory [T]: its
    destination is a child of [T] whose name is a word over letters,
    digits, hyphen and underscore, and its manifest is the SKILL.md of that
    child. *)
Definition child_entry (T : path) (e : SkillsImportEntry) : Prop :=
  exists d, safe d /\ d <> []
            /\ destDir e = path_str (T ++ [d])
            /\ skillPath e = path_str (T ++ [d; SKILL_MD]).

(** Nothing below [D] is reached through a directory with an ignored
    name. *)
Definition withoutIgnored (fs : node) (D : path) : Prop :=
  forall rel seg,
    In seg rel -> In seg IMPORT_IGNORED_NAMES -> lookup fs (D ++ rel) = None.

(** An imported entry whose destination, a child of [T], is free of
    ignored directories. *)
Definition cleanEntry (T : path) (fs : node) (e : SkillsImportEntry) : Prop :=
  exists d, destDir e = path_str (T ++ [d]) /\ withoutIgnored fs (T ++ [d]).

(** *** What the import loop does with the found directories *)

Section ImportRun.
Variable E : Env.
Variable T : path.
Variable ow : option bool.





End ImportRun.

(** [q] lies neither in [T] nor on the way to it. *)
Definition apartFrom (T q : path) : Prop :=
  is_prefix T q = false /\ is_prefix q T = false.

(** Paths in ascending order of their text, compared by UTF-16 code
    units. *)
Definition ascending (dirs : list path) : Prop :=
  StronglySorted (fun a b => str_leb (path_str a) (path_str b) = true) dirs.

(** Strings in ascending order of their UTF-16 code units. *)
Definition sortedStrings (l : list jsstring) : Prop :=
  StronglySorted (fun a b => str_leb a b = true) l.

(** Longest first, by UTF-16 length. *)
Definition longestFirst (ts : list jsstring) : Prop :=
  StronglySorted (fun a b => utf16_length b <= utf16_length a) ts.

(** The candidate [p] with the hyphens of its name written as spaces. *)
Definition spelledWithSpaces (p : ScoreParams) : ScoreParams :=
  {| sp_prompt := sp_prompt p;
     sp_name := option_map (replace_char hyphen space) (sp_name p);
     sp_description := sp_description p;
     sp_keywords := sp_keywords p |}.

(** Candidates in descending order of score. *)
Definition bestFirst (cs : list SkillsDiscoverCandidate) : Prop :=
  StronglySorted (fun a b => (score b <= score a)%Q) cs.

(** The score the ranking gives to an entry of the index. *)
Definition entryScore (U : UnicodeData) (text : jsstring) (entry : IndexEntry) : Q :=
  scoreSkillMatch U
    {| sp_prompt := text;
       sp_name := option_map trim (e_name entry);
       sp_description := option_map trim (e_description entry);
       sp_keywords := option_map (fun ks => filter truthy (map trim ks)) (e_keywords entry) |}.

(** What the GitHub stage promises of a candidate. *)
Definition fromGitHub (threshold : Q) (c : SkillsDiscoverCandidate) : Prop :=
  provider c = provider_github /\ (threshold <= score c)%Q.

(** A segment of a path in a URL: not empty and without a slash. *)
Definition plainSegment (s : jsstring) : Prop :=
  s <> [] /\ Forall (fun c => (c =? slash)%N = false) s.

(** A character that a URL parser leaves as it is in a path: an ASCII
    letter or digit, a hyphen, an underscore or a dot. *)
Definition is_url_char (c : N) : bool :=
  is_safe_char c || (c =? 46)%N.

(** A segment that a URL parser returns as written: not empty, made of such
    characters only (so nothing is percent-encoded and no [?] or [#] ends
    the path), and neither [.] nor [..], which a parser resolves. *)
Definition urlSegment (s : jsstring) : Prop :=
  s <> []
  /\ Forall (fun c => is_url_char c = true) s
  /\ s <> js "." /\ s <> js "..".

(** What is assumed of the URL parser of the host: the address of
    github.com with a path of such segments is read with that host name
    and with the path as written.  Nothing is assumed about other
    addresses, whose path a parser encodes, cuts or resolves. *)
Definition readsGitHubPath (parseUrl : jsstring -> option Url) : Prop :=
  forall parts,
    Forall urlSegment parts ->
    parseUrl (js "https://github.com" ++ path_str parts)
    = Some {| hostname := js "github.com"; pathname := path_str parts |}.

(** The request that [skills.add] hands to the discovery engine. *)
Definition addDiscovery (p : GatewayAdd.AddParams) : SkillsDiscoverRequest :=
  {| prompt := GatewayAdd.a_prompt p;
     limit := Some (5 # 1)%Q;
     mode := GatewayAdd.a_mode p;
     githubToken := GatewayAdd.a_githubToken p;
     d_timeoutMs := GatewayAdd.a_timeoutMs p |}.

(** The binaries an entry names, as written: required, any-of and those of
    its installers. *)
Definition declaredBins (entry : GatewayBins.SkillEntry) : list jsstring :=
  match GatewayBins.metadata entry with
  | Some m =>
      (match GatewayBins.requires m with
       | Some r => GatewayBins.or_nil (GatewayBins.requiredBins r)
                   ++ GatewayBins.or_nil (GatewayBins.requiredAnyBins r)
       | None => []
       end)
      ++ flat_map (fun spec => match spec with
                               | Some s => GatewayBins.or_nil (GatewayBins.specBins s)
                               | None => []
                               end) (GatewayBins.or_nil (GatewayBins.install m))
  | None => []
  end.

(** [b] is what is left of [raw] after trimming, and it is not empty. *)
Definition trimsTo (raw b : jsstring) : Prop := trim raw = b /\ b <> [].

(** What the given pairs say last about the key [k]: nothing, that it is
    deleted ([Some None]) or its new value.  A pair speaks about the key
    that is left of its own key after trimming, unless nothing is left. *)
Definition lastSetting (k : jsstring) (given : list (jsstring * jsstring))
    : option (option jsstring) :=
  fold_left
    (fun acc kv =>
       if truthy (trim (fst kv)) && str_eqb (trim (fst kv)) k
       then Some (if truthy (trim (snd kv)) then Some (trim (snd kv)) else None)
       else acc)
    given None.

(** The entries of a configuration, none when there are none. *)
Definition entriesOf (Json : Type) (cfg : GatewayUpdate.OpenClawConfig Json)
    : GatewayUpdate.object (GatewayUpdate.SkillConfig Json) :=
  match GatewayUpdate.skills cfg with
  | Some s => match GatewayUpdate.entries s with Some e => e | None => [] end
  | None => []
  end.

(** The environment of an entry, empty when it has none. *)
Definition envOf (Json : Type) (entry : option (GatewayUpdate.SkillConfig Json))
    : GatewayUpdate.object jsstring :=
  match entry with
  | Some c => match GatewayUpdate.env c with Some e => e | None => [] end
  | None => []
  end.

(** Every chunk but the last has exactly [size] code units. *)
Definition fullButLast (size : nat) (chunks : list (list N)) : Prop :=
  forall before chunk after,
    chunks = before ++ chunk :: after -> after <> [] -> length chunk = size.

End Notions.

Import Notions.

(** * Properties *)

Unset Implicit Arguments.

(** ** Strings, sets and sorting *)

Module JSFacts.

Lemma str_eqb_eq a b : str_eqb a b = true <-> a = b.
Proof.
  unfold str_eqb. destruct (list_eq_dec N.eq_dec a b); split; congruence.
Qed.

Lemma str_eqb_refl a : str_eqb a a = true.
Proof. now apply str_eqb_eq. Qed.

Lemma str_eqb_neq a b : str_eqb a b = false <-> a <> b.
Proof.
  unfold str_eqb. destruct (list_eq_dec N.eq_dec a b); split; congruence.
Qed.

Lemma mem_In x l : mem x l = true <-> In x l.
Proof.
  unfold mem. rewrite existsb_exists. split.
  - intros [y [Hy He]]. apply str_eqb_eq in He. now subst.
  - intros Hx. exists x. split; [assumption | apply str_eqb_refl].
Qed.

Lemma mem_false x l : mem x l = false <-> ~ In x l.
Proof.
  rewrite <- mem_In. destruct (mem x l); split; intros; congruence.
Qed.

Lemma In_set_add x y s : In x (set_add y s) <-> x = y \/ In x s.
Proof.
  unfold set_add. destruct (mem y s) eqn:Hm.
  - apply mem_In in Hm. split; [now right | intros [-> | Hx]; assumption].
  - rewrite in_app_iff. simpl. intuition.
Qed.

Lemma In_fold_set_add x l : forall s,
  In x (fold_left (fun s y => set_add y s) l s) <-> In x l \/ In x s.
Proof.
  induction l as [| y l IH]; intros s; simpl.
  - intuition.
  - rewrite IH, In_set_add. intuition.
Qed.

Lemma In_set_of x l : In x (set_of l) <-> In x l.
Proof.
  unfold set_of. rewrite In_fold_set_add. simpl. intuition.
Qed.

Lemma NoDup_set_add y s : NoDup s -> NoDup (set_add y s).
Proof.
  intros Hs. unfold set_add. destruct (mem y s) eqn:Hm; [assumption |].
  apply mem_false in Hm. apply NoDup_app; [assumption | repeat constructor; auto |].
  intros a Ha [<- | []]. contradiction.
Qed.

Lemma NoDup_set_of l : NoDup (set_of l).
Proof.
  unfold set_of. assert (Hnil : NoDup (@nil jsstring)) by constructor.
  revert Hnil. generalize (@nil jsstring) as s.
  induction l as [| y l IH]; intros s Hs; simpl; [assumption |].
  apply IH, NoDup_set_add, Hs.
Qed.

Lemma set_of_nil_iff l : set_of l = [] <-> l = [].
Proof.
  split; [| now intros ->].
  destruct l as [| x l]; [reflexivity |]. intros Hnil.
  assert (Hx : In x (set_of (x :: l))) by (apply In_set_of; now left).
  rewrite Hnil in Hx. destruct Hx.
Qed.

Lemma In_insert_sorted (A : Type) (le : A -> A -> bool) x y l :
  In x (insert_sorted le y l) <-> x = y \/ In x l.
Proof.
  induction l as [| z l IH]; simpl.
  - intuition.
  - destruct (le y z); simpl; [intuition | rewrite IH; intuition].
Qed.

Lemma In_stable_sort (A : Type) (le : A -> A -> bool) x l :
  In x (stable_sort le l) <-> In x l.
Proof.
  induction l as [| y l IH]; simpl; [reflexivity |].
  rewrite In_insert_sorted, IH. intuition.
Qed.

Lemma length_insert_sorted (A : Type) (le : A -> A -> bool) y l :
  length (insert_sorted le y l) = S (length l).
Proof.
  induction l as [| z l IH]; simpl; [reflexivity |].
  destruct (le y z); simpl; [reflexivity | now rewrite IH].
Qed.

Lemma length_stable_sort (A : Type) (le : A -> A -> bool) l :
  length (stable_sort le l) = length l.
Proof.
  induction l as [| y l IH]; simpl; [reflexivity |].
  now rewrite length_insert_sorted, IH.
Qed.

(** *** [trim] *)

Lemma drop_while_clean p s :
  match drop_while p s with [] => True | c :: _ => p c = false end.
Proof.
  induction s as [| c s IH]; simpl; [exact I |].
  destruct (p c) eqn:Hc; [exact IH | exact Hc].
Qed.

Lemma drop_while_fixed p s :
  match s with [] => True | c :: _ => p c = false end -> drop_while p s = s.
Proof.
  destruct s as [| c s]; simpl; [reflexivity |]. now intros ->.
Qed.

Lemma drop_while_suffix p s : exists pre, s = pre ++ drop_while p s.
Proof.
  induction s as [| c s [pre IH]]; simpl.
  - now exists [].
  - destruct (p c).
    + exists (c :: pre). simpl. now rewrite <- IH.
    + now exists [].
Qed.

Lemma drop_while_all p s : forallb p s = true -> drop_while p s = [].
Proof.
  induction s as [| c s IH]; simpl; [reflexivity |].
  intros H. apply andb_prop in H as [Hc Hs]. rewrite Hc. auto.
Qed.

(** The head of a non-empty prefix is the head of the whole. *)
Lemma clean_head_prefix a b : clean_head (a ++ b) -> clean_head a.
Proof. destruct a; simpl; auto. Qed.

Lemma trim_idempotent s : trim (trim s) = trim s.
Proof.
  unfold trim, trimEnd, trimStart.
  set (a := drop_while is_space s).
  set (b := drop_while is_space (rev a)).
  assert (Ha : clean_head a) by apply drop_while_clean.
  assert (Hb : clean_head b) by apply drop_while_clean.
  destruct (drop_while_suffix is_space (rev a)) as [pre Hpre]. fold b in Hpre.
  assert (Hrb : clean_head (rev b)).
  { apply clean_head_prefix with (b := rev pre).
    rewrite <- rev_app_distr, <- Hpre, rev_involutive. exact Ha. }
  rewrite (drop_while_fixed is_space (rev b) Hrb), rev_involutive.
  now rewrite (drop_while_fixed is_space b Hb).
Qed.

Lemma trim_blank s : forallb is_space s = true -> trim s = [].
Proof.
  intros H. unfold trim, trimStart, trimEnd.
  now rewrite (drop_while_all _ _ H).
Qed.

End JSFacts.

Import JSFacts.

(** ** Scoring and discovery *)

Module DiscoverFacts.

Import Discover.

Section Facts.
Variable U : UnicodeData.

Lemma ratio_nonneg n d : (0 <= ratio n d)%Q.
Proof.
  unfold ratio, Qdiv. apply Qmult_le_0_compat.
  - unfold Qle. simpl. lia.
  - apply Qinv_le_0_compat. unfold Qle. simpl. lia.
Qed.

Lemma ratio_zero d : (ratio 0 d == 0)%Q.
Proof. unfold ratio, Qdiv. simpl. apply Qmult_0_l. Qed.

Lemma ratio_pos n d : 0 < n -> 0 < d -> (0 < ratio n d)%Q.
Proof.
  intros Hn Hd. unfold ratio. apply Qlt_shift_div_l.
  - unfold Qlt. simpl. lia.
  - rewrite Qmult_0_l. unfold Qlt. simpl. lia.
Qed.

Lemma raw_nonneg p : (0 <= raw U p)%Q.
Proof.
  unfold raw.
  pose proof (ratio_nonneg (overlap (queryTokens U p) (nameTokens U p))
                (Nat.max 1 (length (nameTokens U p)))).
  pose proof (ratio_nonneg (overlap (queryTokens U p) (descTokens U p))
                (Nat.max 1 (length (queryTokens U p)))).
  pose proof (ratio_nonneg (overlap (queryTokens U p) (keywordTokens U p))
                (Nat.max 1 (length (queryTokens U p)))).
  lra.
Qed.

Lemma normalized_bounds p : (0 <= normalized U p <= 1)%Q.
Proof.
  unfold normalized. pose proof (raw_nonneg p) as Hr.
  split.
  - apply Q.min_glb; [| lra].
    apply Qle_shift_div_l; lra.
  - apply Q.le_min_r.
Qed.

Lemma score_bounds p : (0 <= scoreSkillMatch U p <= 1)%Q.
Proof.
  unfold scoreSkillMatch. pose proof (normalized_bounds p) as [Hlo Hhi].
  destruct (length (queryTokens U p) =? 0); [lra |].
  destruct (bonusApplies U p); [| lra].
  split; [apply Q.min_glb; lra | apply Q.le_min_l].
Qed.

(** Replacing hyphens by spaces does not change the tokens. *)
Lemma runs_replace_hyphen s : forall cur,
  runs (is_alnum U) (toLowerCase U (replace_char hyphen space s)) cur
  = runs (is_alnum U) (toLowerCase U s) cur.
Proof.
  induction s as [| c s IH]; intros cur; simpl; [reflexivity |].
  destruct (N.eqb_spec c hyphen) as [-> | Hc].
  - change (is_alnum U (lower U space)) with false.
    change (is_alnum U (lower U hyphen)) with false.
    destruct cur; now rewrite IH.
  - destruct (is_alnum U (lower U c)); [apply IH |].
    destruct cur; now rewrite IH.
Qed.

Lemma tokenize_replace_hyphen s :
  tokenize U (replace_char hyphen space s) = tokenize U s.
Proof. unfold tokenize. now rewrite runs_replace_hyphen. Qed.

Lemma In_tokenize_trim t s : In t (tokenize U s) -> trim t = t.
Proof.
  unfold tokenize. rewrite filter_In, in_map_iff.
  intros [[r [<- _]] _]. apply trim_idempotent.
Qed.

Lemma In_firstn (A : Type) (x : A) n l : In x (firstn n l) -> In x l.
Proof.
  intros Hx. rewrite <- (firstn_skipn n l). apply in_or_app. now left.
Qed.

(** Every query token is a token of the prompt. *)
Lemma pickQueryTokens_sub prompt n t :
  In t (pickQueryTokens U prompt n) -> In t (tokenize U prompt).
Proof.
  unfold pickQueryTokens. intros Ht.
  apply In_firstn in Ht. rewrite In_stable_sort, In_set_of in Ht.
  rewrite !filter_In, in_map_iff in Ht. destruct Ht as [[[r [<- Hr]] _] _].
  now rewrite (In_tokenize_trim _ _ Hr).
Qed.

Lemma overlap_all a b : (forall t, In t a -> In t b) -> overlap a b = length a.
Proof.
  unfold overlap. induction a as [| x a IH]; intros Hsub; simpl; [reflexivity |].
  assert (Hx : mem x b = true) by (apply mem_In, Hsub; now left).
  rewrite Hx. simpl. f_equal. apply IH. intros t Ht. apply Hsub. now right.
Qed.

Lemma exact_overlap p :
  exactNameMatch p ->
  overlap (queryTokens U p) (nameTokens U p) = length (queryTokens U p).
Proof.
  intros Hex. apply overlap_all. intros t Ht.
  unfold queryTokens in Ht. rewrite In_set_of in Ht. apply pickQueryTokens_sub in Ht.
  unfold nameTokens. rewrite Hex. simpl. apply In_set_of.
  now rewrite tokenize_replace_hyphen.
Qed.

Lemma exact_score_pos p :
  exactNameMatch p -> queryTokens U p <> [] -> (0 < scoreSkillMatch U p)%Q.
Proof.
  intros Hex Hq.
  assert (Hlen : 0 < length (queryTokens U p)).
  { destruct (queryTokens U p); [congruence | simpl; lia]. }
  assert (Hraw : (0 < raw U p)%Q).
  { unfold raw. rewrite (exact_overlap p Hex).
    pose proof (ratio_pos (length (queryTokens U p))
                  (Nat.max 1 (length (nameTokens U p))) Hlen ltac:(lia)).
    pose proof (ratio_nonneg (overlap (queryTokens U p) (descTokens U p))
                  (Nat.max 1 (length (queryTokens U p)))).
    pose proof (ratio_nonneg (overlap (queryTokens U p) (keywordTokens U p))
                  (Nat.max 1 (length (queryTokens U p)))).
    lra. }
  assert (Hnorm : (0 < normalized U p)%Q).
  { unfold normalized. apply Q.min_glb_lt; [| lra].
    apply Qlt_shift_div_l; lra. }
  unfold scoreSkillMatch.
  destruct (length (queryTokens U p) =? 0) eqn:Hz.
  - apply Nat.eqb_eq in Hz. lia.
  - destruct (bonusApplies U p); [| exact Hnorm].
    apply Q.min_glb_lt; lra.
Qed.

Lemma unrelated_score p : unrelated U p -> (scoreSkillMatch U p == 0)%Q.
Proof.
  intros (Hn & Hd & Hk & Hb). unfold scoreSkillMatch. rewrite Hb.
  destruct (length (queryTokens U p) =? 0); [reflexivity |].
  assert (Hraw : (raw U p == 0)%Q).
  { unfold raw. rewrite Hn, Hd, Hk.
    pose proof (ratio_zero (Nat.max 1 (length (nameTokens U p)))).
    pose proof (ratio_zero (Nat.max 1 (length (queryTokens U p)))).
    lra. }
  pose proof (normalized_bounds p) as [Hlo _].
  assert (Hhi : (normalized U p <= raw U p / (22 # 10))%Q)
    by (unfold normalized; apply Q.le_min_l).
  apply Qle_antisym; [| exact Hlo].
  rewrite Hraw in Hhi. apply (Qle_trans _ _ _ Hhi). unfold Qle. simpl. lia.
Qed.

End Facts.

(** C2 (as stated): a candidate named exactly as the prompt does not score
    above an unrelated one when the prompt has stop words only; both score
    zero. *)
Lemma stopword_prompt_scores_equal :
  exactNameMatch Sample.helpExact
  /\ sp_prompt Sample.helpExact = sp_prompt Sample.helpUnrelated
  /\ unrelated basic_latin Sample.helpUnrelated
  /\ ~ (scoreSkillMatch basic_latin Sample.helpUnrelated
        < scoreSkillMatch basic_latin Sample.helpExact)%Q.
Proof.
  split; [reflexivity |]. split; [reflexivity |].
  split; [repeat split |].
  vm_compute. discriminate.
Qed.

(** C2 (amended): every score lies in [0,1]; when the prompt keeps at
    least one query token, a candidate named exactly as the prompt scores
    strictly above every candidate that shares no query token with it and
    whose normalized name does not occur in the joined query; and when the
    prompt keeps no query token, every candidate scores 0, whatever its
    name, description and keywords. *)
Theorem exact_name_outscores_unrelated (U : UnicodeData) :
  (forall p, (0 <= scoreSkillMatch U p <= 1)%Q)
  /\ (forall exact other,
        sp_prompt exact = sp_prompt other ->
        exactNameMatch exact ->
        queryTokens U exact <> [] ->
        unrelated U other ->
        (scoreSkillMatch U other < scoreSkillMatch U exact)%Q)
  /\ (forall p, queryTokens U p = [] -> scoreSkillMatch U p = 0%Q).
Proof.
  split; [apply score_bounds |]. split.
  - intros exact other _ Hex Hq Hun.
    rewrite (unrelated_score U other Hun). now apply exact_score_pos.
  - intros p Hq. unfold scoreSkillMatch. now rewrite Hq.
Qed.

Lemma exact_name_outscores_unrelated_witness :
  (scoreSkillMatch basic_latin Sample.invoicesUnrelated
   < scoreSkillMatch basic_latin Sample.invoicesExact)%Q
  /\ queryTokens basic_latin Sample.helpExact = []
  /\ scoreSkillMatch basic_latin Sample.helpExact = 0%Q.
Proof.
  destruct (exact_name_outscores_unrelated basic_latin) as (_ & Habove & Hzero).
  split; [| split; [reflexivity |]].
  - apply Habove.
    + reflexivity.
    + reflexivity.
    + vm_compute. discriminate.
    + repeat split.
  - apply Hzero. reflexivity.
Defined.

(** C5 (evaluation at the failing input): for the prompt
    "invoice organizer" and the skill "invoice-organizer" the query tokens
    are exactly the tokens of the name, yet the joined query is
    "organizer invoice", no bonus is applied and the score is 1/2.2. *)
Example exact_name_gets_no_bonus :
  queryTokens basic_latin Sample.invoiceOrganizer = [js "organizer"; js "invoice"]
  /\ nameTokens basic_latin Sample.invoiceOrganizer = [js "invoice"; js "organizer"]
  /\ joinedQuery basic_latin Sample.invoiceOrganizer = js "organizer invoice"
  /\ nameNorm basic_latin Sample.invoiceOrganizer = js "invoice organizer"
  /\ bonusApplies basic_latin Sample.invoiceOrganizer = false
  /\ (scoreSkillMatch basic_latin Sample.invoiceOrganizer == 10 # 22)%Q.
Proof. repeat split. Qed.

End DiscoverFacts.

Module SkillsDiscoverFacts.

Import SkillsImport SkillsDiscover.

(** C10: a prompt that is empty or white space only is refused with
    "prompt is required", no candidates and no warnings; nothing is fetched
    and the disk is left as it was. *)
Theorem blank_prompt_is_refused (U : UnicodeData) (E : Env) (W : Net)
    (params : SkillsDiscoverRequest) (fs : node) :
  forallb is_space (prompt params) = true ->
  discoverSkills U E W params fs
  = (Returned ({| d_ok := false; d_message := js "prompt is required";
                  candidates := []; d_warnings := [] |}, []), fs).
Proof.
  intros Hblank. unfold discoverSkills. now rewrite (trim_blank _ Hblank).
Qed.

Lemma blank_prompt_is_refused_witness :
  discoverSkills basic_latin Sample.sampleEnv Sample.offline Sample.blankPrompt Sample.disk1
  = (Returned ({| d_ok := false; d_message := js "prompt is required";
                  candidates := []; d_warnings := [] |}, []), Sample.disk1).
Proof.
  apply blank_prompt_is_refused. reflexivity.
Defined.

End SkillsDiscoverFacts.

(** ** The skill-tree scanner *)

Module ScanFacts.

(** Induction on trees, with the hypothesis for every entry of a
    directory. *)
Lemma node_induction (P : node -> Prop) :
  (forall r c, P (File r c)) ->
  (forall r es, Forall (fun e => P (snd e)) es -> P (Dir r es)) ->
  P Other ->
  forall n, P n.
Proof.
  intros HF HD HO. fix IH 1. intros [r c | r es |].
  - apply HF.
  - apply HD. induction es as [| [name child] es IHes]; constructor.
    + simpl. apply IH.
    + exact IHes.
  - exact HO.
Qed.

Lemma path_eqb_eq a b : path_eqb a b = true <-> a = b.
Proof.
  unfold path_eqb. destruct (list_eq_dec (list_eq_dec N.eq_dec) a b); split; congruence.
Qed.

Lemma In_found_add p d found : In p (found_add d found) <-> p = d \/ In p found.
Proof.
  unfold found_add. destruct (existsb (path_eqb d) found) eqn:Hex.
  - apply existsb_exists in Hex as [x [Hx Heq]]. apply path_eqb_eq in Heq. subst x.
    split; [now right | intros [-> | Hp]; assumption].
  - rewrite in_app_iff. simpl. intuition.
Qed.

Section Walk.
Variable ignored : list jsstring.

Lemma step_spec dir depth es :
  Forall (fun e => walk_spec ignored (snd e)) es ->
  forall acc p,
    In p (fold_left (step ignored dir depth) es acc)
    <-> In p acc
        \/ exists name child rel,
             In (name, child) es /\ isDirectory child = true
             /\ mem name ignored = false
             /\ p = dir ++ name :: rel /\ Scanned ignored child (S depth) rel.
Proof.
  induction 1 as [| [name child] es Hhd _ IH]; intros acc p; simpl.
  - split; [now left | intros [H | (? & ? & ? & [] & _)]; exact H].
  - rewrite IH. clear IH. simpl in Hhd. unfold walk_spec in Hhd.
    destruct (isDirectory child) eqn:Hd; simpl.
    + destruct (mem name ignored) eqn:Hm.
      * split.
        -- intros [H | (n' & c' & rel & Hin & Hrest)]; [now left |].
           right. exists n', c', rel. split; [now right | exact Hrest].
        -- intros [H | (n' & c' & rel & [Heq | Hin] & Hd' & Hm' & Hrest)]; [now left | |].
           ++ inversion Heq; subst. congruence.
           ++ right. exists n', c', rel. auto.
      * rewrite Hhd. split.
        -- intros [[H | (rel & -> & Hs)] | (n' & c' & rel & Hin & Hrest)].
           ++ now left.
           ++ right. exists name, child, rel. rewrite <- app_assoc. simpl. auto 6.
           ++ right. exists n', c', rel. split; [now right | exact Hrest].
        -- intros [H | (n' & c' & rel & [Heq | Hin] & Hd' & Hm' & -> & Hs)].
           ++ now left; left.
           ++ inversion Heq; subst. left; right. exists rel.
              rewrite <- app_assoc. simpl. auto.
           ++ right. exists n', c', rel. auto 6.
    + split.
      * intros [H | (n' & c' & rel & Hin & Hrest)]; [now left |].
        right. exists n', c', rel. split; [now right | exact Hrest].
      * intros [H | (n' & c' & rel & [Heq | Hin] & Hd' & Hrest)]; [now left | |].
        -- inversion Heq; subst. congruence.
        -- right. exists n', c', rel. auto.
Qed.

Lemma walk_unfold_dir entries dir depth found :
  walk ignored (Dir true entries) dir depth found
  = if MAX_DEPTH <? depth then found
    else fold_left (step ignored dir depth) entries
           (if has_manifest entries then found_add dir found else found).
Proof. reflexivity. Qed.

Lemma walk_characterized n : walk_spec ignored n.
Proof.
  induction n as [r c | r es IH |] using node_induction; intros dir depth found p.
  - simpl. destruct (MAX_DEPTH <? depth);
      (split; [now left | intros [H | (rel & _ & Hs)]; [exact H | inversion Hs]]).
  - destruct r.
    + rewrite walk_unfold_dir. destruct (MAX_DEPTH <? depth) eqn:Hdepth.
      * apply Nat.ltb_lt in Hdepth.
        split; [now left | intros [H | (rel & _ & Hs)]; [exact H |]].
        inversion Hs; subst; lia.
      * apply Nat.ltb_ge in Hdepth. rewrite (step_spec dir depth es IH).
        split.
        -- intros [H | (name & child & rel & Hin & Hd & Hm & -> & Hs)].
           ++ destruct (has_manifest es) eqn:Hman; [| now left].
              apply In_found_add in H as [-> | H]; [| now left].
              right. exists []. rewrite app_nil_r. split; [reflexivity |].
              now constructor.
           ++ right. exists (name :: rel). split; [reflexivity |].
              econstructor; eassumption.
        -- intros [H | (rel & -> & Hs)].
           ++ left. destruct (has_manifest es); [apply In_found_add; now right | exact H].
           ++ inversion Hs; subst.
              ** left. rewrite app_nil_r. 
                 match goal with Hm : has_manifest es = true |- _ => rewrite Hm end.
                 apply In_found_add. now left.
              ** right. eauto 10.
    + simpl. destruct (MAX_DEPTH <? depth);
        (split; [now left | intros [H | (rel & _ & Hs)]; [exact H | inversion Hs]]).
  - simpl. destruct (MAX_DEPTH <? depth);
      (split; [now left | intros [H | (rel & _ & Hs)]; [exact H | inversion Hs]]).
Qed.

Lemma collect_characterized fs root p :
  In p (collect ignored fs root)
  <-> exists n rel, lookup fs root = Some n /\ p = root ++ rel /\ Scanned ignored n 0 rel.
Proof.
  unfold collect. destruct (lookup fs root) as [n |].
  - pose proof (walk_characterized n) as Hw. unfold walk_spec in Hw.
    unfold sort_paths. rewrite In_stable_sort, Hw. split.
    + intros [[] | (rel & Hp & Hs)]. eauto.
    + intros (n' & rel & Heq & Hp & Hs). inversion Heq; subst. eauto.
  - split; [intros [] | intros (n & rel & Heq & _); discriminate].
Qed.

Lemma Scanned_not_ignored n depth rel :
  Scanned ignored n depth rel -> forall seg, In seg rel -> ~ In seg ignored.
Proof.
  induction 1 as [| entries depth name child rel _ _ _ Hm _ IH]; intros seg Hseg.
  - destruct Hseg.
  - destruct Hseg as [<- | Hseg]; [now apply mem_false | now apply IH].
Qed.

End Walk.

(** C8: whatever the tree, no returned directory lies inside (or is) a
    directory below the scan root whose name is on the ignore list: every
    segment of its path below the root is off the list. *)
Theorem ignored_directories_are_never_returned (fs : node) (root : path) :
  SkillsImport.IMPORT_IGNORED_NAMES
  = map js [".git"; "node_modules"; "dist"; "build"; "out"; ".next"; ".turbo";
            ".venv"; "venv"; ".idea"; ".vscode"]%string
  /\ exists dirs,
       SkillsImport.collectSkillDirs root fs = (Returned dirs, fs)
       /\ forall p, In p dirs ->
            exists rel, p = root ++ rel
                        /\ forall seg, In seg rel ->
                             ~ In seg SkillsImport.IMPORT_IGNORED_NAMES.
Proof.
  split; [reflexivity |].
  exists (collect SkillsImport.IMPORT_IGNORED_NAMES fs root). split; [reflexivity |].
  intros p Hp. apply collect_characterized in Hp as (n & rel & _ & -> & Hs).
  exists rel. split; [reflexivity |]. now apply Scanned_not_ignored with (n := n) (depth := 0).
Qed.

Lemma ignored_directories_are_never_returned_witness :
  exists rel, [js "src"; js "my-skill"] = [js "src"] ++ rel
              /\ forall seg, In seg rel -> ~ In seg SkillsImport.IMPORT_IGNORED_NAMES.
Proof.
  destruct (ignored_directories_are_never_returned Sample.disk1 [js "src"])
    as [_ [dirs [Hrun Hall]]].
  apply Hall. injection Hrun as <-. vm_compute. now left.
Defined.

(** C6 (as stated): a manifest directory inside a manifest directory is
    returned together with it. *)
Lemma nested_manifest_directory_is_returned :
  exists dirs,
    SkillsImport.collectSkillDirs [] Sample.nested = (Returned dirs, Sample.nested)
    /\ In [js "a"] dirs /\ In [js "a"; js "sub"] dirs
    /\ strict_descendant [js "a"; js "sub"] [js "a"].
Proof.
  eexists. split; [reflexivity |].
  split; [vm_compute; auto |]. split; [vm_compute; auto |].
  exists [js "sub"]. split; [discriminate | reflexivity].
Qed.

(** C6 (amended): both scanners return exactly the directories that hold a
    regular file SKILL.md and are reached from the root through readable
    directories with names off the ignore list, within [MAX_DEPTH] levels;
    a match does not stop the descent, so the subdirectories of a matched
    directory are scanned as its siblings are. *)
Theorem scan_returns_every_reachable_manifest_directory (fs : node) (root : path) :
  (exists dirs,
     SkillsImport.collectSkillDirs root fs = (Returned dirs, fs)
     /\ forall p, In p dirs <->
          exists n rel, lookup fs root = Some n /\ p = root ++ rel
                        /\ Scanned SkillsImport.IMPORT_IGNORED_NAMES n 0 rel)
  /\ (exists dirs,
        SkillsDiscover.collectSkillDirs root fs = (Returned dirs, fs)
        /\ forall p, In p dirs <->
             exists n rel, lookup fs root = Some n /\ p = root ++ rel
                           /\ Scanned Discover.DISCOVERY_IGNORED_NAMES n 0 rel).
Proof.
  split; eexists; (split; [reflexivity | intros p; apply collect_characterized]).
Qed.

End ScanFacts.

(** ** The file system *)

Module FsFacts.

Lemma find_entry_alter_same seg f es :
  find_entry seg (alter_entry seg f es) = option_map f (find_entry seg es).
Proof.
  induction es as [| [n x] es IH]; simpl; [reflexivity |].
  destruct (str_eqb n seg) eqn:Hn; simpl; rewrite Hn; [reflexivity | exact IH].
Qed.

Lemma find_entry_alter_other s seg f es :
  s <> seg -> find_entry s (alter_entry seg f es) = find_entry s es.
Proof.
  intros Hne. induction es as [| [n x] es IH]; simpl; [reflexivity |].
  destruct (str_eqb n seg) eqn:Hn; simpl.
  - apply str_eqb_eq in Hn. subst n.
    assert (Hs : str_eqb seg s = false) by (apply str_eqb_neq; congruence).
    now rewrite Hs.
  - destruct (str_eqb n s); [reflexivity | exact IH].
Qed.

Lemma find_entry_app s es es' :
  find_entry s (es ++ es')
  = match find_entry s es with Some c => Some c | None => find_entry s es' end.
Proof.
  induction es as [| [n x] es IH]; simpl; [reflexivity |].
  destruct (str_eqb n s); [reflexivity | exact IH].
Qed.

Lemma find_entry_remove_same seg es : find_entry seg (remove_entry seg es) = None.
Proof.
  unfold remove_entry. induction es as [| [n x] es IH]; simpl; [reflexivity |].
  destruct (str_eqb n seg) eqn:Hn; simpl; [exact IH | now rewrite Hn].
Qed.

Lemma find_entry_remove_other s seg es :
  s <> seg -> find_entry s (remove_entry seg es) = find_entry s es.
Proof.
  intros Hne. unfold remove_entry. induction es as [| [n x] es IH]; simpl; [reflexivity |].
  destruct (str_eqb n seg) eqn:Hn; simpl.
  - apply str_eqb_eq in Hn. subst n.
    assert (Hs : str_eqb seg s = false) by (apply str_eqb_neq; congruence).
    now rewrite Hs.
  - destruct (str_eqb n s); [reflexivity | exact IH].
Qed.

Lemma lookup_app fs a : forall b,
  lookup fs (a ++ b) = match lookup fs a with Some n => lookup n b | None => None end.
Proof.
  revert fs. induction a as [| seg a IH]; intros fs b; simpl; [reflexivity |].
  destruct fs as [| r es |]; try reflexivity.
  destruct (find_entry seg es); [apply IH | reflexivity].
Qed.


Lemma is_prefix_app a b : is_prefix a (a ++ b) = true.
Proof.
  induction a as [| x a IH]; simpl; [reflexivity |]. now rewrite str_eqb_refl.
Qed.

Lemma is_prefix_true a b : is_prefix a b = true -> exists c, b = a ++ c.
Proof.
  revert b. induction a as [| x a IH]; intros b; simpl.
  - intros _. now exists b.
  - destruct b as [| y b]; [discriminate |].
    intros Hp. apply andb_prop in Hp as [Hx Hp]. apply str_eqb_eq in Hx. subst y.
    destruct (IH _ Hp) as [c ->]. now exists c.
Qed.


(** A path that is looked up below an empty directory is not there. *)
Lemma lookup_empty_dir r q : q <> [] -> lookup (Dir r []) q = None.
Proof. destruct q; [congruence | reflexivity]. Qed.

(** [mkdir -p] changes nothing except at the prefixes of its path. *)
Lemma mkdirp_lookup_other p : forall fs fs' q,
  mkdirp fs p = Some fs' -> is_prefix q p = false -> lookup fs' q = lookup fs q.
Proof.
  induction p as [| seg p IH]; intros fs fs' q Hmk Hq.
  - simpl in Hmk. destruct fs; try discriminate. now injection Hmk as <-.
  - destruct q as [| s q]; [discriminate |].
    destruct fs as [| r es |]; try discriminate. simpl in Hmk.
    destruct (find_entry seg es) as [c |] eqn:Hfind.
    + destruct (mkdirp c p) as [c' |] eqn:Hc; [| discriminate].
      injection Hmk as <-. simpl.
      destruct (str_eqb s seg) eqn:Hs.
      * apply str_eqb_eq in Hs. subst s.
        rewrite find_entry_alter_same, Hfind. simpl.
        apply (IH _ _ _ Hc). simpl in Hq. now rewrite str_eqb_refl in Hq.
      * apply str_eqb_neq in Hs. now rewrite find_entry_alter_other.
    + destruct (mkdirp (Dir true []) p) as [c' |] eqn:Hc; [| discriminate].
      injection Hmk as <-. simpl. rewrite find_entry_app.
      destruct (find_entry s es) as [c |] eqn:Hs; [reflexivity |]. simpl.
      destruct (str_eqb seg s) eqn:Hseg; [| reflexivity].
      apply str_eqb_eq in Hseg. subst s.
      simpl in Hq. rewrite str_eqb_refl in Hq. simpl in Hq.
      rewrite (IH _ _ _ Hc Hq). apply lookup_empty_dir. intros ->. discriminate.
Qed.



Lemma write_at_lookup_self p : forall fs fs' new,
  write_at fs p new = Some fs' -> lookup fs' p = Some new.
Proof.
  induction p as [| seg p IH]; intros fs fs' new Hw; simpl in *.
  - now injection Hw as <-.
  - destruct fs as [| r es |]; try discriminate.
    destruct (find_entry seg es) as [c |] eqn:Hfind.
    + destruct (write_at c p new) as [c' |] eqn:Hc; [| discriminate].
      injection Hw as <-. simpl. rewrite find_entry_alter_same, Hfind. simpl.
      eapply IH; eassumption.
    + destruct (write_at (Dir true []) p new) as [c' |] eqn:Hc; [| discriminate].
      injection Hw as <-. simpl. rewrite find_entry_app, Hfind. simpl.
      rewrite str_eqb_refl. eapply IH; eassumption.
Qed.

Lemma write_at_lookup_other p : forall fs fs' new q,
  write_at fs p new = Some fs' ->
  is_prefix p q = false -> is_prefix q p = false ->
  lookup fs' q = lookup fs q.
Proof.
  induction p as [| seg p IH]; intros fs fs' new q Hw Hpq Hqp.
  - discriminate.
  - destruct q as [| s q]; [discriminate |].
    destruct fs as [| r es |]; try discriminate. simpl in Hw.
    destruct (find_entry seg es) as [c |] eqn:Hfind.
    + destruct (write_at c p new) as [c' |] eqn:Hc; [| discriminate].
      injection Hw as <-. simpl.
      destruct (str_eqb s seg) eqn:Hs.
      * apply str_eqb_eq in Hs. subst s.
        rewrite find_entry_alter_same, Hfind. simpl.
        simpl in Hpq, Hqp. rewrite str_eqb_refl in Hpq, Hqp.
        eapply IH; eassumption.
      * apply str_eqb_neq in Hs. now rewrite find_entry_alter_other.
    + destruct (write_at (Dir true []) p new) as [c' |] eqn:Hc; [| discriminate].
      injection Hw as <-. simpl. rewrite find_entry_app.
      destruct (find_entry s es) as [c |] eqn:Hs; [reflexivity |]. simpl.
      destruct (str_eqb seg s) eqn:Hseg; [| reflexivity].
      apply str_eqb_eq in Hseg. subst s.
      simpl in Hpq, Hqp. rewrite str_eqb_refl in Hpq, Hqp. simpl in Hpq, Hqp.
      rewrite (IH _ _ _ _ Hc Hpq Hqp). apply lookup_empty_dir. intros ->. discriminate.
Qed.



Lemma remove_lookup_self p : forall fs, p <> [] -> lookup (remove fs p) p = None.
Proof.
  induction p as [| seg p IH]; intros fs Hne; [congruence |].
  destruct p as [| seg' p].
  - destruct fs as [| r es |]; simpl; try reflexivity.
    now rewrite find_entry_remove_same.
  - destruct fs as [| r es |]; try reflexivity.
    change (lookup (Dir r (alter_entry seg (fun c => remove c (seg' :: p)) es)) (seg :: seg' :: p) = None).
    cbn [lookup]. rewrite find_entry_alter_same.
    destruct (find_entry seg es) as [c |]; simpl; [| reflexivity].
    apply IH. discriminate.
Qed.

Lemma remove_lookup_other p : forall fs q,
  is_prefix p q = false -> is_prefix q p = false ->
  lookup (remove fs p) q = lookup fs q.
Proof.
  induction p as [| seg p IH]; intros fs q Hpq Hqp; [discriminate |].
  destruct q as [| s q]; [discriminate |].
  destruct fs as [| r es |]; try (destruct p; reflexivity).
  destruct p as [| seg' p].
  - simpl. destruct (str_eqb s seg) eqn:Hs.
    + apply str_eqb_eq in Hs. subst s. simpl in Hpq. now rewrite str_eqb_refl in Hpq.
    + apply str_eqb_neq in Hs. now rewrite find_entry_remove_other.
  - change (lookup (Dir r (alter_entry seg (fun c => remove c (seg' :: p)) es)) (s :: q)
            = lookup (Dir r es) (s :: q)).
    cbn [lookup]. destruct (str_eqb s seg) eqn:Hs.
    + apply str_eqb_eq in Hs. subst s. rewrite find_entry_alter_same.
      destruct (find_entry seg es) as [c |]; simpl; [| reflexivity].
      simpl in Hpq, Hqp. rewrite str_eqb_refl in Hpq, Hqp.
      apply IH; assumption.
    + apply str_eqb_neq in Hs. now rewrite find_entry_alter_other.
Qed.


Lemma collect_lookup ignored fs fs' root :
  lookup fs' root = lookup fs root -> collect ignored fs' root = collect ignored fs root.
Proof. unfold collect. now intros ->. Qed.

End FsFacts.

Import FsFacts.

(** ** Destination names *)

Module SanitizeFacts.

Import SkillsImport.

Lemma safe_replace_runs p rep s : forall b,
  safe rep -> safe s -> safe (replace_runs p rep s b).
Proof.
  unfold safe. induction s as [| c s IH]; intros b Hrep Hs; simpl; [constructor |].
  inversion Hs; subst.
  destruct (p c); [destruct b |]; auto using Forall_app.
  apply Forall_app. auto.
Qed.

Lemma Forall_drop_while (P : N -> Prop) p s : Forall P s -> Forall P (drop_while p s).
Proof.
  induction 1 as [| c s Hc Hs IH]; simpl; [constructor |].
  destruct (p c); [exact IH | now constructor].
Qed.

Lemma Forall_first (A : Type) (P : A -> Prop) n l : Forall P l -> Forall P (firstn n l).
Proof.
  intros Hl. rewrite <- (firstn_skipn n l) in Hl. now apply Forall_app in Hl.
Qed.

Lemma safe_replace_unsafe s : safe (replace_unsafe s).
Proof.
  unfold safe, replace_unsafe. induction s as [| c s IH]; simpl; [constructor |].
  apply Forall_app. split; [| exact IH].
  destruct (is_safe_char c) eqn:Hc; [now repeat constructor |].
  unfold units. destruct (c <? 65536)%N; now repeat constructor.
Qed.

Lemma safe_strip_edges s : safe s -> safe (strip_edges s).
Proof.
  unfold safe, strip_edges. intros Hs.
  apply Forall_rev, Forall_drop_while, Forall_rev, Forall_drop_while, Hs.
Qed.

(** The sanitized name is a non-empty word over letters, digits, hyphen and
    underscore. *)
Lemma sanitize_safe raw :
  safe (sanitizeSkillDirName raw) /\ sanitizeSkillDirName raw <> [].
Proof.
  unfold sanitizeSkillDirName.
  match goal with |- context [truthy ?n] => set (normalized := n) end.
  assert (Hn : safe normalized).
  { apply Forall_first, safe_strip_edges, safe_replace_runs;
      [now repeat constructor | apply safe_replace_unsafe]. }
  destruct normalized as [| c n]; simpl.
  - split; [now repeat constructor | discriminate].
  - split; [exact Hn | discriminate].
Qed.

Lemma split_on_no_separator c s : forall cur,
  Forall (fun x => (x =? c)%N = false) s -> split_on c s cur = [cur ++ s].
Proof.
  induction s as [| x s IH]; intros cur Hs; simpl.
  - now rewrite app_nil_r.
  - inversion Hs; subst. rewrite H1, IH by assumption. now rewrite <- app_assoc.
Qed.

(** Joining a directory with a sanitized name appends one segment. *)
Lemma path_join_safe T d : safe d -> d <> [] -> path_join T d = T ++ [d].
Proof.
  intros Hd Hne. unfold path_join. rewrite split_on_no_separator.
  - simpl. unfold push_segment.
    assert (H0 : str_eqb d [] = false) by now apply str_eqb_neq.
    assert (H1 : str_eqb d (js ".") = false).
    { apply str_eqb_neq. intros ->. inversion Hd; subst. discriminate. }
    assert (H2 : str_eqb d (js "..") = false).
    { apply str_eqb_neq. intros ->. inversion Hd; subst. discriminate. }
    now rewrite H0, H1, H2.
  - eapply Forall_impl; [| exact Hd]. intros c Hc. simpl in Hc.
    destruct (N.eqb_spec c slash) as [-> |]; [discriminate | reflexivity].
Qed.

Lemma path_join_manifest p : path_join p SKILL_MD = p ++ [SKILL_MD].
Proof. reflexivity. Qed.

End SanitizeFacts.

Import SanitizeFacts.

(** ** The import engine *)

Module ImportFacts.

Import SkillsImport.

Section Facts.
Variable E : Env.












Lemma run_cleanup_returns c fs : exists fs', run_cleanup c fs = (Returned tt, fs').
Proof. destruct c; simpl; unfold rm, ret; eauto. Qed.


End Facts.

(** *** One local skill directory *)

Section LocalSkill.
Variable E : Env.
Variable q : SkillsImportRequest.
Variables T S : path.
Variable src cpy : node.
Variable content : jsstring.

Let raw := trim (source q).
Let d := soleDestName E S content.
Let D := T ++ [d].

Hypothesis Htarget : resolveTargetDir E q = Some T.
Hypothesis Hraw : truthy raw = true.
Hypothesis Hlocal : is_http raw = false.
Hypothesis Hdir : ends_with raw (js "/SKILL.md") = false.
Hypothesis Hsub : is_truthy (subdir q) = false.
Hypothesis Hpath : resolveUserPath E raw = S.
Hypothesis Hbase : mem (basename S) IMPORT_IGNORED_NAMES = false.
Hypothesis Hscan : walk IMPORT_IGNORED_NAMES src S 0 [] = [S].
Hypothesis Hmanifest : lookup src [SKILL_MD] = Some (File true content).
Hypothesis Hcopy : copy_tree IMPORT_IGNORED_NAMES src = Some cpy.
Hypothesis HSD : is_prefix S D = false.
Hypothesis HDS : is_prefix D S = false.













End LocalSkill.

Lemma digit_safe k : k < 10 -> is_safe_char (digit k) = true.
Proof.
  intros Hk. do 10 (destruct k as [| k]; [reflexivity |]). lia.
Qed.

Lemma decimal_fuel_safe fuel : forall n acc,
  safe acc -> safe (decimal_fuel fuel n acc).
Proof.
  induction fuel as [| f IH]; intros n acc Hacc; simpl; [exact Hacc |].
  assert (Hd : safe (digit (n mod 10) :: acc)).
  { constructor; [| exact Hacc]. apply digit_safe. apply Nat.mod_upper_bound. lia. }
  destruct (n <? 10); [exact Hd | now apply IH].
Qed.

Lemma decimal_safe n : safe (decimal n).
Proof. apply decimal_fuel_safe. constructor. Qed.

Lemma destName_safe used base :
  safe base -> base <> [] -> safe (destName used base) /\ destName used base <> [].
Proof.
  intros Hs Hne. unfold destName. destruct (mem base used); [| now split].
  split.
  - apply Forall_app. split; [exact Hs |]. constructor; [reflexivity | apply decimal_safe].
  - destruct base; [now elim Hne | discriminate].
Qed.

Lemma readFile_state p fs : snd (readFile p fs) = fs.
Proof.
  unfold readFile. destruct (lookup fs p) as [[[|] c | r es |] |]; reflexivity.
Qed.

Section Accounting.
Variable E : Env.

Lemma importOne_cases T ow st dir fs :
  exists st' fs',
    importOne E T ow st dir fs = (Returned st', fs')
    /\ ((ls_imported st' = ls_imported st
         /\ exists e, ls_skipped st' = ls_skipped st ++ [e]
                      /\ skippedSourceDir e = path_str dir)
        \/ (ls_skipped st' = ls_skipped st
            /\ exists e, ls_imported st' = ls_imported st ++ [e]
                         /\ sourceDir e = path_str dir /\ child_entry T e)).
Proof.
  unfold importOne. unfold bind at 1, attempt at 1.
  destruct (readFile (path_join dir SKILL_MD) fs) as [[content | err] fs1].
  2:{ unfold ret. eexists _, _. split; [reflexivity |]. left. cbn. eauto. }
  set (base := sanitizeSkillDirName _).
  set (d := destName (usedDestNames st) base).
  destruct (sanitize_safe (match declared_name E content with
                           | Some n => n | None => basename dir end)) as [Hs Hne].
  fold base in Hs, Hne.
  destruct (destName_safe (usedDestNames st) base Hs Hne) as [Hds Hdne]. fold d in Hds, Hdne.
  rewrite (path_join_safe T d Hds Hdne), (path_join_manifest (T ++ [d])).
  unfold bind at 1, pathExists at 1.
  destruct (lookup fs1 (T ++ [d])) as [old |];
    destruct ow as [[|] |]; cbn [negb andb];
    try (unfold ret; eexists _, _; split; [reflexivity |]; left; cbn; eauto; fail).
  all: unfold bind at 1; unfold rm, ret at 1.
  all: unfold bind at 1, attempt at 1.
  all: match goal with |- context [cp ?i ?a ?b ?f] =>
         destruct (cp i a b f) as [[[] | err] fs2] end.
  all: unfold ret; eexists _, _; (split; [reflexivity |]).
  all: try (left; cbn; eauto; fail).
  all: right; cbn; split; [reflexivity |]; eexists; split; [reflexivity |];
       cbn; split; [reflexivity |]; exists d; cbn [destDir skillPath];
       rewrite <- app_assoc; auto.
Qed.

Lemma importAll_cases T ow dirs : forall st fs,
  exists st' fs',
    importAll E T ow st dirs fs = (Returned st', fs')
    /\ (Forall (child_entry T) (ls_imported st) -> Forall (child_entry T) (ls_imported st'))
    /\ Permutation
         (map sourceDir (ls_imported st') ++ map skippedSourceDir (ls_skipped st'))
         ((map sourceDir (ls_imported st) ++ map skippedSourceDir (ls_skipped st))
          ++ map path_str dirs).
Proof.
  induction dirs as [| dir rest IH]; intros st fs.
  - simpl. unfold ret. eexists _, _. split; [reflexivity |]. split; [auto |].
    now rewrite app_nil_r.
  - cbn [importAll]. unfold bind.
    destruct (importOne_cases T ow st dir fs) as (st1 & fs1 & -> & Hcase).
    destruct (IH st1 fs1) as (st' & fs' & -> & Hall & Hperm).
    eexists _, _. split; [reflexivity |].
    destruct Hcase as [(Hi & e & Hs & He) | (Hs & e & Hi & He & Hc)].
    + rewrite Hi, Hs in *. split; [exact Hall |].
      rewrite Hperm, map_app. simpl. rewrite He.
      rewrite <- !app_assoc. simpl. reflexivity.
    + rewrite Hi, Hs in *. split.
      * intros Hf. apply Hall. apply Forall_app. split; [exact Hf |]. now constructor.
      * rewrite Hperm, map_app. simpl. rewrite He.
        rewrite <- !app_assoc. simpl.
        apply Permutation_app_head. apply Permutation_middle.
Qed.




(** Every directory that the scan finds is accounted for: a run that gets
    as far as the scan returns, and lists each found directory once, among
    the imported entries or among the skipped ones. *)
Lemma found_directories_accounted (params : SkillsImportRequest) (T : path)
    (fs fs0 fs1 : node) (res : Resolved) (root : path) :
  resolveTargetDir E params = Some T ->
  resolveSource E params fs = (Returned res, fs0) ->
  rootDir res = Some root ->
  lookup fs0 root <> None ->
  mkdirp fs0 T = Some fs1 ->
  exists r fs',
    importSkills E params fs = (Returned r, fs')
    /\ Permutation (map sourceDir (imported r) ++ map skippedSourceDir (skipped r))
         (map path_str (collect IMPORT_IGNORED_NAMES fs1 root)).
Proof.
  intros HT Hres Hroot Hex Hmk. unfold importSkills, serializeByKey. rewrite HT.
  unfold bind at 1. rewrite Hres, Hroot.
  unfold bind at 1, try_finally, importFrom.
  unfold bind at 1, pathExists at 1.
  destruct (lookup fs0 root) as [n |]; [| congruence]. cbn [negb].
  unfold bind at 1, ensureDir at 1. rewrite Hmk.
  unfold bind at 1, collectSkillDirs at 1.
  destruct (collect IMPORT_IGNORED_NAMES fs1 root) as [| d0 ds] eqn:Hdirs.
  { cbn [length Nat.eqb]. unfold ret at 1.
    destruct (run_cleanup_returns (cleanup res) fs1) as [fs' ->].
    unfold ret. eexists _, _. split; [reflexivity |]. constructor. }
  cbn [length Nat.eqb]. unfold bind at 1.
  match goal with |- context [importAll E T ?ow ?st ?dirs fs1] =>
    destruct (importAll_cases T ow dirs st fs1) as (st' & fs3 & -> & _ & Hperm) end.
  unfold ret at 1.
  destruct (run_cleanup_returns (cleanup res) fs3) as [fs' ->].
  unfold ret. eexists _, _. split; [reflexivity |]. exact Hperm.
Qed.

End Accounting.



(** C7 (evaluation at the failing input): three skills named [a], [a-3]
    and [a] are found in this order; the third gets the name [a-3] that the
    second already has, so with the overwrite flag it replaces the second
    in the same run, and without the flag it is skipped as a conflict
    although the target was empty before the run. *)
Example third_entry_reuses_second_name :
  destName [js "a"; js "a-3"] (js "a") = js "a-3"
  /\ (exists r fs',
        importSkills Sample.sampleEnv (withOverwrite (Sample.request "/src")) Sample.disk3
        = (Returned r, fs')
        /\ map sourceDir (imported r) = [js "/src/x"; js "/src/y"; js "/src/z"]
        /\ map destDir (imported r)
           = [js "/ws/skills/a"; js "/ws/skills/a-3"; js "/ws/skills/a-3"]
        /\ ~ NoDup (map destDir (imported r)))
  /\ (exists r fs',
        importSkills Sample.sampleEnv (Sample.request "/src") Sample.disk3 = (Returned r, fs')
        /\ map destDir (imported r) = [js "/ws/skills/a"; js "/ws/skills/a-3"]
        /\ map skippedSourceDir (skipped r) = [js "/src/z"]
        /\ map reason (skipped r) = [conflict]
        /\ map skippedMessage (skipped r) = [js "destination exists: /ws/skills/a-3"]).
Proof.
  split; [reflexivity |]. split.
  - do 2 eexists. split; [vm_compute; reflexivity |].
    split; [reflexivity |]. split; [reflexivity |].
    cbn [imported map destDir]. intros Hnd.
    inversion Hnd as [| x l Hx Hl]; subst. inversion Hl as [| y l' Hy Hl']; subst.
    apply Hy. now left.
  - do 2 eexists. split; [vm_compute; reflexivity |]. repeat split.
Qed.




End ImportFacts.

(** ** Validation *)

Module ValidateFacts.

Import SkillsImport SkillsValidate.

Section Facts.
Variables Config Eligibility : Type.
Variable H : Host Config Eligibility.

Lemma path_eqb_true a b : path_eqb a b = true -> a = b.
Proof.
  unfold path_eqb. destruct (list_eq_dec (list_eq_dec N.eq_dec) a b); congruence.
Qed.

Lemma ready_iff (l : bool) (so : option SkillStatusEntry) :
  l && status_eligible so = true
  <-> l = true /\ exists st, so = Some st /\ eligible st = true.
Proof.
  rewrite andb_true_iff. destruct so as [st |]; simpl.
  - split; intros [Hl Hs]; (split; [exact Hl |]).
    + now exists st.
    + destruct Hs as (st' & Heq & Hel). now injection Heq as ->.
  - split; intros [Hl Hs]; [discriminate |]. now destruct Hs as (st & Heq & _).
Qed.

Lemma validateOne_sound fs entries report imp v :
  validateOne H fs entries report imp = Returned v ->
  entry_sound H fs entries report v.
Proof.
  unfold validateOne, entry_sound.
  destruct (fst (readFile (normalizePath H (skillPath imp)) fs)) as [content | err].
  - destruct (h_parseFrontmatter H content) as [fm | err]; [| discriminate].
    intros Hv. injection Hv as <-. simpl.
    split; [apply ready_iff |]. split.
    + unfold findSkillEntryByPath.
      destruct (find _ entries) as [entry |] eqn:Hentry; [| discriminate].
      intros _. apply find_some in Hentry as [Hin Heq]. apply path_eqb_true in Heq.
      now exists entry.
    + unfold findSkillStatusByPath. intros st Hst.
      apply find_some in Hst as [Hin Heq]. apply path_eqb_true in Heq. auto.
  - intros Hv. injection Hv as <-. simpl.
    split; [| split; [discriminate | discriminate]].
    split; [discriminate | intros [Hl _]; discriminate].
Qed.

Lemma find_first (A : Type) (p : A -> bool) (l : list A) (x : A) :
  find p l = Some x
  <-> exists before after,
        l = before ++ x :: after /\ p x = true /\ Forall (fun y => p y = false) before.
Proof.
  induction l as [| y l IH]; simpl.
  - split; [discriminate |]. intros (before & after & Hl & _). destruct before; discriminate.
  - destruct (p y) eqn:Hy.
    + split.
      * intros Heq. injection Heq as <-. exists [], l. repeat split; auto.
      * intros ([| z before] & after & Hl & Hx & Hb).
        -- now injection Hl as -> _.
        -- injection Hl as <- _. inversion Hb; congruence.
    + rewrite IH. split.
      * intros (before & after & -> & Hx & Hb). exists (y :: before), after.
        repeat split; auto.
      * intros ([| z before] & after & Hl & Hx & Hb).
        -- injection Hl as -> _. congruence.
        -- injection Hl as _ ->. inversion Hb; subst. eauto.
Qed.

Lemma path_eqb_false a b : path_eqb a b = false <-> a <> b.
Proof.
  unfold path_eqb. destruct (list_eq_dec (list_eq_dec N.eq_dec) a b); split; congruence.
Qed.

Lemma findSkillEntryByPath_some entries p :
  (exists entry, findSkillEntryByPath H entries p = Some entry) <-> loaderHas H entries p.
Proof.
  unfold findSkillEntryByPath, loaderHas. split.
  - intros [entry Hf]. apply find_some in Hf as [Hin Heq]. apply path_eqb_true in Heq. eauto.
  - intros (entry & Hin & Heq).
    destruct (find _ entries) as [e |] eqn:Hf; [eauto |].
    apply (find_none _ _ Hf) in Hin. apply path_eqb_false in Hin. contradiction.
Qed.

Lemma findSkillStatusByPath_first report p st :
  findSkillStatusByPath H report p = Some st <-> firstStatusAt H report p st.
Proof.
  unfold findSkillStatusByPath, firstStatusAt. rewrite find_first. split.
  - intros (before & after & Hl & Hx & Hb). exists before, after.
    split; [exact Hl |]. split; [now apply path_eqb_true |].
    eapply Forall_impl; [| exact Hb]. intros s0. apply path_eqb_false.
  - intros (before & after & Hl & Hx & Hb). exists before, after.
    split; [exact Hl |]. split.
    + rewrite Hx. unfold path_eqb.
      destruct (list_eq_dec (list_eq_dec N.eq_dec) _ _); congruence.
    + eapply Forall_impl; [| exact Hb]. intros s0. apply path_eqb_false.
Qed.

(** What one validation entry says, told from the disk, the loader and the
    report of the host. *)
Lemma validateOne_exact fs entries report imp v :
  validateOne H fs entries report imp = Returned v ->
  (loaded v = true <-> manifestRead H fs (v_skillPath v) /\ loaderHas H entries (v_skillPath v))
  /\ (forall st, status v = Some st
                 <-> manifestRead H fs (v_skillPath v)
                     /\ firstStatusAt H report (v_skillPath v) st).
Proof.
  unfold validateOne, manifestRead.
  destruct (fst (readFile (normalizePath H (skillPath imp)) fs)) as [content | err] eqn:Hread.
  - destruct (h_parseFrontmatter H content) as [fm | err]; [| discriminate].
    intros Hv. injection Hv as <-. cbn [loaded status v_skillPath]. rewrite Hread. split.
    + rewrite <- findSkillEntryByPath_some.
      destruct (findSkillEntryByPath H entries (skillPath imp)) as [entry |].
      * split; [intros _; split; eauto | reflexivity].
      * split; [discriminate | intros [_ [entry Hentry]]; discriminate].
    + intros st. rewrite findSkillStatusByPath_first. split.
      * intros Hst. split; [eauto | exact Hst].
      * intros [_ Hst]. exact Hst.
  - intros Hv. injection Hv as <-. cbn [loaded status v_skillPath]. rewrite Hread. split.
    + split; [discriminate | intros [[content Hc] _]; discriminate].
    + intros st. split; [discriminate | intros [[content Hc] _]; discriminate].
Qed.

Lemma validateAll_exact fs entries report imported : forall vs,
  validateAll H fs entries report imported = Returned vs ->
  forall v, In v vs ->
    (loaded v = true <-> manifestRead H fs (v_skillPath v) /\ loaderHas H entries (v_skillPath v))
    /\ (forall st, status v = Some st
                   <-> manifestRead H fs (v_skillPath v)
                       /\ firstStatusAt H report (v_skillPath v) st).
Proof.
  induction imported as [| imp rest IH]; intros vs; simpl.
  - intros Hv. injection Hv as <-. intros v [].
  - destruct (validateOne H fs entries report imp) as [v0 | e] eqn:Hone; [| discriminate].
    destruct (validateAll H fs entries report rest) as [vs' | e]; [| discriminate].
    intros Hv. injection Hv as <-. intros v [<- | Hin].
    + eapply validateOne_exact; eassumption.
    + now apply (IH vs' eq_refl).
Qed.

Lemma validateAll_paths fs entries report imported : forall vs,
  validateAll H fs entries report imported = Returned vs ->
  map v_skillPath vs = map skillPath imported.
Proof.
  induction imported as [| imp rest IH]; intros vs; simpl.
  - intros Hv. now injection Hv as <-.
  - destruct (validateOne H fs entries report imp) as [v0 | e] eqn:Hone; [| discriminate].
    destruct (validateAll H fs entries report rest) as [vs' | e]; [| discriminate].
    intros Hv. injection Hv as <-. simpl. rewrite (IH vs' eq_refl). f_equal.
    unfold validateOne in Hone.
    destruct (fst (readFile (normalizePath H (skillPath imp)) fs)) as [content | err].
    + destruct (h_parseFrontmatter H content) as [fm | err]; [| discriminate].
      now injection Hone as <-.
    + now injection Hone as <-.
Qed.

Lemma validateAll_sound fs entries report imported : forall vs,
  validateAll H fs entries report imported = Returned vs ->
  length vs = length imported /\ Forall (entry_sound H fs entries report) vs.
Proof.
  induction imported as [| imp rest IH]; intros vs; simpl.
  - intros Hv. injection Hv as <-. split; [reflexivity | constructor].
  - destruct (validateOne H fs entries report imp) as [v | e] eqn:Hone; [| discriminate].
    destruct (validateAll H fs entries report rest) as [vs' | e]; [| discriminate].
    intros Hv. injection Hv as <-. destruct (IH vs' eq_refl) as [Hlen Hall].
    split; [simpl; now rewrite Hlen |].
    constructor; [eapply validateOne_sound; eassumption | exact Hall].
Qed.

Lemma count_all (A : Type) (p : A -> bool) l :
  count p l = length l <-> forall x, In x l -> p x = true.
Proof.
  unfold count. induction l as [| y l IH]; simpl.
  - split; [intros _ x [] | reflexivity].
  - destruct (p y) eqn:Hy; simpl.
    + split.
      * intros Hc x [<- | Hx]; [exact Hy |]. apply IH; [lia | exact Hx].
      * intros Hall. f_equal. apply IH. intros x Hx. apply Hall. now right.
    + split.
      * intros Hc. pose proof (filter_length_le p l). lia.
      * intros Hall. specialize (Hall y (or_introl eq_refl)). congruence.
Qed.

End Facts.

(** C4 (as stated): on an empty batch every imported entry is ready, and
    the report is not ok. *)
Lemma empty_batch_is_not_ok :
  exists report fs',
    validateImportedSkills (Sample.hostReporting Sample.readyStatus) (js "/ws") []
      None None Sample.disk1 = (Returned report, fs')
    /\ (forall v, In v (v_skills report) -> ready v = true)
    /\ v_ok report = false.
Proof.
  do 2 eexists. split; [reflexivity |]. split; [intros v [] | reflexivity].
Qed.

(** C4 (amended): the report is ok exactly when the batch is not empty and
    every entry of the report is ready; the report has one entry per
    imported entry, in the order of the batch and with the path of its
    manifest; an entry is ready exactly when it is marked loaded and
    carries a status that reports eligible.  It is marked loaded exactly
    when its manifest can be read and the loader of the host has an entry
    for the path of the manifest, and its status is, when the manifest can
    be read, the first status of the host's report for that path, and none
    otherwise. *)
Theorem report_ok_iff_nonempty_and_all_ready
    (Config Eligibility : Type) (H : Host Config Eligibility)
    (ws : jsstring) (batch : list SkillsImportEntry)
    (cfg : option Config) (el : option Eligibility)
    (fs fs' : node) (report : SkillsValidationReport) :
  validateImportedSkills H ws batch cfg el fs = (Returned report, fs') ->
  (v_ok report = true <->
   batch <> [] /\ forall v, In v (v_skills report) -> ready v = true)
  /\ length (v_skills report) = length batch
  /\ map v_skillPath (v_skills report) = map skillPath batch
  /\ forall v, In v (v_skills report) ->
       (ready v = true <->
        loaded v = true /\ exists st, status v = Some st /\ eligible st = true)
       /\ (loaded v = true <->
           manifestRead H fs (v_skillPath v)
           /\ exists entry,
                In entry (loadWorkspaceSkillEntries H fs ws cfg)
                /\ normalizePath H (filePath (skill entry))
                   = normalizePath H (v_skillPath v))
       /\ (forall st, status v = Some st <->
             manifestRead H fs (v_skillPath v)
             /\ exists before after,
                  reportSkills (buildWorkspaceSkillStatus H fs ws cfg el)
                  = before ++ st :: after
                  /\ normalizePath H (statusFilePath st) = normalizePath H (v_skillPath v)
                  /\ Forall (fun s => normalizePath H (statusFilePath s)
                                      <> normalizePath H (v_skillPath v)) before).
Proof.
  unfold validateImportedSkills.
  destruct (validateAll H fs _ _ batch) as [vs | e] eqn:Hall; [| discriminate].
  intros Hr. injection Hr as <- <-. simpl.
  pose proof (validateAll_exact _ _ H _ _ _ _ _ Hall) as Hexact.
  pose proof (validateAll_paths _ _ H _ _ _ _ _ Hall) as Hpaths.
  apply validateAll_sound in Hall as [Hlen Hsound].
  split; [| split; [exact Hlen |]; split; [exact Hpaths |]].
  - rewrite andb_true_iff, Nat.ltb_lt, Nat.eqb_eq, count_all, Hlen.
    split; intros [Hne Hready]; (split; [| exact Hready]).
    + intros ->. simpl in Hne. lia.
    + destruct batch; [congruence | simpl; lia].
  - intros v Hv. rewrite Forall_forall in Hsound.
    destruct (Hsound v Hv) as (Hready & _). destruct (Hexact v Hv) as (Hloaded & Hstatus).
    split; [exact Hready |]. split; [exact Hloaded | exact Hstatus].
Qed.

Lemma report_ok_iff_nonempty_and_all_ready_witness :
  exists report,
    fst (validateImportedSkills (Sample.hostReporting Sample.readyStatus) (js "/ws")
           [Sample.importedEntry] None None Sample.disk1Imported) = Returned report
    /\ v_ok report = true
    /\ length (v_skills report) = 1.
Proof.
  eexists. split; [reflexivity |].
  destruct (@report_ok_iff_nonempty_and_all_ready unit unit
              (Sample.hostReporting Sample.readyStatus) (js "/ws")
              [Sample.importedEntry] None None Sample.disk1Imported Sample.disk1Imported
              _ eq_refl) as [Hok [Hlen _]].
  split; [| exact Hlen].
  apply Hok. split; [discriminate |].
  intros v [<- | []]. reflexivity.
Defined.

End ValidateFacts.

(** ** The gateway method *)

Module GatewayFacts.

Import SkillsImport SkillsValidate Gateway.

Lemma truthy_nonempty s : truthy s = true <-> s <> [].
Proof. destruct s; simpl; split; intros Hs; try discriminate; try reflexivity; now elim Hs. Qed.

Lemma length_pos_nonempty (A : Type) (l : list A) : (0 <? length l) = true <-> l <> [].
Proof. destruct l; simpl; split; intros Hl; try discriminate; try reflexivity; now elim Hl. Qed.

(** The installer picked by the handler, said without the code. *)
Lemma installerFor_characterized entry name id :
  installerFor entry = Some (name, id) <-> firstInstaller entry name id.
Proof.
  unfold installerFor, firstInstaller. split.
  - destruct (status entry) as [st |]; [| discriminate].
    destruct (eligible st) eqn:Hel; [discriminate |].
    destruct (install st) as [| first rest] eqn:Hinst; [discriminate |]. simpl.
    destruct (0 <? length (os (missing st))) eqn:Hos; [discriminate |].
    destruct (0 <? length (bins (missing st))) eqn:Hbins;
      destruct (0 <? length (anyBins (missing st))) eqn:Hany; simpl;
      try discriminate;
      (destruct (truthy (installId first)) eqn:Hid; [| discriminate]);
      intros Heq; injection Heq as <- <-;
      exists st, first, rest;
      (repeat split; auto;
       [ destruct (os (missing st)); [reflexivity | discriminate]
       | try (left; now apply length_pos_nonempty);
         try (right; now apply length_pos_nonempty)
       | now apply truthy_nonempty ]).
  - intros (st & first & rest & -> & -> & -> & Hos & Hbins & <- & Hid & <-). simpl.
    rewrite Hos. simpl.
    assert (Hb : (0 <? length (bins (missing st))) || (0 <? length (anyBins (missing st))) = true).
    { apply orb_true_iff. destruct Hbins as [Hb | Hb]; [left | right];
        now apply length_pos_nonempty. }
    rewrite Hb. simpl. apply truthy_nonempty in Hid. now rewrite Hid.
Qed.

Section Facts.
Variables Config Eligibility : Type.
Variable E : Env.
Variable H : Host Config Eligibility.
Variable G : GatewayHost Config Eligibility.

Lemma validate_keeps_disk ws batch cfg el fs r fs' :
  validateImportedSkills H ws batch cfg el fs = (r, fs') -> fs' = fs.
Proof.
  unfold validateImportedSkills.
  destruct (validateAll H fs _ _ batch); intros Heq; now injection Heq.
Qed.

Lemma autoInstallAll_calls ws timeout cfg entries : forall fs results calls fs',
  autoInstallAll G ws timeout cfg entries fs = (Returned (results, calls), fs') ->
  calls = map installCall (installersChosen entries)
  /\ length results = length calls.
Proof.
  induction entries as [| entry rest IH]; intros fs results calls fs'; simpl.
  - unfold ret. intros Heq. injection Heq as <- <- _. auto.
  - unfold installersChosen. simpl. fold (installersChosen rest).
    destruct (installerFor entry) as [[name id] |]; [| apply IH].
    unfold bind.
    destruct (installSkill G ws name id timeout cfg fs) as [[res | e] fs1]; [| discriminate].
    destruct (autoInstallAll G ws timeout cfg rest fs1) as [[[results' calls'] | e] fs2] eqn:Hrest;
      [| discriminate].
    unfold ret. intros Heq. injection Heq as <- <- _. simpl.
    destruct (IH _ _ _ _ Hrest) as [-> Hlen]. split; [reflexivity | now rewrite Hlen].
Qed.

End Facts.

(** C3 (as stated): an installer is invoked for a skill that misses an
    environment variable besides a binary, which is not an entry that
    misses binaries only. *)
Lemma installer_runs_despite_missing_env :
  exists resp calls fs' validation entry,
    skills_import Sample.sampleEnv (Sample.hostReporting Sample.needsJqAndKey)
      Sample.sampleGateway (Sample.importParams true) Sample.disk1
    = (Returned (resp, calls), fs')
    /\ validateImportedSkills (Sample.hostReporting Sample.needsJqAndKey) (js "/ws")
         [Sample.importedEntry] (Some tt) (Some tt) Sample.disk1Imported
       = (Returned validation, Sample.disk1Imported)
    /\ v_skills validation = [entry]
    /\ In (CallInstall (js "My Skill") (js "brew")) calls
    /\ ~ missesOnlyBinaries entry.
Proof.
  do 5 eexists. split; [vm_compute; reflexivity |].
  split; [vm_compute; reflexivity |]. split; [reflexivity |].
  split; [vm_compute; auto |].
  intros (st & Hst & _ & _ & _ & _ & Henv & _).
  vm_compute in Hst. injection Hst as <-. discriminate.
Qed.

(** C3 (amended): when auto-install is enabled and the import succeeded,
    the handler validates the imported batch, then invokes, for each entry
    of that validation in order, the first declared installer exactly when
    the entry has a status that is not eligible, declares at least one
    installer, misses no operating system, and misses at least one binary
    (whatever environment variables or configuration it misses besides),
    provided that installer has an identifier; it invokes nothing else, and
    then validates the same imported batch exactly once more. *)
Theorem autoInstall_invokes_first_installers
    (Config Eligibility : Type) (E : Env) (H : Host Config Eligibility)
    (G : GatewayHost Config Eligibility) (p : ImportParams)
    (fs fs' : node) (resp : Response) (calls : list Call) :
  skills_import E H G p fs = (Returned (resp, calls), fs') ->
  p_autoInstall p = Some true ->
  respOk resp = true ->
  let cfg := loadConfig G fs in
  let ws := resolveWorkspaceDir G cfg in
  exists result fs1 validation,
    importSkills E (importRequest p ws) fs = (Returned result, fs1)
    /\ validateImportedSkills H ws (imported result) (Some cfg)
         (Some (getRemoteSkillEligibility G fs1)) fs1 = (Returned validation, fs1)
    /\ calls = CallImport (importRequest p ws)
               :: CallValidate ws (imported result)
               :: map installCall (installersChosen (v_skills validation))
               ++ [CallValidate ws (imported result); CallBump]
    /\ forall entry name id,
         installerFor entry = Some (name, id) <-> firstInstaller entry name id.
Proof.
  intros Hrun Hauto Hok cfg ws.
  unfold skills_import in Hrun. fold cfg in Hrun. fold ws in Hrun.
  unfold bind at 1 in Hrun.
  destruct (importSkills E (importRequest p ws) fs) as [[result | e] fs1] eqn:Himport;
    [| discriminate].
  exists result, fs1.
  destruct (ok result) eqn:Hres.
  - unfold bind at 1 in Hrun. unfold bind at 1 in Hrun.
    destruct (validateImportedSkills H ws (imported result) (Some cfg)
                (Some (getRemoteSkillEligibility G fs1)) fs1)
      as [[validation | e] fs1'] eqn:Hval; [| discriminate].
    pose proof (validate_keeps_disk _ _ _ _ _ _ _ _ _ _ Hval) as ->.
    exists validation. split; [reflexivity |]. split; [reflexivity |].
    unfold ret at 1 in Hrun. simpl in Hrun. rewrite Hauto in Hrun.
    unfold bind in Hrun.
    destruct (autoInstallAll G ws (p_timeoutMs p) cfg (v_skills validation) fs1)
      as [[[results installs] | e] fs2] eqn:Hinst; [| discriminate].
    destruct (validateImportedSkills H ws (imported result) (Some cfg)
                (Some (getRemoteSkillEligibility G fs1)) fs2)
      as [[validation' | e] fs2'] eqn:Hval'; [| discriminate].
    unfold ret in Hrun. simpl in Hrun. injection Hrun as <- <- <-.
    apply autoInstallAll_calls in Hinst as [-> _].
    split.
    + simpl. now rewrite <- app_assoc.
    + intros entry name id. apply installerFor_characterized.
  - exfalso. unfold bind, ret in Hrun. simpl in Hrun.
    destruct (p_autoInstall p) as [[|] |]; simpl in Hrun;
      injection Hrun as <- <- <-; simpl in Hok; discriminate.
Qed.

Lemma autoInstall_invokes_first_installers_witness :
  exists calls,
    calls = [CallImport (importRequest (Sample.importParams true) (js "/ws"));
             CallValidate (js "/ws") [Sample.importedEntry];
             CallInstall (js "My Skill") (js "brew");
             CallValidate (js "/ws") [Sample.importedEntry];
             CallBump]
    /\ exists resp fs',
         skills_import Sample.sampleEnv (Sample.hostReporting Sample.needsJqAndKey)
           Sample.sampleGateway (Sample.importParams true) Sample.disk1
         = (Returned (resp, calls), fs').
Proof.
  eexists. split; [| do 2 eexists; vm_compute; reflexivity].
  edestruct (@autoInstall_invokes_first_installers unit unit Sample.sampleEnv
               (Sample.hostReporting Sample.needsJqAndKey) Sample.sampleGateway
               (Sample.importParams true) Sample.disk1)
    as (result & fs1 & validation & Himport & Hval & Hcalls & _).
  - vm_compute. reflexivity.
  - reflexivity.
  - reflexivity.
  - vm_compute in Himport. injection Himport as <- <-.
    vm_compute in Hval. injection Hval as <-.
    rewrite Hcalls. vm_compute. reflexivity.
Defined.

End GatewayFacts.

Import Discover ScanFacts DiscoverFacts ImportFacts ValidateFacts GatewayFacts.

(** ** Sorting and lists *)

Module SortFacts.

Section Sorting.
Variable A : Type.
Variable le : A -> A -> bool.

Lemma NoDup_insert_sorted x l :
  ~ In x l -> NoDup l -> NoDup (insert_sorted le x l).
Proof.
  induction l as [| y l IH]; intros Hx Hl; simpl.
  - constructor; [exact Hx | constructor].
  - destruct (le x y).
    + now constructor.
    + inversion Hl as [| ? ? Hy Hl']; subst. constructor.
      * rewrite In_insert_sorted. intros [-> | Hin]; [apply Hx; now left | now apply Hy].
      * apply IH; [intros Hin; apply Hx; now right | exact Hl'].
Qed.

Lemma NoDup_stable_sort l : NoDup l -> NoDup (stable_sort le l).
Proof.
  induction l as [| x l IH]; intros Hl; simpl; [constructor |].
  inversion Hl; subst. apply NoDup_insert_sorted; [| now apply IH].
  now rewrite In_stable_sort.
Qed.

Hypothesis le_total : forall a b, le a b = false -> le b a = true.
Hypothesis le_trans : forall a b c, le a b = true -> le b c = true -> le a c = true.

Lemma sorted_insert_sorted x l :
  StronglySorted (fun a b => le a b = true) l ->
  StronglySorted (fun a b => le a b = true) (insert_sorted le x l).
Proof.
  induction l as [| y l IH]; intros Hs; simpl.
  - constructor; [constructor | constructor].
  - inversion Hs as [| ? ? Hs' Hy]; subst.
    destruct (le x y) eqn:Hxy.
    + constructor; [exact Hs |]. constructor; [exact Hxy |].
      rewrite Forall_forall in *. intros z Hz. eapply le_trans; [exact Hxy | now apply Hy].
    + constructor; [now apply IH |].
      rewrite Forall_forall in *. intros z Hz. apply In_insert_sorted in Hz as [-> | Hz].
      * now apply le_total.
      * now apply Hy.
Qed.

Lemma sorted_stable_sort l :
  StronglySorted (fun a b => le a b = true) (stable_sort le l).
Proof.
  induction l as [| x l IH]; simpl; [constructor | now apply sorted_insert_sorted].
Qed.

End Sorting.

Lemma lex_leb_total a : forall b, lex_leb a b = false -> lex_leb b a = true.
Proof.
  induction a as [| x a IH]; intros [| y b]; simpl; try discriminate; try reflexivity.
  destruct (x <? y)%N eqn:Hxy; [discriminate |].
  destruct (y <? x)%N eqn:Hyx; [reflexivity |]. apply IH.
Qed.

Lemma lex_leb_trans a : forall b c,
  lex_leb a b = true -> lex_leb b c = true -> lex_leb a c = true.
Proof.
  induction a as [| x a IH]; intros [| y b] [| z c]; simpl; try discriminate; try reflexivity.
  destruct (x <? y)%N eqn:Hxy, (y <? x)%N eqn:Hyx, (y <? z)%N eqn:Hyz, (z <? y)%N eqn:Hzy,
           (x <? z)%N eqn:Hxz, (z <? x)%N eqn:Hzx;
    try discriminate; try reflexivity;
    rewrite ?N.ltb_lt, ?N.ltb_ge in *; try lia.
  apply IH.
Qed.

End SortFacts.

Import SortFacts.

Module ListFacts.

Lemma NoDup_firstn (A : Type) n (l : list A) : NoDup l -> NoDup (firstn n l).
Proof.
  intros Hl. rewrite <- (firstn_skipn n l) in Hl. now apply NoDup_app_remove_r in Hl.
Qed.

Lemma sorted_firstn (A : Type) (R : A -> A -> Prop) (l : list A) : forall n,
  StronglySorted R l -> StronglySorted R (firstn n l).
Proof.
  induction l as [| x l IH]; intros [| n] Hs; simpl; try constructor.
  - apply IH. now inversion Hs.
  - inversion Hs as [| ? ? _ Hx]; subst. rewrite Forall_forall in *.
    intros y Hy. apply Hx. now apply (In_firstn _ _ n).
Qed.

Lemma sorted_impl (A : Type) (R R' : A -> A -> Prop) (l : list A) :
  (forall a b, R a b -> R' a b) -> StronglySorted R l -> StronglySorted R' l.
Proof.
  intros Himp. induction 1 as [| x l Hs IH Hx]; constructor; [exact IH |].
  rewrite Forall_forall in *. auto.
Qed.

End ListFacts.

Import ListFacts.

(** ** More on the import engine *)

Module ImportMore.

Import SkillsImport.

Lemma strip_edges_prefix s :
  exists post, drop_while is_dash_or_underscore s = strip_edges s ++ post.
Proof.
  unfold strip_edges.
  destruct (drop_while_suffix is_dash_or_underscore (rev (drop_while is_dash_or_underscore s)))
    as [pre Hpre].
  exists (rev pre).
  rewrite <- rev_app_distr, <- Hpre. now rewrite rev_involutive.
Qed.

Lemma strip_edges_head s :
  match strip_edges s with
  | [] => True
  | c :: _ => is_dash_or_underscore c = false
  end.
Proof.
  destruct (strip_edges_prefix s) as [post Hpost].
  pose proof (drop_while_clean is_dash_or_underscore s) as Hc.
  rewrite Hpost in Hc. destruct (strip_edges s); [exact I | exact Hc].
Qed.

(** X1: whatever the raw name, the directory name that
    [sanitizeSkillDirName] makes of it is not empty, has at most 64
    characters, all of them letters, digits, hyphens or underscores, and
    does not begin with a hyphen or an underscore. *)
Theorem sanitized_name_shape (raw : jsstring) :
  let d := sanitizeSkillDirName raw in
  d <> []
  /\ length d <= 64
  /\ Forall (fun c => is_safe_char c = true) d
  /\ match d with
     | [] => True
     | c :: _ => is_dash_or_underscore c = false
     end.
Proof.
  intros d. destruct (sanitize_safe raw) as [Hsafe Hne].
  split; [exact Hne |]. split; [| split; [exact Hsafe |]].
  - subst d. unfold sanitizeSkillDirName.
    match goal with |- context [firstn 64 ?s] => set (t := s) end.
    destruct (truthy (firstn 64 t)).
    + rewrite length_firstn. lia.
    + vm_compute. lia.
  - subst d. unfold sanitizeSkillDirName.
    match goal with |- context [strip_edges ?s] => set (t := s) end.
    pose proof (strip_edges_head t) as Hh.
    destruct (strip_edges t) as [| c r]; [reflexivity |].
    cbn [firstn truthy]. exact Hh.
Qed.


(** A source that exists on the disk is used where it is. *)
Lemma local_source_resolves (E : Env) (params : SkillsImportRequest)
    (fs : node) (n : node) :
  let raw := trim (source params) in
  let parts := sourceParts E params raw in
  let found := resolveUserPath E raw in
  truthy raw = true ->
  lookup fs found = Some n ->
  resolveSource E params fs
  = (Returned {| rootDir := Some (withSubdir (if ends_with raw (js "/SKILL.md")
                                              then dirname found else found)
                                    (normalizedSubdir parts));
                 cleanup := None;
                 resolvedWarnings := initialWarnings parts |}, fs).
Proof.
  intros raw parts found Hraw Hfound. unfold resolveSource. fold raw. rewrite Hraw.
  cbn [negb]. unfold bind, pathExists. fold found. rewrite Hfound. reflexivity.
Qed.

Section Copy.
Variable ignored : list jsstring.

Lemma copy_tree_dir es es' :
  fold_right
    (fun e acc =>
       match e with
       | (name, child) =>
           if mem name ignored then acc
           else match copy_tree ignored child, acc with
                | Some c', Some l => Some ((name, c') :: l)
                | _, _ => None
                end
       end) (Some []) es = Some es' ->
  forall name c', In (name, c') es' ->
    mem name ignored = false
    /\ exists child, In (name, child) es /\ copy_tree ignored child = Some c'.
Proof.
  revert es'. induction es as [| [name0 child0] es IH]; intros es'; simpl.
  - intros Heq. injection Heq as <-. intros name c' [].
  - destruct (mem name0 ignored) eqn:Hm.
    + intros Heq name c' Hin. destruct (IH es' Heq name c' Hin) as (Hn & child & Hc & Hcopy).
      eauto.
    + destruct (copy_tree ignored child0) as [c0 |] eqn:Hc0; [| discriminate].
      match goal with |- match ?x with _ => _ end = _ -> _ => destruct x as [l |] eqn:Hl end;
        [| discriminate].
      intros Heq. injection Heq as <-. intros name c' [Heq | Hin].
      * injection Heq as <- <-. eauto.
      * destruct (IH l eq_refl name c' Hin) as (Hn & child & Hc & Hcopy). eauto.
Qed.

Lemma find_entry_In name es c : find_entry name es = Some c -> In (name, c) es.
Proof.
  induction es as [| [n0 x0] es IH]; simpl; [discriminate |].
  destruct (str_eqb n0 name) eqn:Hn.
  - apply str_eqb_eq in Hn. intros Heq. injection Heq as <-. subst. now left.
  - intros Hf. right. now apply IH.
Qed.

Lemma copy_tree_skips n : forall c p,
  copy_tree ignored n = Some c ->
  lookup c p <> None ->
  forall seg, In seg p -> ~ In seg ignored.
Proof.
  induction n as [r content | r es IH |] using node_induction; intros c p Hcopy Hlook.
  - destruct r; [| discriminate]. simpl in Hcopy. injection Hcopy as <-.
    destruct p; [intros seg [] |]. now elim Hlook.
  - destruct r; [| discriminate]. simpl in Hcopy.
    match type of Hcopy with match ?x with _ => _ end = _ => destruct x as [es' |] eqn:Hes end;
      [| discriminate].
    injection Hcopy as <-.
    destruct p as [| seg0 p]; [intros seg [] |]. simpl in Hlook.
    destruct (find_entry seg0 es') as [c0 |] eqn:Hfind; [| now elim Hlook].
    apply find_entry_In in Hfind.
    destruct (copy_tree_dir es es' Hes seg0 c0 Hfind) as (Hm & child & Hin & Hchild).
    intros seg [<- | Hseg].
    + now apply mem_false.
    + rewrite Forall_forall in IH. apply (IH (seg0, child) Hin c0 p Hchild Hlook seg Hseg).
  - simpl in Hcopy. injection Hcopy as <-.
    destruct p; [intros seg [] |]. now elim Hlook.
Qed.

Lemma ignored_names_skipped (src dest : path) (fs fs' : node) :
  cp ignored src dest fs = (Returned tt, fs') ->
  lookup fs dest = None ->
  forall rel seg,
    In seg rel -> In seg ignored -> lookup fs' (dest ++ rel) = None.
Proof.
  unfold cp. intros Hcp Hdest rel seg Hseg Hign.
  destruct (mem (basename src) ignored).
  { injection Hcp as <-. rewrite lookup_app, Hdest. reflexivity. }
  destruct (lookup fs src) as [n |]; [| discriminate].
  destruct (is_prefix src dest); [discriminate |].
  destruct (copy_tree ignored n) as [c |] eqn:Hcopy; [| discriminate].
  rewrite Hdest in Hcp.
  destruct (write_at fs dest c) as [fs1 |] eqn:Hwrite; [| discriminate].
  injection Hcp as <-.
  rewrite lookup_app, (write_at_lookup_self dest fs fs1 c Hwrite).
  destruct (lookup c rel) eqn:Hl; [| reflexivity].
  exfalso. eapply (copy_tree_skips n c rel Hcopy); [congruence | exact Hseg | exact Hign].
Qed.

End Copy.

Lemma remove_lookup_none p : forall fs q,
  lookup fs q = None -> lookup (remove fs p) q = None.
Proof.
  induction p as [| seg p IH]; intros fs q Hq; [destruct fs; exact Hq |].
  destruct q as [| s q]; [discriminate |].
  destruct fs as [| r es |]; try (destruct p; exact Hq).
  destruct p as [| seg' p].
  - simpl. simpl in Hq. destruct (str_eqb s seg) eqn:Hs.
    + apply str_eqb_eq in Hs. subst s. now rewrite find_entry_remove_same.
    + apply str_eqb_neq in Hs. now rewrite find_entry_remove_other.
  - change (lookup (Dir r (alter_entry seg (fun c => remove c (seg' :: p)) es)) (s :: q)
            = None).
    cbn [lookup] in *. destruct (str_eqb s seg) eqn:Hs.
    + apply str_eqb_eq in Hs. subst s. rewrite find_entry_alter_same.
      destruct (find_entry seg es) as [c |]; simpl; [| reflexivity].
      now apply IH.
    + apply str_eqb_neq in Hs. now rewrite find_entry_alter_other.
Qed.

Lemma withoutIgnored_remove fs D p :
  withoutIgnored fs D -> withoutIgnored (remove fs p) D.
Proof.
  intros Hc rel seg Hseg Hign. apply remove_lookup_none. now apply (Hc rel seg).
Qed.

Lemma is_prefix_sibling T d d' rel : d <> d' ->
  is_prefix (T ++ [d']) (T ++ [d] ++ rel) = false
  /\ is_prefix (T ++ [d] ++ rel) (T ++ [d']) = false.
Proof.
  intros Hne. induction T as [| t T IH]; simpl.
  - assert (H1 : str_eqb d' d = false) by (apply str_eqb_neq; congruence).
    assert (H2 : str_eqb d d' = false) by (apply str_eqb_neq; congruence).
    now rewrite H1, H2.
  - rewrite str_eqb_refl. exact IH.
Qed.

Lemma withoutIgnored_cp T d d' src fs fs' :
  cp IMPORT_IGNORED_NAMES src (T ++ [d']) fs = (Returned tt, fs') ->
  lookup fs (T ++ [d']) = None ->
  withoutIgnored fs (T ++ [d]) ->
  withoutIgnored fs' (T ++ [d]).
Proof.
  intros Hcp Hfree Hc.
  destruct (list_eq_dec N.eq_dec d d') as [-> | Hne].
  - intros rel seg Hseg Hign.
    eapply ignored_names_skipped; eassumption.
  - intros rel seg Hseg Hign. specialize (Hc rel seg Hseg Hign).
    unfold cp in Hcp.
    destruct (mem (basename src) IMPORT_IGNORED_NAMES); [now injection Hcp as <- |].
    destruct (lookup fs src) as [n |]; [| discriminate].
    destruct (is_prefix src (T ++ [d'])); [discriminate |].
    destruct (copy_tree IMPORT_IGNORED_NAMES n) as [c |]; [| discriminate].
    destruct (write_at fs (T ++ [d']) _) as [fs1 |] eqn:Hwrite; [| discriminate].
    injection Hcp as <-.
    destruct (is_prefix_sibling T d d' rel Hne) as [H1 H2].
    rewrite <- app_assoc.
    rewrite (write_at_lookup_other _ _ _ _ _ Hwrite H1 H2).
    rewrite app_assoc. exact Hc.
Qed.

Lemma cp_thrown ignored src dest fs e fs' :
  cp ignored src dest fs = (Thrown e, fs') -> fs' = fs.
Proof.
  unfold cp. destruct (mem (basename src) ignored); [discriminate |].
  destruct (lookup fs src) as [n |]; [| now intros Heq; injection Heq].
  destruct (is_prefix src dest); [now intros Heq; injection Heq |].
  destruct (copy_tree ignored n) as [c |]; [| now intros Heq; injection Heq].
  destruct (write_at fs dest _); [discriminate | now intros Heq; injection Heq].
Qed.

Lemma is_prefix_refl a : is_prefix a a = true.
Proof. induction a; simpl; [reflexivity |]. now rewrite str_eqb_refl. Qed.

Lemma is_prefix_iff a b : is_prefix a b = true <-> exists c, b = a ++ c.
Proof.
  split; [apply is_prefix_true |]. intros [c ->]. apply is_prefix_app.
Qed.

Lemma apartFrom_child T d q : apartFrom T q -> apartFrom (T ++ [d]) q.
Proof.
  intros [H1 H2]. split.
  - destruct (is_prefix (T ++ [d]) q) eqn:Hp; [| reflexivity].
    apply is_prefix_iff in Hp as [c ->].
    rewrite <- app_assoc, is_prefix_app in H1. discriminate.
  - destruct (is_prefix q (T ++ [d])) eqn:Hp; [| reflexivity].
    apply is_prefix_iff in Hp as [c Hc].
    destruct c as [| x c] using rev_ind.
    + rewrite app_nil_r in Hc. subst q. rewrite is_prefix_app in H1. discriminate.
    + rewrite app_assoc in Hc. apply app_inj_tail in Hc as [-> _].
      rewrite is_prefix_app in H2. discriminate.
Qed.

Lemma cp_apart ignored src dest fs q :
  apartFrom dest q -> lookup (snd (cp ignored src dest fs)) q = lookup fs q.
Proof.
  intros [H1 H2]. unfold cp.
  destruct (mem (basename src) ignored); [reflexivity |].
  destruct (lookup fs src) as [n |]; [| reflexivity].
  destruct (is_prefix src dest); [reflexivity |].
  destruct (copy_tree ignored n) as [c |]; [| reflexivity].
  destruct (write_at fs dest _) as [fs1 |] eqn:Hwrite; [| reflexivity].
  cbn [snd]. eapply write_at_lookup_other; eassumption.
Qed.

Section Loop.
Variable E : Env.

Lemma tryClone_returns timeout argv cwd fs :
  exists r fs', tryClone E timeout argv cwd fs = (Returned r, fs').
Proof.
  unfold tryClone, try_catch.
  destruct (runCommandWithTimeout E argv cwd timeout fs) as [[r | e] fs'];
    unfold ret; eauto.
Qed.

Lemma importOne_clean T ow st dir fs st' fs' :
  importOne E T ow st dir fs = (Returned st', fs') ->
  Forall (cleanEntry T fs) (ls_imported st) ->
  Forall (cleanEntry T fs') (ls_imported st').
Proof.
  unfold importOne. unfold bind at 1, attempt at 1.
  pose proof (readFile_state (path_join dir SKILL_MD) fs) as Hread.
  destruct (readFile (path_join dir SKILL_MD) fs) as [[content | err] fs1];
    cbn [snd] in Hread; subst fs1.
  2:{ unfold ret. intros Heq. injection Heq as <- <-. exact (fun H => H). }
  set (base := sanitizeSkillDirName _).
  set (d := destName (usedDestNames st) base).
  destruct (sanitize_safe (match declared_name E content with
                           | Some n => n | None => basename dir end)) as [Hs Hne].
  fold base in Hs, Hne.
  destruct (destName_safe (usedDestNames st) base Hs Hne) as [Hds Hdne]. fold d in Hds, Hdne.
  rewrite (path_join_safe T d Hds Hdne), (path_join_manifest (T ++ [d])).
  unfold bind at 1, pathExists at 1.
  assert (Hkeep : forall fs0 : node,
            (forall D, withoutIgnored fs D -> withoutIgnored fs0 D) ->
            Forall (cleanEntry T fs) (ls_imported st) ->
            Forall (cleanEntry T fs0) (ls_imported st)).
  { intros fs0 Hmono Hall. eapply Forall_impl; [| exact Hall].
    intros e (d0 & Hd0 & Hc0). exists d0. split; [exact Hd0 | now apply Hmono]. }
  assert (Hcopy : forall fs0 : node,
            (forall D, withoutIgnored fs D -> withoutIgnored fs0 D) ->
            lookup fs0 (T ++ [d]) = None ->
            forall name,
            bind (attempt (cp IMPORT_IGNORED_NAMES dir (T ++ [d])))
              (fun copied =>
                 match copied with
                 | Thrown err =>
                     ret (skip {| ls_imported := ls_imported st;
                                  ls_skipped := ls_skipped st;
                                  usedDestNames := set_add d (usedDestNames st) |}
                            {| skippedSourceDir := path_str dir; reason := copy_failed;
                               skippedMessage := js "copy failed: " ++ err |})
                 | Returned _ =>
                     ret {| ls_imported :=
                              ls_imported st ++
                                [{| name := name; sourceDir := path_str dir;
                                    destDir := path_str (T ++ [d]);
                                    skillPath := path_str ((T ++ [d]) ++ [SKILL_MD]) |}];
                            ls_skipped := ls_skipped st;
                            usedDestNames := set_add d (usedDestNames st) |}
                 end) fs0 = (Returned st', fs') ->
            Forall (cleanEntry T fs) (ls_imported st) ->
            Forall (cleanEntry T fs') (ls_imported st')).
  { intros fs0 Hmono Hfree name. unfold bind, attempt.
    destruct (cp IMPORT_IGNORED_NAMES dir (T ++ [d]) fs0) as [[[] | err] fs2] eqn:Hcp.
    - unfold ret. intros Heq Hall. injection Heq as <- <-. cbn [ls_imported].
      apply Forall_app. split.
      + eapply Forall_impl; [| exact Hall].
        intros e (d0 & Hd0 & Hc0). exists d0. split; [exact Hd0 |].
        eapply withoutIgnored_cp; [exact Hcp | exact Hfree | now apply Hmono].
      + constructor; [| constructor]. exists d. split; [reflexivity |].
        intros rel seg Hseg Hign. eapply ignored_names_skipped; eassumption.
    - apply cp_thrown in Hcp. subst fs2.
      unfold ret. intros Heq Hall. injection Heq as <- <-. cbn [skip ls_imported].
      now apply Hkeep. }
  destruct (lookup fs (T ++ [d])) as [old |] eqn:Hdest;
    destruct ow as [[|] |]; cbn [negb andb].
  - unfold bind at 1, rm at 1.
    apply (Hcopy (remove fs (T ++ [d]))).
    + intros D. apply withoutIgnored_remove.
    + apply remove_lookup_self. destruct T; discriminate.
  - unfold ret. intros Heq. injection Heq as <- <-. exact (fun H => H).
  - unfold ret. intros Heq. injection Heq as <- <-. exact (fun H => H).
  - unfold bind at 1, ret at 1. apply (Hcopy fs); [auto | exact Hdest].
  - unfold bind at 1, ret at 1. apply (Hcopy fs); [auto | exact Hdest].
  - unfold bind at 1, ret at 1. apply (Hcopy fs); [auto | exact Hdest].
Qed.

Lemma importAll_clean T ow dirs : forall st fs st' fs',
  importAll E T ow st dirs fs = (Returned st', fs') ->
  Forall (cleanEntry T fs) (ls_imported st) ->
  Forall (cleanEntry T fs') (ls_imported st').
Proof.
  induction dirs as [| dir rest IH]; intros st fs st' fs'; cbn [importAll].
  - unfold ret. intros Heq. injection Heq as <- <-. exact (fun H => H).
  - unfold bind.
    destruct (importOne E T ow st dir fs) as [[st1 | e] fs1] eqn:Hone; [| discriminate].
    intros Hrest Hall. eapply IH; [exact Hrest |].
    eapply importOne_clean; eassumption.
Qed.

Lemma importOne_apart T ow st dir fs q :
  apartFrom T q -> lookup (snd (importOne E T ow st dir fs)) q = lookup fs q.
Proof.
  intros Hq. unfold importOne. unfold bind at 1, attempt at 1.
  pose proof (readFile_state (path_join dir SKILL_MD) fs) as Hread.
  destruct (readFile (path_join dir SKILL_MD) fs) as [[content | err] fs1];
    cbn [snd] in Hread; subst fs1; [| reflexivity].
  set (base := sanitizeSkillDirName _).
  set (d := destName (usedDestNames st) base).
  destruct (sanitize_safe (match declared_name E content with
                           | Some n => n | None => basename dir end)) as [Hs Hne].
  fold base in Hs, Hne.
  destruct (destName_safe (usedDestNames st) base Hs Hne) as [Hds Hdne]. fold d in Hds, Hdne.
  rewrite (path_join_safe T d Hds Hdne).
  pose proof (apartFrom_child T d q Hq) as Hd.
  unfold bind at 1, pathExists at 1.
  assert (Hcopy : forall (fs0 : node) (k : outcome unit -> M LoopState),
            lookup fs0 q = lookup fs q ->
            (forall c fs2, lookup (snd (k c fs2)) q = lookup fs2 q) ->
            lookup (snd (bind (attempt (cp IMPORT_IGNORED_NAMES dir (T ++ [d]))) k fs0)) q
            = lookup fs q).
  { intros fs0 k Hfs0 Hk. unfold bind, attempt.
    pose proof (cp_apart IMPORT_IGNORED_NAMES dir (T ++ [d]) fs0 q Hd) as Hcp.
    destruct (cp IMPORT_IGNORED_NAMES dir (T ++ [d]) fs0) as [copied fs2].
    cbn [snd] in Hcp. rewrite Hk, Hcp. exact Hfs0. }
  destruct (lookup fs (T ++ [d])) as [old |];
    destruct ow as [[|] |]; cbn [negb andb]; try reflexivity.
  - unfold bind at 1, rm at 1. apply Hcopy.
    + destruct Hd as [H1 H2]. now apply remove_lookup_other.
    + intros [[] | err] fs2; reflexivity.
  - unfold bind at 1, ret at 1. apply Hcopy; [reflexivity |].
    intros [[] | err] fs2; reflexivity.
  - unfold bind at 1, ret at 1. apply Hcopy; [reflexivity |].
    intros [[] | err] fs2; reflexivity.
  - unfold bind at 1, ret at 1. apply Hcopy; [reflexivity |].
    intros [[] | err] fs2; reflexivity.
Qed.

Lemma importAll_apart T ow dirs q : forall st fs,
  apartFrom T q -> lookup (snd (importAll E T ow st dirs fs)) q = lookup fs q.
Proof.
  induction dirs as [| dir rest IH]; intros st fs Hq; cbn [importAll]; [reflexivity |].
  unfold bind. pose proof (importOne_apart T ow st dir fs q Hq) as Hone.
  destruct (importOne E T ow st dir fs) as [[st1 | e] fs1]; cbn [snd] in Hone.
  - rewrite IH by exact Hq. exact Hone.
  - exact Hone.
Qed.

End Loop.

(** X2: every entry that [importSkills] reports as imported lies directly
    in the target directory: its destination is a child of the target whose
    name is a word over letters, digits, hyphen and underscore (so no
    declared name can lead outside the target), and its manifest path is
    the SKILL.md of that child. *)
Theorem imported_entries_lie_in_target (E : Env) (params : SkillsImportRequest)
    (T : path) (fs fs' : node) (r : SkillsImportResult) :
  resolveTargetDir E params = Some T ->
  importSkills E params fs = (Returned r, fs') ->
  targetDir r = path_str T /\ Forall (child_entry T) (imported r).
Proof.
  intros HT. unfold importSkills, serializeByKey. rewrite HT.
  unfold bind at 1.
  destruct (resolveSource E params fs) as [[res | e] fs1]; [| discriminate].
  destruct (rootDir res) as [root |].
  2:{ unfold ret. intros Heq. injection Heq as <- _. split; [reflexivity | constructor]. }
  unfold bind, try_finally, importFrom, bind, pathExists.
  destruct (lookup fs1 root); cbn [negb].
  2:{ unfold ret at 1. destruct (run_cleanup_returns (cleanup res) fs1) as [fs3 ->].
      unfold ret. intros Heq. injection Heq as <- _. split; [reflexivity | constructor]. }
  destruct (ensureDir T fs1) as [[[] | e] fs2].
  2:{ destruct (run_cleanup_returns (cleanup res) fs2) as [fs3 ->]. discriminate. }
  unfold collectSkillDirs.
  destruct (length (collect IMPORT_IGNORED_NAMES fs2 root) =? 0).
  { unfold ret at 1.
    destruct (run_cleanup_returns (cleanup res) fs2) as [fs3 ->].
    unfold ret. intros Heq. injection Heq as <- _. split; [reflexivity | constructor]. }
  match goal with |- context [importAll E T ?ow ?st ?dirs fs2] =>
    destruct (importAll_cases E T ow dirs st fs2) as (st' & fs3 & -> & Hall & _) end.
  unfold ret at 1.
  destruct (run_cleanup_returns (cleanup res) fs3) as [fs4 ->].
  unfold ret. intros Heq. injection Heq as <- _. split; [reflexivity |].
  cbn [summarize imported]. apply Hall. constructor.
Qed.

Lemma imported_entries_lie_in_target_witness :
  let run := importSkills Sample.sampleEnv (Sample.request "/src") Sample.disk3 in
  let r := match fst run with Returned r => r | Thrown _ => failure [] [] [] end in
  map destDir (imported r) = [js "/ws/skills/a"; js "/ws/skills/a-3"]
  /\ targetDir r = js "/ws/skills"
  /\ Forall (child_entry [js "ws"; js "skills"]) (imported r).
Proof.
  intros run r. split; [vm_compute; reflexivity |].
  apply (imported_entries_lie_in_target Sample.sampleEnv (Sample.request "/src")
           [js "ws"; js "skills"] Sample.disk3 (snd run) r).
  - reflexivity.
  - vm_compute. reflexivity.
Defined.

(** X3: when the source resolves to a directory that exists and the target
    directory can be made, [importSkills] returns a result in which every
    directory that the scan found appears exactly once, as the source of an
    imported entry or of a skipped one. *)
Theorem every_found_directory_is_imported_or_skipped (E : Env)
    (params : SkillsImportRequest) (T : path) (fs fs0 fs1 : node) (res : Resolved)
    (root : path) :
  resolveTargetDir E params = Some T ->
  resolveSource E params fs = (Returned res, fs0) ->
  rootDir res = Some root ->
  lookup fs0 root <> None ->
  mkdirp fs0 T = Some fs1 ->
  exists r fs',
    importSkills E params fs = (Returned r, fs')
    /\ Permutation (map sourceDir (imported r) ++ map skippedSourceDir (skipped r))
         (map path_str (collect IMPORT_IGNORED_NAMES fs1 root)).
Proof.
  exact (found_directories_accounted E params T fs fs0 fs1 res root).
Qed.

Lemma every_found_directory_is_imported_or_skipped_witness :
  exists r fs',
    importSkills Sample.sampleEnv (Sample.request "/src") Sample.disk3 = (Returned r, fs')
    /\ Permutation (map sourceDir (imported r) ++ map skippedSourceDir (skipped r))
         [js "/src/x"; js "/src/y"; js "/src/z"].
Proof.
  apply (every_found_directory_is_imported_or_skipped Sample.sampleEnv
           (Sample.request "/src") [js "ws"; js "skills"] Sample.disk3 Sample.disk3
           (match mkdirp Sample.disk3 [js "ws"; js "skills"] with
            | Some fs1 => fs1 | None => Sample.disk3 end)
           {| rootDir := Some [js "src"]; cleanup := None; resolvedWarnings := [] |}
           [js "src"]).
  - reflexivity.
  - vm_compute. reflexivity.
  - reflexivity.
  - discriminate.
  - vm_compute. reflexivity.
Defined.

(** X4: when the source is not a local path and is cloned, the temporary
    directory made for the clone does not exist any more when [importSkills]
    is over, whether the clone failed, the import threw or skills were
    imported. *)
Theorem temporary_clone_is_always_removed (E : Env) (params : SkillsImportRequest)
    (T : path) (fs : node) (tmp : path) :
  let raw := trim (source params) in
  resolveTargetDir E params = Some T ->
  truthy raw = true ->
  lookup fs (resolveUserPath E raw) = None ->
  isGit (sourceParts E params raw) raw = true ->
  fst (mkdtemp E (tmpdir E) (js "openclaw-skill-import-") fs) = Returned tmp ->
  tmp <> [] ->
  lookup (snd (importSkills E params fs)) tmp = None.
Proof.
  intros raw HT Hs Hl Hg Htmp Hne. unfold importSkills, serializeByKey. rewrite HT.
  unfold bind at 1. unfold resolveSource. fold raw. rewrite Hs. cbn [negb].
  unfold bind at 1. unfold pathExists at 1. rewrite Hl, Hg. cbn [negb].
  unfold resolveRemote. unfold bind at 1.
  destruct (mkdtemp E (tmpdir E) (js "openclaw-skill-import-") fs) as [[tmp' | e] fs1];
    [| discriminate].
  cbn [fst] in Htmp. injection Htmp as ->.
  unfold bind at 1. unfold cloneRepo. unfold bind at 1.
  match goal with |- context [tryClone E ?t ?a ?c fs1] =>
    destruct (tryClone_returns E t a c fs1) as (clone & fs2 & ->) end.
  assert (Hfinish : forall fs2 w3,
    lookup (snd (bind (ret {| rootDir := Some (withSubdir (tmp ++ [js "repo"])
                                  (normalizedSubdir (sourceParts E params raw)));
                              cleanup := Some tmp;
                              resolvedWarnings :=
                                initialWarnings (sourceParts E params raw) ++ w3 |})
       (fun resolved =>
          match rootDir resolved with
          | None => ret (failure (last (resolvedWarnings resolved)
                                    (js "failed to resolve source")) (path_str T)
                           (resolvedWarnings resolved))
          | Some root =>
              bind (try_finally (importFrom E params T root (resolvedWarnings resolved))
                      (run_cleanup (cleanup resolved)))
                (fun r => match r with
                          | inl early => ret early
                          | inr st => ret (summarize T (resolvedWarnings resolved) st)
                          end)
          end) fs2)) tmp = None).
  { intros fs2' w3. unfold bind at 1, ret at 1. cbn [rootDir cleanup resolvedWarnings].
    unfold bind, try_finally, run_cleanup, rm.
    destruct (importFrom E params T _ _ fs2') as [[[early | st] | e] fs3];
      unfold ret; cbn [snd]; now apply remove_lookup_self. }
  assert (Hcheck : forall fs2,
    lookup (snd (bind (bind (checkoutRef E (clone_timeout params)
                               (sourceParts E params raw) (tmp ++ [js "repo"]))
                         (fun w3 => ret {| rootDir := Some (withSubdir (tmp ++ [js "repo"])
                                  (normalizedSubdir (sourceParts E params raw)));
                              cleanup := Some tmp;
                              resolvedWarnings :=
                                initialWarnings (sourceParts E params raw) ++ w3 |}))
       (fun resolved =>
          match rootDir resolved with
          | None => ret (failure (last (resolvedWarnings resolved)
                                    (js "failed to resolve source")) (path_str T)
                           (resolvedWarnings resolved))
          | Some root =>
              bind (try_finally (importFrom E params T root (resolvedWarnings resolved))
                      (run_cleanup (cleanup resolved)))
                (fun r => match r with
                          | inl early => ret early
                          | inr st => ret (summarize T (resolvedWarnings resolved) st)
                          end)
          end) fs2)) tmp = None).
  { intros fs2'. unfold bind at 1. unfold bind at 1. unfold checkoutRef.
    destruct (is_truthy (normalizedRef (sourceParts E params raw))).
    - unfold bind at 1.
      match goal with |- context [tryClone E ?t ?a ?c fs2'] =>
        destruct (tryClone_returns E t a c fs2') as (co & fs3 & ->) end.
      destruct (code_nonzero co); unfold ret at 1; apply (Hfinish fs3).
    - unfold ret at 1. apply (Hfinish fs2'). }
  destruct (code_nonzero clone).
  - unfold bind at 1.
    match goal with |- context [tryClone E ?t ?a ?c fs2] =>
      destruct (tryClone_returns E t a c fs2) as (full & fs3 & ->) end.
    destruct (code_nonzero full).
    + unfold bind, rm, ret. cbn [rootDir snd]. now apply remove_lookup_self.
    + unfold ret at 1. apply (Hcheck fs3).
  - unfold ret at 1. apply (Hcheck fs2).
Qed.

Lemma temporary_clone_is_always_removed_witness :
  lookup (snd (importSkills Sample.sampleEnv (Sample.request "https://github.com/a/b")
                 Sample.disk3))
    [js "tmp"; js "openclaw-skill-import-000000"] = None.
Proof.
  apply (temporary_clone_is_always_removed Sample.sampleEnv
           (Sample.request "https://github.com/a/b") [js "ws"; js "skills"] Sample.disk3
           [js "tmp"; js "openclaw-skill-import-000000"]).
  - reflexivity.
  - reflexivity.
  - reflexivity.
  - reflexivity.
  - vm_compute. reflexivity.
  - discriminate.
Defined.

(** X5: an import from a path that exists on the disk changes nothing
    outside the target directory: whatever lies neither in the target nor
    on the way to it is after the call what it was before, also when the
    call throws. *)
Theorem local_import_touches_only_the_target (E : Env) (params : SkillsImportRequest)
    (T : path) (fs : node) (n : node) (q : path) :
  let raw := trim (source params) in
  resolveTargetDir E params = Some T ->
  truthy raw = true ->
  lookup fs (resolveUserPath E raw) = Some n ->
  is_prefix T q = false ->
  is_prefix q T = false ->
  lookup (snd (importSkills E params fs)) q = lookup fs q.
Proof.
  intros raw HT Hraw Hfound H1 H2.
  assert (Hq : apartFrom T q) by (split; assumption).
  unfold importSkills, serializeByKey. rewrite HT. unfold bind at 1.
  rewrite (local_source_resolves E params fs n Hraw Hfound). cbn [rootDir cleanup
    resolvedWarnings run_cleanup].
  unfold bind at 1, try_finally, importFrom. unfold bind at 1, pathExists at 1.
  match goal with |- context [lookup fs ?root] =>
    destruct (lookup fs root) as [m |] end; cbn [negb]; [| reflexivity].
  unfold bind at 1, ensureDir at 1.
  destruct (mkdirp fs T) as [fs1 |] eqn:Hmk; [| reflexivity].
  assert (Hfs1 : lookup fs1 q = lookup fs q).
  { eapply mkdirp_lookup_other; eassumption. }
  unfold bind at 1, collectSkillDirs at 1.
  match goal with |- context [length ?l =? 0] => destruct (length l =? 0) end;
    [cbn; exact Hfs1 |].
  unfold bind at 1.
  match goal with |- context [importAll E T ?ow ?st ?dirs fs1] =>
    pose proof (importAll_apart E T ow dirs q st fs1 Hq) as Hall;
    destruct (importAll E T ow st dirs fs1) as [[st' | e] fs2] end;
    cbn [snd] in Hall; cbn; rewrite Hall; exact Hfs1.
Qed.

Lemma local_import_touches_only_the_target_witness :
  let q := [js "src"; js "my-skill"; js "node_modules"; js "dep"; js "SKILL.md"] in
  lookup Sample.disk1 q <> None
  /\ lookup (snd (importSkills Sample.sampleEnv (Sample.request "/src/my-skill")
                   Sample.disk1)) q
     = lookup Sample.disk1 q.
Proof.
  intros q. split; [vm_compute; discriminate |].
  apply (local_import_touches_only_the_target Sample.sampleEnv
           (Sample.request "/src/my-skill") [js "ws"; js "skills"] Sample.disk1
           (match lookup Sample.disk1 [js "src"; js "my-skill"] with
            | Some n => n | None => Other end) q);
    vm_compute; reflexivity.
Defined.

(** X6: no imported skill holds a directory of the ignore list: below the
    destination of every imported entry, no path through a name of
    [IMPORT_IGNORED_NAMES] exists when [importSkills] returns. *)
Theorem imported_skills_hold_no_ignored_directory (E : Env)
    (params : SkillsImportRequest) (T : path) (fs fs' : node) (r : SkillsImportResult) :
  resolveTargetDir E params = Some T ->
  importSkills E params fs = (Returned r, fs') ->
  forall e, In e (imported r) ->
    exists d,
      destDir e = path_str (T ++ [d])
      /\ forall rel seg,
           In seg rel -> In seg IMPORT_IGNORED_NAMES ->
           lookup fs' ((T ++ [d]) ++ rel) = None.
Proof.
  intros HT. unfold importSkills, serializeByKey. rewrite HT.
  unfold bind at 1.
  destruct (resolveSource E params fs) as [[res | e] fs1]; [| discriminate].
  destruct (rootDir res) as [root |].
  2:{ unfold ret. intros Heq. injection Heq as <- _. intros e []. }
  unfold bind, try_finally, importFrom, bind, pathExists.
  destruct (lookup fs1 root); cbn [negb].
  2:{ unfold ret at 1. destruct (run_cleanup_returns (cleanup res) fs1) as [fs3 ->].
      unfold ret. intros Heq. injection Heq as <- _. intros e []. }
  destruct (ensureDir T fs1) as [[[] | e] fs2].
  2:{ destruct (run_cleanup_returns (cleanup res) fs2) as [fs3 ->]. discriminate. }
  unfold collectSkillDirs.
  destruct (length (collect IMPORT_IGNORED_NAMES fs2 root) =? 0).
  { unfold ret at 1.
    destruct (run_cleanup_returns (cleanup res) fs2) as [fs3 ->].
    unfold ret. intros Heq. injection Heq as <- _. intros e []. }
  match goal with |- context [importAll E T ?ow ?st ?dirs fs2] =>
    destruct (importAll E T ow st dirs fs2) as [[st' | e] fs3] eqn:Hall end.
  2:{ destruct (run_cleanup_returns (cleanup res) fs3) as [fs4 ->]. discriminate. }
  apply importAll_clean in Hall; [| constructor].
  unfold ret at 1.
  assert (Hclean : exists fs4, run_cleanup (cleanup res) fs3 = (Returned tt, fs4)
                               /\ forall D, withoutIgnored fs3 D -> withoutIgnored fs4 D).
  { unfold run_cleanup. destruct (cleanup res) as [tmp |].
    - unfold rm. eexists. split; [reflexivity |]. intros D. apply withoutIgnored_remove.
    - unfold ret. eexists. split; [reflexivity | auto]. }
  destruct Hclean as (fs4 & -> & Hmono).
  unfold ret. intros Heq. injection Heq as <- <-. cbn [summarize imported].
  intros e He. rewrite Forall_forall in Hall.
  destruct (Hall e He) as (d & Hd & Hc). exists d. split; [exact Hd |].
  now apply Hmono.
Qed.

Lemma imported_skills_hold_no_ignored_directory_witness :
  let T := [js "ws"; js "skills"] in
  let run := importSkills Sample.sampleEnv (Sample.request "/src/my-skill") Sample.disk1 in
  let r := match fst run with Returned r => r | Thrown _ => failure [] [] [] end in
  map destDir (imported r) = [js "/ws/skills/My-Skill"]
  /\ forall e, In e (imported r) ->
       exists d,
         destDir e = path_str (T ++ [d])
         /\ forall rel seg,
              In seg rel -> In seg IMPORT_IGNORED_NAMES ->
              lookup (snd run) ((T ++ [d]) ++ rel) = None.
Proof.
  intros T run r. split; [vm_compute; reflexivity |].
  apply (imported_skills_hold_no_ignored_directory Sample.sampleEnv
           (Sample.request "/src/my-skill") T Sample.disk1 (snd run) r).
  - reflexivity.
  - vm_compute. reflexivity.
Defined.

End ImportMore.

(** ** The scan *)

Module ScanMore.

Import SortFacts.

Section Walk.
Variable ignored : list jsstring.

Lemma NoDup_found_add d found : NoDup found -> NoDup (found_add d found).
Proof.
  intros Hf. unfold found_add. destruct (existsb (path_eqb d) found) eqn:Hex; [exact Hf |].
  apply NoDup_app; [exact Hf | constructor; [intros [] | constructor] |].
  intros x Hx [Heq | []]. subst x.
  assert (existsb (path_eqb d) found = true); [| congruence].
  apply existsb_exists. exists d. split; [exact Hx | now apply path_eqb_eq].
Qed.

Lemma walk_NoDup n : forall dir depth found,
  NoDup found -> NoDup (walk ignored n dir depth found).
Proof.
  induction n as [r c | r es IH |] using node_induction; intros dir depth found Hf.
  - simpl. destruct (MAX_DEPTH <? depth); exact Hf.
  - destruct r.
    2:{ simpl. destruct (MAX_DEPTH <? depth); exact Hf. }
    rewrite walk_unfold_dir. destruct (MAX_DEPTH <? depth); [exact Hf |].
    assert (Hstart : NoDup (if has_manifest es then found_add dir found else found)).
    { destruct (has_manifest es); [now apply NoDup_found_add | exact Hf]. }
    revert Hstart. generalize (if has_manifest es then found_add dir found else found).
    induction IH as [| [name child] es' Hc _ IHes]; intros acc Hacc; simpl; [exact Hacc |].
    apply IHes. destruct (isDirectory child); simpl; [| exact Hacc].
    destruct (mem name ignored); [exact Hacc |]. now apply Hc.
  - simpl. destruct (MAX_DEPTH <? depth); exact Hf.
Qed.

Lemma collect_sorted fs root :
  NoDup (collect ignored fs root) /\ ascending (collect ignored fs root).
Proof.
  unfold collect. destruct (lookup fs root) as [n |].
  - split.
    + apply NoDup_stable_sort. apply walk_NoDup. constructor.
    + apply sorted_stable_sort.
      * intros a b. apply lex_leb_total.
      * intros a b c. apply lex_leb_trans.
  - split; constructor.
Qed.

Lemma Scanned_depth n depth rel :
  Scanned ignored n depth rel -> depth + length rel <= MAX_DEPTH.
Proof.
  induction 1 as [es depth Hd Hm | es depth name child rel Hd Hin Hdir Hign Hs IH]; simpl.
  - lia.
  - lia.
Qed.

Lemma collect_depth fs root p :
  In p (collect ignored fs root) ->
  exists rel, p = root ++ rel /\ length rel <= MAX_DEPTH.
Proof.
  intros Hp. apply collect_characterized in Hp as (n & rel & _ & -> & Hs).
  exists rel. split; [reflexivity |]. apply Scanned_depth in Hs. lia.
Qed.

Lemma collect_root fs root :
  In root (collect ignored fs root)
  <-> exists es, lookup fs root = Some (Dir true es) /\ has_manifest es = true.
Proof.
  rewrite collect_characterized. split.
  - intros (n & rel & Hl & Heq & Hs).
    assert (rel = []) as ->.
    { apply (app_inv_head root). now rewrite app_nil_r. }
    inversion Hs; subst. eauto.
  - intros (es & Hl & Hm). exists (Dir true es), []. split; [exact Hl |].
    split; [now rewrite app_nil_r |]. constructor; [unfold MAX_DEPTH; lia | exact Hm].
Qed.

End Walk.

(** X7: both scans, the one of the import and the one of the discovery,
    return and leave the disk as it is; the directories they return are
    pairwise different and in ascending order of their text, compared by
    UTF-16 code units. *)
Theorem scan_result_is_sorted_without_duplicates (fs : node) (root : path) :
  (exists dirs,
     SkillsImport.collectSkillDirs root fs = (Returned dirs, fs)
     /\ NoDup dirs /\ ascending dirs)
  /\ (exists dirs,
        SkillsDiscover.collectSkillDirs root fs = (Returned dirs, fs)
        /\ NoDup dirs /\ ascending dirs).
Proof.
  split; eexists; (split; [reflexivity | apply collect_sorted]).
Qed.

(** X8: every directory a scan returns lies at most 12 levels below the
    root of the scan, and the root itself is returned exactly when it is a
    directory that holds a SKILL.md file. *)
Theorem scan_depth_is_bounded_and_root_counts (fs : node) (root : path) :
  (exists dirs,
     SkillsImport.collectSkillDirs root fs = (Returned dirs, fs)
     /\ (forall p, In p dirs -> exists rel, p = root ++ rel /\ length rel <= 12)
     /\ (In root dirs
         <-> exists es, lookup fs root = Some (Dir true es) /\ has_manifest es = true))
  /\ (exists dirs,
        SkillsDiscover.collectSkillDirs root fs = (Returned dirs, fs)
        /\ (forall p, In p dirs -> exists rel, p = root ++ rel /\ length rel <= 12)
        /\ (In root dirs
            <-> exists es, lookup fs root = Some (Dir true es) /\ has_manifest es = true)).
Proof.
  split; eexists; (split; [reflexivity |]);
    (split; [intros p; apply collect_depth | apply collect_root]).
Qed.

End ScanMore.

(** ** Tokens and scores *)

Module DiscoverMore.

Import ListFacts.

Section Facts.
Variable U : UnicodeData.

(** X9: the tokens [pickQueryTokens] picks are pairwise different, at most
    [max 1 maxTokens] many, ordered longest first, each a non-empty token of
    the prompt; when the prompt is mostly ASCII none of them is an English
    stop word. *)
Theorem query_tokens_shape (prompt : jsstring) (maxTokens : nat) :
  let ts := pickQueryTokens U prompt maxTokens in
  NoDup ts
  /\ length ts <= Nat.max 1 maxTokens
  /\ longestFirst ts
  /\ (forall t, In t ts -> t <> [] /\ In t (tokenize U prompt))
  /\ (isMostlyAscii (tokenize U prompt) = true ->
      forall t, In t ts -> ~ In t ENGLISH_STOPWORDS).
Proof.
  intros ts. subst ts. unfold pickQueryTokens.
  set (asciiMode := isMostlyAscii (tokenize U prompt)).
  set (filtered := filter _ _).
  repeat split.
  - apply NoDup_firstn, NoDup_stable_sort, NoDup_set_of.
  - rewrite length_firstn. lia.
  - apply sorted_firstn.
    apply (sorted_impl _ (fun a b => (utf16_length b <=? utf16_length a) = true)).
    + intros a b. apply Nat.leb_le.
    + apply sorted_stable_sort.
      * intros a b Hab. apply Nat.leb_le. apply Nat.leb_gt in Hab. lia.
      * intros a b c Hab Hbc. apply Nat.leb_le. apply Nat.leb_le in Hab, Hbc. lia.
  - apply In_firstn in H. rewrite In_stable_sort, In_set_of in H.
    subst filtered. rewrite !filter_In in H. destruct H as [[_ Ht] _].
    intros ->. discriminate.
  - now apply (pickQueryTokens_sub U prompt maxTokens).
  - intros Hascii t Ht Hstop. apply In_firstn in Ht.
    rewrite In_stable_sort, In_set_of in Ht. subst filtered.
    rewrite filter_In in Ht. destruct Ht as [_ Ht]. subst asciiMode.
    rewrite Hascii in Ht. apply mem_In in Hstop. rewrite Hstop in Ht. discriminate.
Qed.

Lemma replace_lower_replace s :
  replace_char hyphen space (toLowerCase U (replace_char hyphen space s))
  = replace_char hyphen space (toLowerCase U s).
Proof.
  unfold replace_char, toLowerCase. rewrite !map_map. apply map_ext. intros c.
  destruct (N.eqb_spec c hyphen) as [-> | Hc]; reflexivity.
Qed.

(** X10: the score does not tell a hyphen in the name of a skill from a
    space: writing the hyphens of the name as spaces leaves
    [scoreSkillMatch] unchanged. *)
Theorem hyphens_in_a_name_count_as_spaces (p : ScoreParams) :
  scoreSkillMatch U (spelledWithSpaces p) = scoreSkillMatch U p.
Proof.
  assert (Hq : queryTokens U (spelledWithSpaces p) = queryTokens U p) by reflexivity.
  assert (Hd : descTokens U (spelledWithSpaces p) = descTokens U p) by reflexivity.
  assert (Hk : keywordTokens U (spelledWithSpaces p) = keywordTokens U p) by reflexivity.
  assert (Hn : nameTokens U (spelledWithSpaces p) = nameTokens U p).
  { unfold nameTokens, spelledWithSpaces. cbn [sp_name].
    destruct (sp_name p) as [n |]; [| reflexivity]. cbn [option_map or_empty].
    now rewrite tokenize_replace_hyphen. }
  assert (Hnorm : nameNorm U (spelledWithSpaces p) = nameNorm U p).
  { unfold nameNorm, spelledWithSpaces. cbn [sp_name].
    destruct (sp_name p) as [n |]; [| reflexivity]. cbn [option_map or_empty].
    now rewrite replace_lower_replace. }
  unfold scoreSkillMatch, bonusApplies, normalized, raw, joinedQuery.
  now rewrite Hq, Hd, Hk, Hn, Hnorm.
Qed.

End Facts.

End DiscoverMore.

(** ** Discovery *)

Module SkillsDiscoverMore.

Import SkillsImport SkillsDiscover.

Section Facts.
Variable U : UnicodeData.
Variable E : Env.
Variable W : Net.

Lemma Qltb_false a b : Qltb a b = false <-> (b <= a)%Q.
Proof.
  unfold Qltb. rewrite negb_false_iff. apply Qle_bool_iff.
Qed.

Lemma Qltb_true a b : Qltb a b = true <-> (a < b)%Q.
Proof.
  unfold Qltb. rewrite negb_true_iff. split.
  - intros Hf. apply Qnot_le_lt. intros Hle. apply Qle_bool_iff in Hle. congruence.
  - intros Hlt. destruct (Qle_bool b a) eqn:Hb; [| reflexivity].
    apply Qle_bool_iff in Hb. apply Qlt_not_le in Hlt. contradiction.
Qed.

Lemma rank_spec (prompt : jsstring) (index : SkillPoolIndex)
    (limit : nat) (threshold : Q) :
  let cs := rankSkillPoolIndex U prompt index limit threshold in
  length cs <= Nat.max 1 limit
  /\ bestFirst cs
  /\ forall c, In c cs ->
       (threshold <= score c)%Q
       /\ c_source c <> []
       /\ provider c = provider_skill_pool
       /\ exists entries entry url,
            skills index = Some entries /\ In entry entries
            /\ e_url entry = Some url /\ c_source c = trim url
            /\ score c = entryScore U prompt entry.
Proof.
  intros cs. subst cs. unfold rankSkillPoolIndex.
  set (scored := flat_map _ _).
  split; [rewrite length_firstn; lia |]. split.
  - apply sorted_firstn.
    apply (sorted_impl _ (fun a b => Qle_bool (score b) (score a) = true)).
    + intros a b. apply Qle_bool_iff.
    + apply sorted_stable_sort.
      * intros a b Hab. apply Qle_bool_iff.
        destruct (Qlt_le_dec (score b) (score a)) as [Hlt | Hle].
        -- apply Qlt_le_weak in Hlt. apply Qle_bool_iff in Hlt. congruence.
        -- exact Hle.
      * intros a b c Hab Hbc. apply Qle_bool_iff. apply Qle_bool_iff in Hab, Hbc.
        eapply Qle_trans; eassumption.
  - intros c Hc. apply In_firstn in Hc. rewrite In_stable_sort in Hc.
    subst scored. apply in_flat_map in Hc as (entry & Hin & Hc).
    destruct (skills index) as [entries |] eqn:Hsk; [| destruct Hin].
    destruct (e_url entry) as [url |] eqn:Hurl; [| destruct Hc].
    destruct (truthy (trim url)) eqn:Hu; cbn [negb] in Hc; [| destruct Hc].
    match type of Hc with In _ (if Qltb ?s _ then _ else _) =>
      destruct (Qltb s threshold) eqn:Hs end; [destruct Hc |].
    destruct Hc as [<- | []]. cbn [score c_source provider].
    apply Qltb_false in Hs.
    split; [exact Hs |]. split; [now apply truthy_nonempty |]. split; [reflexivity |].
    exists entries, entry, url. auto.
Qed.

(** X11: [rankSkillPoolIndex] returns at most [max 1 limit] candidates in
    descending order of score; each of them reaches the threshold, carries
    the provider skill-pool and comes from an entry of the index whose
    address, trimmed, is the non-empty source of the candidate and whose score is the
    one of the candidate. *)
Theorem ranked_candidates_shape (prompt : jsstring) (index : SkillPoolIndex)
    (limit : nat) (threshold : Q) :
  let cs := rankSkillPoolIndex U prompt index limit threshold in
  length cs <= Nat.max 1 limit
  /\ bestFirst cs
  /\ forall c, In c cs ->
       (threshold <= score c)%Q
       /\ c_source c <> []
       /\ provider c = provider_skill_pool
       /\ exists entries entry url,
            skills index = Some entries /\ In entry entries
            /\ e_url entry = Some url /\ c_source c = trim url
            /\ score c = entryScore U prompt entry.
Proof. exact (rank_spec prompt index limit threshold). Qed.


Lemma bestCandidate_inv prompt fullName branch stars threshold repoDir dirs :
  forall best fs o fs',
    (forall b, best = Some b -> fromGitHub threshold b) ->
    bestCandidate U E prompt fullName branch stars threshold repoDir dirs best fs
    = (Returned o, fs') ->
    forall b, o = Some b -> fromGitHub threshold b.
Proof.
  induction dirs as [| dir rest IH]; intros best fs o fs' Hbest.
  - simpl. unfold ret. intros Heq. injection Heq as <- _. exact Hbest.
  - cbn [bestCandidate]. unfold bind at 1, attempt at 1.
    destruct (readFile (path_join dir SKILL_MD) fs) as [[content | err] fs1].
    2:{ apply IH. exact Hbest. }
    cbv zeta.
    match goal with |- context [Qltb ?s threshold] =>
      destruct (Qltb s threshold) eqn:Hs end.
    + apply IH. exact Hbest.
    + apply IH. apply Qltb_false in Hs.
      destruct best as [b0 |].
      * match goal with |- context [Qltb ?x ?y] => destruct (Qltb x y) end.
        -- intros b Hb. injection Hb as <-. split; [reflexivity | exact Hs].
        -- exact Hbest.
      * intros b Hb. injection Hb as <-. split; [reflexivity | exact Hs].
Qed.

Lemma scanRepo_inv prompt timeoutMs threshold fullName cloneUrl branch stars repoDir fs b fs' :
  scanRepo U E prompt timeoutMs threshold fullName cloneUrl branch stars repoDir fs
  = (Returned (Found b), fs') ->
  fromGitHub threshold b.
Proof.
  unfold scanRepo. unfold bind at 1.
  destruct (runCommandWithTimeout E _ None timeoutMs fs) as [[clone | e] fs1]; [| discriminate].
  unfold bind at 1.
  match goal with |- context [(if code_nonzero clone then ?a else ?b) fs1] =>
    destruct ((if code_nonzero clone then a else b) fs1) as [[failed | e] fs2] end;
    [| discriminate].
  destruct failed as [warning |]; [discriminate |].
  unfold bind at 1, collectSkillDirs at 1.
  destruct (length (collect DISCOVERY_IGNORED_NAMES fs2 repoDir) =? 0); [discriminate |].
  unfold bind at 1.
  destruct (bestCandidate U E prompt fullName branch stars threshold repoDir _ None fs2)
    as [[[best |] | e] fs3] eqn:Hbest; try discriminate.
  unfold ret. intros Heq. injection Heq as <- _.
  eapply bestCandidate_inv; [| exact Hbest | reflexivity]. discriminate.
Qed.

Lemma scanRepos_inv prompt timeoutMs threshold repos : forall warnings fs cs ws fs',
  scanRepos U E prompt timeoutMs threshold repos warnings fs = (Returned (cs, ws), fs') ->
  length cs <= 1 /\ Forall (fromGitHub threshold) cs.
Proof.
  induction repos as [| repo rest IH]; intros warnings fs cs ws fs'.
  - simpl. unfold ret. intros Heq. injection Heq as <- _ _. split; [simpl; lia | constructor].
  - cbn [scanRepos]. cbv zeta.
    match goal with |- context [if ?c then _ else _] => destruct c end.
    { apply IH. }
    unfold bind at 1.
    destruct (mkdtemp E (tmpdir E) _ fs) as [[tmpDir | e] fs1]; [| discriminate].
    unfold bind at 1, try_finally at 1, try_catch at 1.
    destruct (scanRepo U E prompt timeoutMs threshold _ _ _ _ _ fs1)
      as [[[w | b] | e] fs2] eqn:Hscan; unfold rm, ret.
    + apply IH.
    + intros Heq. injection Heq as <- _ _. split; [simpl; lia |].
      constructor; [| constructor]. eapply scanRepo_inv. exact Hscan.
    + apply IH.
Qed.

Lemma discoverFromGitHub_inv prompt limit token timeoutMs threshold fs cs ws urls fs' :
  discoverFromGitHub U E W prompt limit token timeoutMs threshold fs
  = (Returned (cs, ws, urls), fs') ->
  length cs <= 1 /\ Forall (fromGitHub threshold) cs
  /\ urls = [RepoSearch (buildGitHubRepoSearchQuery U prompt) (js "stars") (js "desc")
               (Nat.max 1 (Nat.min 10 limit))].
Proof.
  unfold discoverFromGitHub. cbv zeta.
  destruct (fetchJsonWithTimeout W _ token timeoutMs) as [err | data].
  { unfold ret. intros Heq. injection Heq as <- _ <- _.
    split; [simpl; lia |]. split; [constructor | reflexivity]. }
  destruct (length _ =? 0).
  { unfold ret. intros Heq. injection Heq as <- _ <- _.
    split; [simpl; lia |]. split; [constructor | reflexivity]. }
  unfold bind.
  destruct (scanRepos U E prompt timeoutMs threshold _ [] fs) as [[[cs' ws'] | e] fs1] eqn:Hscan;
    [| discriminate].
  unfold ret. intros Heq. injection Heq as <- _ <- _. cbn [fst].
  destruct (scanRepos_inv _ _ _ _ _ _ _ _ _ Hscan) as [Hlen Hall].
  auto.
Qed.


Lemma viaGitHub_inv params prompt' limit' timeout warnings fetched fs res urls fs' :
  viaGitHub U E W params prompt' limit' timeout warnings fetched fs
  = (Returned (res, urls), fs') ->
  (d_ok res = true <-> candidates res <> [])
  /\ length (candidates res) <= 1
  /\ Forall (fromGitHub thresholdGitHub) (candidates res)
  /\ urls = fetched ++ [RepoSearch (buildGitHubRepoSearchQuery U prompt') (js "stars")
                          (js "desc") (Nat.max 1 (Nat.min 10 limit'))].
Proof.
  unfold viaGitHub. cbv zeta. unfold bind.
  match goal with |- context [discoverFromGitHub U E W prompt' limit' ?tok timeout ?th fs] =>
    destruct (discoverFromGitHub U E W prompt' limit' tok timeout th fs)
      as [[[[cs ws] us] | e] fs1] eqn:Hgh end; [| discriminate].
  destruct (discoverFromGitHub_inv _ _ _ _ _ _ _ _ _ _ Hgh) as (Hlen & Hall & ->).
  cbn [fst snd].
  destruct cs as [| c cs]; cbn [length Nat.ltb Nat.leb];
    unfold ret; intros Heq; injection Heq as <- <- _; cbn [d_ok candidates].
  - split; [split; [discriminate | intros Hn; now elim Hn] |]. auto.
  - split; [split; [discriminate | reflexivity] |]. auto.
Qed.

Lemma rank_providers prompt index limit threshold :
  Forall (fun c => provider c = provider_skill_pool /\ (threshold <= score c)%Q)
    (rankSkillPoolIndex U prompt index limit threshold).
Proof.
  apply Forall_forall. intros c Hc.
  destruct (rank_spec prompt index limit threshold) as (_ & _ & Hin).
  destruct (Hin c Hc) as (Hs & _ & Hp & _). auto.
Qed.

Lemma bestFirst_short cs : length cs <= 1 -> bestFirst cs.
Proof.
  destruct cs as [| c [| c' cs]]; simpl; intros Hlen; [constructor | | lia].
  constructor; constructor.
Qed.

(** The ways a call of [discoverSkills] can end with a result. *)
Lemma discoverSkills_cases params fs res fetched fs' :
  discoverSkills U E W params fs = (Returned (res, fetched), fs') ->
  (res = no_result (js "prompt is required") [] /\ fetched = [] /\ fs' = fs
   /\ truthy (trim (prompt params)) = false)
  \/ (exists t, mode params = Some (other_mode t)
                /\ res = no_result (js "Unknown mode: " ++ t) []
                /\ fetched = [] /\ fs' = fs)
  \/ (mode params <> Some github
      /\ exists ranked,
           ranked <> [] /\ length ranked <= 10 /\ bestFirst ranked
           /\ Forall (fun c => provider c = provider_skill_pool
                               /\ (thresholdSkillPool <= score c)%Q) ranked
           /\ res = found_result ranked (js "skill-pool") []
           /\ fetched = [SKILL_POOL_INDEX_URL] /\ fs' = fs)
  \/ (mode params = Some skill_pool
      /\ exists warnings,
           res = no_result (js "No candidates found via skill-pool") warnings
           /\ fetched = [SKILL_POOL_INDEX_URL] /\ fs' = fs)
  \/ (mode params <> Some skill_pool
      /\ (d_ok res = true <-> candidates res <> [])
      /\ length (candidates res) <= 1
      /\ Forall (fromGitHub thresholdGitHub) (candidates res)
      /\ exists q n,
           1 <= n <= 10
           /\ fetched = (if match mode params with Some github => true | _ => false end
                         then [] else [SKILL_POOL_INDEX_URL])
                        ++ [RepoSearch q (js "stars") (js "desc") n]).
Proof.
  unfold discoverSkills, serializeByKey. cbv zeta.
  set (prompt' := trim (prompt params)).
  destruct (truthy prompt'); cbn [negb].
  2:{ unfold ret. intros Heq. injection Heq as <- <- <-. left. auto. }
  set (limit' := match limit params with Some l => _ | None => 5 end).
  assert (Hlimit : Nat.max 1 limit' <= 10).
  { subst limit'. destruct (limit params); lia. }
  set (timeout := match d_timeoutMs params with Some t => _ | None => _ end).
  assert (Hgh : forall warnings fetched0,
    viaGitHub U E W params prompt' limit' timeout warnings fetched0 fs
    = (Returned (res, fetched), fs') ->
    (d_ok res = true <-> candidates res <> [])
    /\ length (candidates res) <= 1
    /\ Forall (fromGitHub thresholdGitHub) (candidates res)
    /\ exists q n, 1 <= n <= 10
                   /\ fetched = fetched0 ++ [RepoSearch q (js "stars") (js "desc") n]).
  { intros warnings fetched0 Hvia.
    apply viaGitHub_inv in Hvia as (Hok & Hlen & Hall & ->).
    split; [exact Hok |]. split; [exact Hlen |]. split; [exact Hall |].
    eexists _, _. split; [| reflexivity]. lia. }
  assert (Hstage : forall m,
    (m = auto \/ m = skill_pool) ->
    (let idx := fetchJsonWithTimeout W SKILL_POOL_INDEX_URL None timeout in
     let ranked := match idx with
                   | inr doc => rankSkillPoolIndex U prompt' (asIndex doc) limit'
                                  thresholdSkillPool
                   | inl _ => []
                   end in
     let warnings := match idx with
                     | inr _ => []
                     | inl err => [js "skill-pool index fetch failed: " ++ err]
                     end in
     if 0 <? length ranked
     then ret (found_result ranked (js "skill-pool") warnings, [SKILL_POOL_INDEX_URL])
     else match m with
          | skill_pool =>
              ret (no_result (js "No candidates found via skill-pool") warnings,
                   [SKILL_POOL_INDEX_URL])
          | _ => viaGitHub U E W params prompt' limit' timeout warnings [SKILL_POOL_INDEX_URL]
          end) fs = (Returned (res, fetched), fs') ->
    (exists ranked,
       ranked <> [] /\ length ranked <= 10 /\ bestFirst ranked
       /\ Forall (fun c => provider c = provider_skill_pool
                           /\ (thresholdSkillPool <= score c)%Q) ranked
       /\ res = found_result ranked (js "skill-pool") []
       /\ fetched = [SKILL_POOL_INDEX_URL] /\ fs' = fs)
    \/ (m = skill_pool
        /\ exists warnings,
             res = no_result (js "No candidates found via skill-pool") warnings
             /\ fetched = [SKILL_POOL_INDEX_URL] /\ fs' = fs)
    \/ (m = auto
        /\ (d_ok res = true <-> candidates res <> [])
        /\ length (candidates res) <= 1
        /\ Forall (fromGitHub thresholdGitHub) (candidates res)
        /\ exists q n, 1 <= n <= 10
             /\ fetched = [SKILL_POOL_INDEX_URL] ++ [RepoSearch q (js "stars") (js "desc") n])).
  { intros m Hm. cbv zeta.
    assert (Hmiss : forall warnings,
      match m with
      | skill_pool =>
          ret (no_result (js "No candidates found via skill-pool") warnings,
               [SKILL_POOL_INDEX_URL])
      | _ => viaGitHub U E W params prompt' limit' timeout warnings [SKILL_POOL_INDEX_URL]
      end fs = (Returned (res, fetched), fs') ->
      (m = skill_pool
        /\ exists warnings,
             res = no_result (js "No candidates found via skill-pool") warnings
             /\ fetched = [SKILL_POOL_INDEX_URL] /\ fs' = fs)
      \/ (m = auto
        /\ (d_ok res = true <-> candidates res <> [])
        /\ length (candidates res) <= 1
        /\ Forall (fromGitHub thresholdGitHub) (candidates res)
        /\ exists q n, 1 <= n <= 10
             /\ fetched = [SKILL_POOL_INDEX_URL] ++ [RepoSearch q (js "stars") (js "desc") n])).
    { intros warnings. destruct Hm as [-> | ->].
      - intros Hvia. right. split; [reflexivity |]. now apply (Hgh warnings).
      - unfold ret. intros Heq. injection Heq as <- <- <-. left. eauto. }
    destruct (fetchJsonWithTimeout W SKILL_POOL_INDEX_URL None timeout) as [err | doc].
    - cbn [length Nat.ltb Nat.leb]. intros Hrun. right. eapply Hmiss. exact Hrun.
    - destruct (0 <? length (rankSkillPoolIndex U prompt' (asIndex doc) limit'
                              thresholdSkillPool)) eqn:Hpos.
      + unfold ret. intros Heq. injection Heq as <- <- <-. left.
        eexists. split; [apply length_pos_nonempty; exact Hpos |].
        * destruct (rank_spec prompt' (asIndex doc) limit' thresholdSkillPool)
            as (Hlen & Hbest & _).
          split; [lia |]. split; [exact Hbest |].
          split; [apply rank_providers | auto].
      + intros Hrun. right. eapply Hmiss. exact Hrun. }
  destruct (mode params) as [[| | | t] |].
  - intros Hrun. right. destruct (Hstage auto (or_introl eq_refl) Hrun)
      as [Hhit | [[Hm _] | (_ & Hgit)]]; [| discriminate |].
    + right. left. split; [discriminate | exact Hhit].
    + right. right. right. split; [discriminate | exact Hgit].
  - intros Hrun. right. destruct (Hstage skill_pool (or_intror eq_refl) Hrun)
      as [Hhit | [[_ Hmiss] | (Hm & _)]]; [| | discriminate].
    + right. left. split; [discriminate | exact Hhit].
    + right. right. left. split; [reflexivity | exact Hmiss].
  - intros Hrun. right. right. right. right. split; [discriminate |]. now apply (Hgh [] []).
  - unfold ret. intros Heq. injection Heq as <- <- <-. right. left. eauto.
  - intros Hrun. right. destruct (Hstage auto (or_introl eq_refl) Hrun)
      as [Hhit | [[Hm _] | (_ & Hgit)]]; [| discriminate |].
    + right. left. split; [discriminate | exact Hhit].
    + right. right. right. split; [discriminate | exact Hgit].
Qed.

Lemma discovery_shape (params : SkillsDiscoverRequest) (fs fs' : node)
    (res : SkillsDiscoverResult) (fetched : list Endpoint) :
  discoverSkills U E W params fs = (Returned (res, fetched), fs') ->
  (d_ok res = true <-> candidates res <> [])
  /\ length (candidates res) <= 10
  /\ bestFirst (candidates res)
  /\ forall c, In c (candidates res) ->
       (provider c = provider_skill_pool /\ (thresholdSkillPool <= score c)%Q)
       \/ (provider c = provider_github /\ (thresholdGitHub <= score c)%Q).
Proof.
  intros Hrun.
  destruct (discoverSkills_cases _ _ _ _ _ Hrun)
    as [(-> & _) | [(t & _ & -> & _) | [(_ & ranked & Hne & Hlen & Hbest & Hall & -> & _)
        | [(_ & ws & -> & _) | (_ & Hok & Hlen & Hall & _)]]]];
    cbn [no_result found_result d_ok candidates].
  - split; [split; [discriminate | intros Hn; now elim Hn] |].
    split; [simpl; lia |]. split; [constructor | intros c []].
  - split; [split; [discriminate | intros Hn; now elim Hn] |].
    split; [simpl; lia |]. split; [constructor | intros c []].
  - split; [split; [intros _; exact Hne | reflexivity] |]. split; [exact Hlen |].
    split; [exact Hbest |]. intros c Hc. left. rewrite Forall_forall in Hall. now apply Hall.
  - split; [split; [discriminate | intros Hn; now elim Hn] |].
    split; [simpl; lia |]. split; [constructor | intros c []].
  - split; [exact Hok |]. split; [lia |]. split; [now apply bestFirst_short |].
    intros c Hc. right. rewrite Forall_forall in Hall. now apply Hall.
Qed.

(** X12: when [discoverSkills] returns, the result is ok exactly when it
    has a candidate; there are at most 10 candidates, in descending order
    of score, and each either comes from the skill pool with a score of at
    least 0.25 or from GitHub with a score of at least 0.35. *)
Theorem discovery_result_shape (params : SkillsDiscoverRequest) (fs fs' : node)
    (res : SkillsDiscoverResult) (fetched : list Endpoint) :
  discoverSkills U E W params fs = (Returned (res, fetched), fs') ->
  (d_ok res = true <-> candidates res <> [])
  /\ length (candidates res) <= 10
  /\ bestFirst (candidates res)
  /\ forall c, In c (candidates res) ->
       (provider c = provider_skill_pool /\ (25 # 100 <= score c)%Q)
       \/ (provider c = provider_github /\ (35 # 100 <= score c)%Q).
Proof. exact (discovery_shape params fs fs' res fetched). Qed.

(** X13: the mode restricts the stages.  In mode skill-pool,
    [discoverSkills] fetches nothing but the index of the pool, leaves the
    disk as it is and returns only candidates of the pool; in mode github it
    never fetches the index and returns only candidates of GitHub. *)
Theorem discovery_modes_are_respected (params : SkillsDiscoverRequest) (fs fs' : node)
    (res : SkillsDiscoverResult) (fetched : list Endpoint) :
  discoverSkills U E W params fs = (Returned (res, fetched), fs') ->
  (mode params = Some skill_pool ->
   fs' = fs
   /\ (forall url, In url fetched -> url = SKILL_POOL_INDEX_URL)
   /\ forall c, In c (candidates res) -> provider c = provider_skill_pool)
  /\ (mode params = Some github ->
      ~ In SKILL_POOL_INDEX_URL fetched
      /\ forall c, In c (candidates res) -> provider c = provider_github).
Proof.
  intros Hrun.
  destruct (discoverSkills_cases _ _ _ _ _ Hrun)
    as [(-> & -> & -> & _) | [(t & Hm & -> & -> & ->)
        | [(Hm & ranked & Hne & Hlen & Hbest & Hall & -> & -> & ->)
        | [(Hm & ws & -> & -> & ->) | (Hm & Hok & Hlen & Hall & q & n & Hn & ->)]]]];
    cbn [no_result found_result d_ok candidates].
  - split; intros _; [split; [reflexivity |]; split |]; [intros url [] | intros c [] |].
    split; [intros [] | intros c []].
  - rewrite Hm. split; discriminate.
  - split.
    + intros _. split; [reflexivity |]. split.
      * intros url [<- | []]. reflexivity.
      * intros c Hc. rewrite Forall_forall in Hall. now apply Hall.
    + intros Hg. contradiction.
  - rewrite Hm. split; [| discriminate]. intros _. split; [reflexivity |]. split.
    + intros url [<- | []]. reflexivity.
    + intros c [].
  - split; [intros Hp; contradiction |]. intros Hg. rewrite Hg. split.
    + intros [Hin | []]. discriminate.
    + intros c Hc. rewrite Forall_forall in Hall. now apply Hall.
Qed.

(** X14: a result with a candidate of the skill pool was found without
    GitHub: only the index was fetched, the disk is as it was, there are no
    warnings and every candidate is one of the pool. *)
Theorem pool_candidates_mean_no_github_traffic (params : SkillsDiscoverRequest)
    (fs fs' : node) (res : SkillsDiscoverResult) (fetched : list Endpoint) :
  discoverSkills U E W params fs = (Returned (res, fetched), fs') ->
  (exists c, In c (candidates res) /\ provider c = provider_skill_pool) ->
  fetched = [SKILL_POOL_INDEX_URL] /\ fs' = fs
  /\ d_warnings res = []
  /\ forall c, In c (candidates res) -> provider c = provider_skill_pool.
Proof.
  intros Hrun (c0 & Hc0 & Hp0).
  destruct (discoverSkills_cases _ _ _ _ _ Hrun)
    as [(-> & _) | [(t & _ & -> & _)
        | [(_ & ranked & Hne & Hlen & Hbest & Hall & -> & -> & ->)
        | [(_ & ws & -> & _) | (_ & _ & _ & Hall & _)]]]];
    cbn [no_result found_result candidates d_warnings] in *; try contradiction.
  - repeat split. intros c Hc. rewrite Forall_forall in Hall. now apply Hall.
  - rewrite Forall_forall in Hall. destruct (Hall c0 Hc0) as [Hp _]. congruence.
Qed.

End Facts.

Lemma discovery_result_shape_witness :
  let run := discoverSkills basic_latin Sample.sampleEnv SampleMore.poolNet
               (SampleMore.discoverRequest "invoice git push" None) Sample.disk1 in
  let res := match fst run with
             | Returned found => fst found
             | Thrown _ => no_result [] []
             end in
  map c_source (candidates res)
  = [js "https://github.com/acme/skills/tree/main/git-pushing"; js "/src/my-skill"]
  /\ (d_ok res = true <-> candidates res <> [])
  /\ length (candidates res) <= 10
  /\ bestFirst (candidates res)
  /\ forall c, In c (candidates res) ->
       (provider c = provider_skill_pool /\ (25 # 100 <= score c)%Q)
       \/ (provider c = provider_github /\ (35 # 100 <= score c)%Q).
Proof.
  intros run res. split; [vm_compute; reflexivity |].
  apply (discovery_result_shape basic_latin Sample.sampleEnv SampleMore.poolNet
           (SampleMore.discoverRequest "invoice git push" None) Sample.disk1 (snd run)
           res [SKILL_POOL_INDEX_URL]).
  vm_compute. reflexivity.
Defined.

Lemma discovery_modes_are_respected_witness :
  let params := SampleMore.discoverRequest "invoice git push" (Some skill_pool) in
  let run := discoverSkills basic_latin Sample.sampleEnv SampleMore.poolNet params
               Sample.disk1 in
  let res := match fst run with
             | Returned found => fst found
             | Thrown _ => no_result [] []
             end in
  length (candidates res) = 2
  /\ snd run = Sample.disk1
  /\ (forall url, In url [SKILL_POOL_INDEX_URL] -> url = SKILL_POOL_INDEX_URL)
  /\ forall c, In c (candidates res) -> provider c = provider_skill_pool.
Proof.
  intros params run res. split; [vm_compute; reflexivity |].
  apply (discovery_modes_are_respected basic_latin Sample.sampleEnv SampleMore.poolNet
           params Sample.disk1 (snd run) res [SKILL_POOL_INDEX_URL]).
  - vm_compute. reflexivity.
  - reflexivity.
Defined.

Lemma pool_candidates_mean_no_github_traffic_witness :
  let params := SampleMore.discoverRequest "invoice organizer" None in
  let run := discoverSkills basic_latin Sample.sampleEnv SampleMore.poolNet params
               Sample.disk1 in
  let res := match fst run with
             | Returned found => fst found
             | Thrown _ => no_result [] []
             end in
  let fetched := match fst run with
                 | Returned found => snd found
                 | Thrown _ => []
                 end in
  map c_source (candidates res) = [js "/src/my-skill"]
  /\ fetched = [SKILL_POOL_INDEX_URL] /\ snd run = Sample.disk1
  /\ d_warnings res = []
  /\ forall c, In c (candidates res) -> provider c = provider_skill_pool.
Proof.
  intros params run res fetched. split; [vm_compute; reflexivity |].
  apply (pool_candidates_mean_no_github_traffic basic_latin Sample.sampleEnv
           SampleMore.poolNet params Sample.disk1 (snd run) res fetched).
  - vm_compute. reflexivity.
  - exists (hd {| c_source := []; score := 0; provider := provider_github;
                  c_reason := []; c_skillName := None; c_description := None;
                  repoFullName := None; repoStars := None;
                  repoDefaultBranch := None; c_subdir := None |} (candidates res)).
    split; [vm_compute; left; reflexivity | vm_compute; reflexivity].
Defined.

End SkillsDiscoverMore.

(** ** Tree addresses *)

Module TreeUrlFacts.

Import SkillsImport SkillsDiscover.

Lemma split_on_segment c seg rest : forall cur,
  Forall (fun x => (x =? c)%N = false) seg ->
  split_on c (seg ++ c :: rest) cur = (cur ++ seg) :: split_on c rest [].
Proof.
  induction seg as [| x seg IH]; intros cur Hseg; simpl.
  - rewrite N.eqb_refl. now rewrite app_nil_r.
  - inversion Hseg as [| ? ? Hx Hseg']; subst. rewrite Hx.
    rewrite IH by exact Hseg'. now rewrite <- app_assoc.
Qed.

Lemma split_on_flat q :
  Forall plainSegment q -> q <> [] ->
  split_on slash (flat_map (fun seg => slash :: seg) q) [] = [] :: q.
Proof.
  induction q as [| seg q IH]; intros Hq Hne; [now elim Hne |].
  inversion Hq as [| ? ? [Hs1 Hs2] Hq']; subst.
  cbn [flat_map app split_on]. rewrite N.eqb_refl. f_equal.
  destruct q as [| seg' q'].
  - cbn [flat_map]. rewrite app_nil_r.
    now rewrite (split_on_no_separator slash seg [] Hs2).
  - specialize (IH Hq' ltac:(discriminate)).
    cbn [flat_map app split_on] in IH. rewrite N.eqb_refl in IH. injection IH as IH.
    cbn [flat_map app]. rewrite (split_on_segment slash seg _ [] Hs2). simpl.
    now rewrite IH.
Qed.

Lemma filter_plain q : Forall plainSegment q -> filter truthy q = q.
Proof.
  induction 1 as [| seg q [Hne _] _ IH]; simpl; [reflexivity |].
  destruct seg; [now elim Hne |]. simpl. now rewrite IH.
Qed.

Lemma split_on_path_str p :
  Forall plainSegment p -> p <> [] ->
  filter truthy (split_on slash (path_str p) []) = p.
Proof.
  intros Hp Hne. unfold path_str. destruct p as [| seg0 p0] eqn:Heq; [now elim Hne |].
  rewrite <- Heq in *. rewrite (split_on_flat p Hp Hne). simpl. now apply filter_plain.
Qed.

Lemma join_slash segs :
  segs <> [] -> flat_map (fun seg => slash :: seg) segs = slash :: join [slash] segs.
Proof.
  induction segs as [| seg segs IH]; intros Hne; [now elim Hne |].
  destruct segs as [| seg' segs'].
  - simpl. now rewrite app_nil_r.
  - specialize (IH ltac:(discriminate)). cbn [flat_map] in *. rewrite IH.
    reflexivity.
Qed.

Lemma join_plain_head segs :
  Forall plainSegment segs ->
  drop_while (fun c => (c =? slash)%N) (join [slash] segs) = join [slash] segs.
Proof.
  intros Hs. apply drop_while_fixed.
  destruct segs as [| seg segs]; [exact I |].
  inversion Hs as [| ? ? [Hne Hfree] _]; subst.
  destruct seg as [| c seg]; [now elim Hne |].
  inversion Hfree; subst.
  destruct segs; simpl; assumption.
Qed.

Lemma join_plain_nonempty segs :
  Forall plainSegment segs -> segs <> [] -> join [slash] segs <> [].
Proof.
  intros Hs Hne. destruct segs as [| seg segs]; [now elim Hne |].
  inversion Hs as [| ? ? [Hseg _] _]; subst.
  destruct seg; [now elim Hseg |]. destruct segs; discriminate.
Qed.

Lemma url_char_bounds c : is_url_char c = true -> (45 <= c <= 122)%N.
Proof.
  unfold is_url_char, is_safe_char, ascii_alnum, underscore, dash.
  rewrite !orb_true_iff, !andb_true_iff, !N.leb_le, !N.eqb_eq. lia.
Qed.

Lemma url_char_no_space c : is_url_char c = true -> is_space c = false.
Proof.
  intros Hc. apply url_char_bounds in Hc. unfold is_space.
  repeat match goal with
         | |- context [(?a <=? ?b)%N] =>
             first [ replace (a <=? b)%N with false by (symmetry; apply N.leb_gt; lia)
                   | replace (a <=? b)%N with true by (symmetry; apply N.leb_le; lia) ]
         | |- context [(?a =? ?b)%N] =>
             replace (a =? b)%N with false by (symmetry; apply N.eqb_neq; lia)
         end.
  reflexivity.
Qed.

Lemma url_char_no_slash c : is_url_char c = true -> (c =? slash)%N = false.
Proof.
  unfold is_url_char, is_safe_char, ascii_alnum, underscore, dash, slash.
  rewrite !orb_true_iff, !andb_true_iff, !N.leb_le, !N.eqb_eq, N.eqb_neq. lia.
Qed.

Lemma urlSegment_plain s : urlSegment s -> plainSegment s.
Proof.
  intros (Hne & Hall & _). split; [exact Hne |].
  eapply Forall_impl; [| exact Hall]. exact url_char_no_slash.
Qed.

Lemma trim_no_space s : Forall (fun c => is_space c = false) s -> trim s = s.
Proof.
  intros Hs. unfold trim, trimStart, trimEnd.
  assert (Hfix : forall t, Forall (fun c => is_space c = false) t ->
                           drop_while is_space t = t).
  { intros t Ht. apply drop_while_fixed. destruct Ht; [exact I | assumption]. }
  rewrite (Hfix s Hs), (Hfix (rev s)); [apply rev_involutive |].
  now apply Forall_rev.
Qed.

Lemma join_no_space segs :
  Forall urlSegment segs -> Forall (fun c => is_space c = false) (join [slash] segs).
Proof.
  induction 1 as [| seg segs (_ & Hseg & _) _ IH]; [constructor |].
  assert (Hs : Forall (fun c => is_space c = false) seg).
  { eapply Forall_impl; [| exact Hseg]. exact url_char_no_space. }
  destruct segs as [| seg' segs']; [exact Hs |].
  change (join [slash] (seg :: seg' :: segs'))
    with (seg ++ [slash] ++ join [slash] (seg' :: segs')).
  apply Forall_app. split; [exact Hs |]. constructor; [reflexivity | exact IH].
Qed.

(** The round trip for a parser that returns the path of this one address
    as written. *)
Lemma tree_url_round_trip (parseUrl : jsstring -> option Url)
    (owner repo branch : jsstring) (segs : list jsstring) :
  let parts := [owner; repo; js "tree"; branch] ++ segs in
  let sub := join [slash] segs in
  Forall plainSegment (owner :: repo :: branch :: segs) ->
  ends_with_ci repo (js ".git") = false ->
  trim sub = sub ->
  parseUrl (js "https://github.com" ++ path_str parts)
  = Some {| hostname := js "github.com"; pathname := path_str parts |} ->
  parseGitHubTreeUrl parseUrl (buildTreeUrl (owner ++ [slash] ++ repo) branch (Some sub))
  = Some {| repoUrl := github_repo_url owner repo;
            treeRef := Some branch;
            treeSubdir := match segs with [] => None | _ => Some sub end |}.
Proof.
  intros parts sub Hplain Hgit Htrim Hparse.
  inversion Hplain as [| ? ? Howner Hplain1]; subst.
  inversion Hplain1 as [| ? ? Hrepo Hplain2]; subst.
  inversion Hplain2 as [| ? ? Hbranch Hsegs]; subst.
  assert (Hurl : buildTreeUrl (owner ++ [slash] ++ repo) branch (Some sub)
                 = js "https://github.com" ++ path_str parts).
  { unfold buildTreeUrl. cbv zeta. rewrite Htrim. subst sub.
    rewrite (join_plain_head segs Hsegs). subst parts. unfold path_str.
    cbn [app flat_map]. 
    destruct segs as [| seg segs'] eqn:Hs.
    - cbn [join truthy negb flat_map]. rewrite !app_nil_r.
      change (js "https://github.com/") with (js "https://github.com" ++ [slash]).
      change (js "/tree/") with (slash :: js "tree" ++ [slash]).
      now rewrite <- !app_assoc.
    - rewrite <- Hs in *.
      assert (Hne : segs <> []) by (rewrite Hs; discriminate).
      pose proof (join_plain_nonempty segs Hsegs Hne) as Hj.
      apply truthy_nonempty in Hj. rewrite Hj. cbn [negb].
      rewrite (join_slash segs Hne).
      change (js "https://github.com/") with (js "https://github.com" ++ [slash]).
      change (js "/tree/") with (slash :: js "tree" ++ [slash]).
      rewrite <- !app_assoc. reflexivity. }
  rewrite Hurl. unfold parseGitHubTreeUrl.
  assert (Hhttp : is_http (js "https://github.com" ++ path_str parts) = true) by reflexivity.
  rewrite Hhttp. cbn [negb]. rewrite Hparse.
  cbn [hostname pathname]. rewrite str_eqb_refl. cbn [negb].
  assert (Hparts : Forall plainSegment parts).
  { subst parts. repeat constructor; try assumption; try discriminate;
      try (apply Howner); try (apply Hrepo); try (apply Hbranch). }
  rewrite (split_on_path_str parts Hparts) by (subst parts; discriminate).
  subst parts. cbn [app].
  unfold strip_dot_git. rewrite Hgit.
  destruct Howner as [Ho _], Hrepo as [Hr _].
  destruct owner as [| o owner']; [now elim Ho |].
  destruct repo as [| r repo']; [now elim Hr |].
  cbn [truthy negb orb]. rewrite str_eqb_refl. cbn [orb].
  fold sub. subst sub. rewrite (join_plain_head segs Hsegs).
  destruct segs as [| seg segs'] eqn:Hs; [reflexivity |].
  rewrite <- Hs in *.
  assert (Hne : segs <> []) by (rewrite Hs; discriminate).
  pose proof (join_plain_nonempty segs Hsegs Hne) as Hj.
  apply truthy_nonempty in Hj. now rewrite Hj.
Qed.

(** X15: the address that the discovery builds for a directory of a
    repository is read back by the import.  Let the owner, the repository,
    the branch and the directory names be made of ASCII letters, digits,
    hyphens, underscores and dots, none of them empty, [.] or [..], the
    repository not ending in .git; and let the URL parser of the host
    return the path of such an address as written.  Then
    [parseGitHubTreeUrl] applied to the result of [buildTreeUrl] yields the
    clone address of the repository, the branch as ref and the directory as
    subdir (none for the root).  Names with other characters, which a URL
    parser encodes or cuts, are not covered. *)
Theorem tree_url_is_parsed_back (parseUrl : jsstring -> option Url)
    (owner repo branch : jsstring) (segs : list jsstring) :
  let sub := join [slash] segs in
  Forall urlSegment (owner :: repo :: branch :: segs) ->
  ends_with_ci repo (js ".git") = false ->
  readsGitHubPath parseUrl ->
  parseGitHubTreeUrl parseUrl (buildTreeUrl (owner ++ [slash] ++ repo) branch (Some sub))
  = Some {| repoUrl := github_repo_url owner repo;
            treeRef := Some branch;
            treeSubdir := match segs with [] => None | _ => Some sub end |}.
Proof.
  intros sub Hsegs Hgit Hparse.
  assert (Htree : urlSegment (js "tree")).
  { split; [discriminate |]. split; [repeat constructor |]. split; discriminate. }
  apply tree_url_round_trip.
  - eapply Forall_impl; [| exact Hsegs]. exact urlSegment_plain.
  - exact Hgit.
  - apply trim_no_space, join_no_space.
    inversion Hsegs as [| ? ? _ H1]; subst. inversion H1 as [| ? ? _ H2]; subst.
    inversion H2 as [| ? ? _ H3]; subst. exact H3.
  - apply Hparse.
    inversion Hsegs as [| ? ? Ho H1]; subst. inversion H1 as [| ? ? Hr H2]; subst.
    inversion H2 as [| ? ? Hb H3]; subst.
    repeat (constructor; [assumption |]). exact H3.
Qed.

Lemma tree_url_is_parsed_back_witness :
  buildTreeUrl (js "acme/skills") (js "main") (Some (js "tools/git-pushing"))
  = js "https://github.com/acme/skills/tree/main/tools/git-pushing"
  /\ parseGitHubTreeUrl SampleMore.githubUrl
       (buildTreeUrl (js "acme/skills") (js "main") (Some (js "tools/git-pushing")))
     = Some {| repoUrl := js "https://github.com/acme/skills.git";
               treeRef := Some (js "main");
               treeSubdir := Some (js "tools/git-pushing") |}.
Proof.
  split; [reflexivity |].
  apply (tree_url_is_parsed_back SampleMore.githubUrl (js "acme") (js "skills") (js "main")
           [js "tools"; js "git-pushing"]).
  - repeat constructor; discriminate.
  - reflexivity.
  - intros parts _. destruct parts; reflexivity.
Defined.

End TreeUrlFacts.

(** ** Validation *)

Module ValidateMore.

Import SkillsImport SkillsValidate.

Lemma length_set_add x s : length (set_add x s) <= S (length s).
Proof.
  unfold set_add. destruct (mem x s); [lia |]. rewrite length_app. simpl. lia.
Qed.

Lemma length_fold_set_add l : forall s,
  length (fold_left (fun s x => set_add x s) l s) <= length s + length l.
Proof.
  induction l as [| x l IH]; intros s; simpl; [lia |].
  specialize (IH (set_add x s)). pose proof (length_set_add x s). lia.
Qed.

Lemma length_set_of l : length (set_of l) <= length l.
Proof. unfold set_of. apply (length_fold_set_add l []). Qed.

Lemma count_le (A : Type) (p q : A -> bool) l :
  (forall x, In x l -> p x = true -> q x = true) -> count p l <= count q l.
Proof.
  unfold count. induction l as [| y l IH]; intros Himp; simpl; [lia |].
  assert (IH' : length (filter p l) <= length (filter q l)).
  { apply IH. intros x Hx. apply Himp. now right. }
  destruct (p y) eqn:Hp.
  - rewrite (Himp y (or_introl eq_refl) Hp). simpl. lia.
  - destruct (q y); simpl; lia.
Qed.

Lemma count_bound (A : Type) (p : A -> bool) l : count p l <= length l.
Proof. unfold count. apply filter_length_le. Qed.

Lemma drop_while_last p l c : p c = false -> drop_while p (l ++ [c]) <> [].
Proof.
  intros Hc. induction l as [| x l IH]; simpl.
  - rewrite Hc. discriminate.
  - destruct (p x); [exact IH | discriminate].
Qed.

Lemma trim_clean_head c s : is_space c = false -> trim (c :: s) <> [].
Proof.
  intros Hc. unfold trim, trimStart, trimEnd. cbn [drop_while]. rewrite Hc.
  cbn [rev]. intros Hnil. apply (f_equal (@rev N)) in Hnil. rewrite rev_involutive in Hnil.
  simpl in Hnil. revert Hnil. now apply drop_while_last.
Qed.

(** X16: [shouldRecommendRewrite] recommends a rewrite exactly when it
    gives a reason.  The reasons are pairwise different, trimmed and not
    empty, and there are at most 9 of them; a skill that is not loaded and a
    skill whose name collides with another one always get the
    recommendation. *)
Theorem rewrite_reasons_shape (isLoaded : bool) (diags : list PiDiagnostic)
    (inspection : MetadataInspection) (st : option SkillStatusEntry)
    (collision : option Collision) :
  let recommended := fst (shouldRecommendRewrite isLoaded diags inspection st collision) in
  let reasons := snd (shouldRecommendRewrite isLoaded diags inspection st collision) in
  (recommended = true <-> reasons <> [])
  /\ NoDup reasons
  /\ (forall r, In r reasons -> r <> [] /\ trim r = r)
  /\ length reasons <= 9
  /\ (isLoaded = false -> recommended = true)
  /\ (collision <> None -> recommended = true).
Proof.
  intros recommended reasons. subst recommended reasons.
  unfold shouldRecommendRewrite. cbv zeta. cbn [fst snd].
  set (r1 := if negb isLoaded then _ else []).
  set (r2 := match collision with Some c => _ | None => [] end).
  set (r3 := if present inspection && negb (parseOk inspection) then _ else []).
  set (r4 := if present inspection && parseOk inspection && negb (manifestFound inspection)
             then _ else []).
  set (r5 := map _ (firstn 5 _)).
  set (r6 := match st with Some s => _ | None => [] end).
  set (unique := set_of _).
  assert (Hin : forall r, In r unique <-> r <> [] /\ exists r0,
                  In r0 (r1 ++ r2 ++ r3 ++ r4 ++ r5 ++ r6) /\ trim r0 = r).
  { intros r. subst unique. rewrite In_set_of, filter_In, in_map_iff.
    rewrite truthy_nonempty. split.
    - intros [(r0 & Ht & Hr0) Hne]. eauto.
    - intros [Hne (r0 & Hr0 & Ht)]. eauto. }
  split; [apply length_pos_nonempty |]. split; [apply NoDup_set_of |]. split.
  { intros r Hr. apply Hin in Hr as [Hne (r0 & _ & <-)]. split; [exact Hne |].
    apply trim_idempotent. }
  split.
  { subst unique. etransitivity; [apply length_set_of |].
    etransitivity; [apply filter_length_le |]. rewrite length_map, !length_app.
    assert (length r1 <= 1) by (subst r1; destruct (negb isLoaded); simpl; lia).
    assert (length r2 <= 1) by (subst r2; destruct collision; simpl; lia).
    assert (length r3 + length r4 <= 1).
    { subst r3 r4. destruct (present inspection), (parseOk inspection),
        (manifestFound inspection); simpl; lia. }
    assert (length r5 <= 5).
    { subst r5. rewrite length_map, length_firstn. lia. }
    assert (length r6 <= 1).
    { subst r6. destruct st as [s |]; [| simpl; lia].
      match goal with |- context [if ?c then _ else _] => destruct c end; simpl; lia. }
    unfold jsstring in *. lia. }
  split.
  - intros ->. apply length_pos_nonempty.
    assert (Hr : In (trim (js "Skill not loaded by OpenClaw (likely missing description or invalid frontmatter).")) unique).
    { apply Hin. split; [vm_compute; discriminate |].
      eexists. split; [| reflexivity]. subst r1. cbn [negb]. apply in_or_app. left. now left. }
    intros Hnil. rewrite Hnil in Hr. destruct Hr.
  - intros Hc. apply length_pos_nonempty. destruct collision as [c |]; [| now elim Hc].
    set (msg := js "Skill name collides with another loaded skill: " ++ winnerSource c
                  ++ js " (" ++ winnerPath c ++ js ").") in *.
    assert (Hr : In (trim msg) unique).
    { apply Hin. split.
      - subst msg. apply trim_clean_head. reflexivity.
      - exists msg. split; [| reflexivity]. apply in_or_app. right. apply in_or_app. left.
        subst r2. now left. }
    intros Hnil. rewrite Hnil in Hr. destruct Hr.
Qed.


Section Facts.
Variables Config Eligibility : Type.
Variable H : Host Config Eligibility.

(** X17: the flags of [inspectOpenClawMetadata] fit together: metadata is
    reported absent exactly when the frontmatter has none or only white
    space; a manifest is found only in metadata that is present and parsed;
    the parse is reported failed exactly when an error message is given,
    and only for metadata that is present. *)
Theorem metadata_inspection_is_consistent (fm : Frontmatter) :
  let i := inspectOpenClawMetadata H fm in
  (present i = false <-> forallb is_space (or_empty (fm_metadata fm)) = true)
  /\ (manifestFound i = true -> present i = true /\ parseOk i = true)
  /\ (parseOk i = false <-> inspectionError i <> None)
  /\ (parseOk i = false -> present i = true).
Proof.
  intros i. subst i. unfold inspectOpenClawMetadata. cbv zeta.
  assert (Hblank : forall s, truthy (trim s) = false <-> forallb is_space s = true).
  { intros s. split.
    - intros Ht. destruct (trim s) eqn:Htrim; [| discriminate].
      destruct (forallb is_space s) eqn:Hall; [reflexivity |].
      exfalso. clear Ht. revert Htrim.
      unfold trim, trimStart, trimEnd.
      pose proof (drop_while_clean is_space s) as Hhead.
      destruct (drop_while is_space s) as [| c t] eqn:Hdrop.
      + intros _. clear Hhead. induction s as [| x s IH]; [discriminate |].
        simpl in *. destruct (is_space x); [auto | discriminate].
      + intros Hnil. apply (f_equal (@rev N)) in Hnil. rewrite rev_involutive in Hnil.
        simpl in Hnil. revert Hnil. now apply drop_while_last.
    - intros Hall. now rewrite (trim_blank s Hall). }
  assert (Hraw : match fm_metadata fm with Some m => trim m | None => [] end
                 = trim (or_empty (fm_metadata fm))).
  { destruct (fm_metadata fm); reflexivity. }
  rewrite Hraw. specialize (Hblank (or_empty (fm_metadata fm))).
  destruct (truthy (trim (or_empty (fm_metadata fm)))) eqn:Ht; cbn [negb].
  - assert (Hnb : forallb is_space (or_empty (fm_metadata fm)) <> true).
    { intros Hb. apply Hblank in Hb. discriminate. }
    destruct (json5_parse H _) as [[| b | items | fields] | err];
      cbn [present parseOk manifestFound inspectionError];
      repeat split; try discriminate; try congruence; try (intros; contradiction);
      try (intros Hn; now elim Hn).
  - cbn [present parseOk manifestFound inspectionError].
    repeat split; try discriminate; try congruence; try tauto.
Qed.

Lemma validateAll_each fs entries report batch : forall vs,
  validateAll H fs entries report batch = Returned vs ->
  Forall2 (fun imp v => validateOne H fs entries report imp = Returned v) batch vs.
Proof.
  induction batch as [| imp rest IH]; intros vs; simpl.
  - intros Hv. injection Hv as <-. constructor.
  - destruct (validateOne H fs entries report imp) as [v | e] eqn:Hone; [| discriminate].
    destruct (validateAll H fs entries report rest) as [vs' | e]; [| discriminate].
    intros Hv. injection Hv as <-. constructor; [exact Hone | now apply IH].
Qed.

Lemma validateAll_total fs entries report batch :
  (forall content, exists fm, h_parseFrontmatter H content = Returned fm) ->
  exists vs, validateAll H fs entries report batch = Returned vs.
Proof.
  intros Hparse. induction batch as [| imp rest [vs IH]]; simpl; [eauto |].
  assert (Hone : exists v, validateOne H fs entries report imp = Returned v).
  { unfold validateOne.
    destruct (fst (readFile (normalizePath H (skillPath imp)) fs)) as [content | err];
      [| eauto].
    destruct (Hparse content) as [fm ->]. eauto. }
  destruct Hone as [v ->]. rewrite IH. eauto.
Qed.

Lemma validateOne_fields fs entries report imp v :
  validateOne H fs entries report imp = Returned v ->
  v_skillPath v = skillPath imp /\ v_destDir v = destDir imp /\ importedName v = name imp
  /\ (ready v = true -> loaded v = true).
Proof.
  unfold validateOne.
  destruct (fst (readFile (normalizePath H (skillPath imp)) fs)) as [content | err].
  - destruct (h_parseFrontmatter H content) as [fm | err]; [| discriminate].
    intros Hv. injection Hv as <-. cbn. repeat split.
    intros Hr. apply andb_true_iff in Hr. tauto.
  - intros Hv. injection Hv as <-. cbn. repeat split. discriminate.
Qed.

(** X18: with a frontmatter parser that returns for every manifest,
    [validateImportedSkills] returns a report and leaves the disk as it is;
    the report has one entry for each imported entry of the batch, in order
    and with its paths and name, its total is the size of the batch, and
    ready <= loaded <= total as well as rewrites <= total hold for its
    counters. *)
Theorem validation_report_mirrors_the_batch (ws : jsstring)
    (batch : list SkillsImportEntry) (cfg : option Config) (el : option Eligibility)
    (fs : node) :
  (forall content, exists fm, h_parseFrontmatter H content = Returned fm) ->
  exists report,
    validateImportedSkills H ws batch cfg el fs = (Returned report, fs)
    /\ map v_skillPath (v_skills report) = map skillPath batch
    /\ map v_destDir (v_skills report) = map destDir batch
    /\ map importedName (v_skills report) = map name batch
    /\ total (summary report) = length batch
    /\ readyCount (summary report) <= loadedCount (summary report)
    /\ loadedCount (summary report) <= total (summary report)
    /\ rewriteCount (summary report) <= total (summary report).
Proof.
  intros Hparse. unfold validateImportedSkills.
  set (entries := loadWorkspaceSkillEntries H fs ws cfg).
  set (report := buildWorkspaceSkillStatus H fs ws cfg el).
  destruct (validateAll_total fs entries report batch Hparse) as [vs Hvs].
  rewrite Hvs. eexists. split; [reflexivity |]. cbn [v_skills summary total loadedCount
    readyCount rewriteCount].
  pose proof (validateAll_each _ _ _ _ _ Hvs) as Heach.
  assert (Hmaps : map v_skillPath vs = map skillPath batch
                  /\ map v_destDir vs = map destDir batch
                  /\ map importedName vs = map name batch
                  /\ length vs = length batch
                  /\ forall v, In v vs -> ready v = true -> loaded v = true).
  { clear Hvs. induction Heach as [| imp v batch' vs' Hone _ IH].
    - repeat split. intros v [].
    - destruct (validateOne_fields _ _ _ _ _ Hone) as (H1 & H2 & H3 & H4).
      destruct IH as (I1 & I2 & I3 & I4 & I5). simpl.
      rewrite H1, H2, H3, I1, I2, I3, I4. repeat split.
      intros v' [<- | Hin]; [exact H4 | now apply I5]. }
  destruct Hmaps as (M1 & M2 & M3 & M4 & M5).
  repeat split; try assumption.
  - now apply count_le.
  - apply count_bound.
  - apply count_bound.
Qed.

(** X19: a manifest that cannot be read does not stop the validation but
    shows in the report: the report is not ok, and it has an entry for that
    manifest that is neither loaded nor ready, has no status, recommends a
    rewrite for the one reason that SKILL.md could not be read, and carries
    the error of the read as its only diagnostic. *)
Theorem unreadable_manifest_blocks_the_report (ws : jsstring)
    (batch : list SkillsImportEntry) (cfg : option Config) (el : option Eligibility)
    (fs fs' : node) (report : SkillsValidationReport) (imp : SkillsImportEntry)
    (err : jsstring) :
  validateImportedSkills H ws batch cfg el fs = (Returned report, fs') ->
  In imp batch ->
  fst (readFile (normalizePath H (skillPath imp)) fs) = Thrown err ->
  v_ok report = false
  /\ exists v,
       In v (v_skills report)
       /\ v_skillPath v = skillPath imp
       /\ loaded v = false /\ ready v = false /\ status v = None
       /\ rewriteRecommended v = true
       /\ rewriteReasons v = [js "Failed to read SKILL.md."]
       /\ map diagMessage (diagnostics v) = [js "Failed to read SKILL.md: " ++ err].
Proof.
  unfold validateImportedSkills.
  set (entries := loadWorkspaceSkillEntries H fs ws cfg).
  set (status := buildWorkspaceSkillStatus H fs ws cfg el).
  destruct (validateAll H fs entries status batch) as [vs | e] eqn:Hvs; [| discriminate].
  intros Heq Hin Hread. injection Heq as <- _.
  cbn [v_ok v_skills].
  pose proof (validateAll_each _ _ _ _ _ Hvs) as Heach.
  assert (Hv : exists v, In v vs /\ validateOne H fs entries status imp = Returned v).
  { clear Hvs. induction Heach as [| imp' v batch' vs' Hone _ IH]; [destruct Hin |].
    destruct Hin as [-> | Hin].
    - exists v. split; [now left | exact Hone].
    - destruct (IH Hin) as (v' & Hv' & Hone'). exists v'. split; [now right | exact Hone']. }
  destruct Hv as (v & Hv & Hone).
  unfold validateOne in Hone. rewrite Hread in Hone. injection Hone as Hveq.
  assert (Hready : ready v = false) by (now rewrite <- Hveq).
  split.
  - destruct (count ready vs =? length vs) eqn:Hc; [| apply andb_false_r].
    apply Nat.eqb_eq in Hc. rewrite count_all in Hc. rewrite (Hc v Hv) in Hready.
    discriminate.
  - exists v. split; [exact Hv |]. rewrite <- Hveq. cbn. repeat split.
Qed.

End Facts.

Lemma validation_report_mirrors_the_batch_witness :
  exists report,
    validateImportedSkills (Sample.hostReporting Sample.readyStatus) (js "/ws")
      [Sample.importedEntry] None None Sample.disk1Imported
    = (Returned report, Sample.disk1Imported)
    /\ map v_skillPath (v_skills report) = map skillPath [Sample.importedEntry]
    /\ map v_destDir (v_skills report) = map destDir [Sample.importedEntry]
    /\ map importedName (v_skills report) = map name [Sample.importedEntry]
    /\ total (summary report) = length [Sample.importedEntry]
    /\ readyCount (summary report) <= loadedCount (summary report)
    /\ loadedCount (summary report) <= total (summary report)
    /\ rewriteCount (summary report) <= total (summary report).
Proof.
  apply (validation_report_mirrors_the_batch unit unit
           (Sample.hostReporting Sample.readyStatus) (js "/ws") [Sample.importedEntry]
           None None Sample.disk1Imported).
  intros content. cbn [h_parseFrontmatter Sample.hostReporting].
  unfold Sample.sampleFrontmatter. destruct (starts_with (js "name:") content); eauto.
Defined.

Lemma unreadable_manifest_blocks_the_report_witness :
  let H := Sample.hostReporting Sample.readyStatus in
  let run := validateImportedSkills H (js "/ws") [Sample.importedEntry] None None
               Sample.disk1 in
  exists report,
    fst run = Returned report
    /\ v_ok report = false
    /\ exists v,
         In v (v_skills report)
         /\ v_skillPath v = skillPath Sample.importedEntry
         /\ loaded v = false /\ ready v = false /\ status v = None
         /\ rewriteRecommended v = true
         /\ rewriteReasons v = [js "Failed to read SKILL.md."]
         /\ map diagMessage (diagnostics v)
            = [js "Failed to read SKILL.md: Error: ENOENT: no such file or directory"].
Proof.
  intros H run. eexists. split; [vm_compute; reflexivity |].
  apply (unreadable_manifest_blocks_the_report unit unit H (js "/ws")
           [Sample.importedEntry] None None Sample.disk1 (snd run) _ Sample.importedEntry
           (js "Error: ENOENT: no such file or directory")).
  - vm_compute. reflexivity.
  - now left.
  - vm_compute. reflexivity.
Defined.

End ValidateMore.

(** ** The import handler *)

Module GatewayMore.

Import SkillsImport SkillsValidate Gateway.

Section Facts.
Variables Config Eligibility : Type.
Variable E : Env.
Variable H : Host Config Eligibility.
Variable G : GatewayHost Config Eligibility.

(** X20: when the import fails, the handler of [skills.import] stops
    there: it answers not ok with the result of the import as payload and
    its message as an UNAVAILABLE error, and it has called nothing but the
    import: no validation, no installer, no bump of the snapshot version,
    whatever [autoInstall] says. *)
Theorem failed_import_stops_the_handler (p : ImportParams) (fs fs1 : node)
    (result : SkillsImportResult) :
  let ws := resolveWorkspaceDir G (loadConfig G fs) in
  importSkills E (importRequest p ws) fs = (Returned result, fs1) ->
  ok result = false ->
  skills_import E H G p fs
  = (Returned ({| respOk := false;
                  payload := Some {| r_result := result; r_validation := None;
                                     r_autoInstall := None |};
                  error := Some (UNAVAILABLE, message result) |},
               [CallImport (importRequest p ws)]), fs1).
Proof.
  intros ws Himport Hok. unfold skills_import. fold ws.
  unfold bind at 1. rewrite Himport. rewrite Hok.
  unfold bind, ret. cbn [fst snd].
  destruct (p_autoInstall p) as [[|] |]; reflexivity.
Qed.

(** X21: unless [autoInstall] is true, the handler of [skills.import]
    calls no installer.  It imports once and, exactly when the import is
    ok, validates once and bumps the snapshot version; the answer is ok as
    the import is, carries the result of the import, a validation report
    exactly when the import is ok, and no installer results. *)
Theorem without_autoInstall_nothing_is_installed (p : ImportParams) (fs fs' : node)
    (resp : Response) (calls : list Call) :
  skills_import E H G p fs = (Returned (resp, calls), fs') ->
  p_autoInstall p <> Some true ->
  let ws := resolveWorkspaceDir G (loadConfig G fs) in
  (forall skillName installId, ~ In (CallInstall skillName installId) calls)
  /\ exists result,
       importSkills E (importRequest p ws) fs = (Returned result, fs')
       /\ respOk resp = ok result
       /\ calls = CallImport (importRequest p ws)
                  :: (if ok result
                      then [CallValidate ws (imported result); CallBump] else [])
       /\ exists validation,
            payload resp = Some {| r_result := result; r_validation := validation;
                                   r_autoInstall := None |}
            /\ (validation <> None <-> ok result = true).
Proof.
  intros Hrun Hauto ws. unfold skills_import in Hrun. fold ws in Hrun.
  unfold bind at 1 in Hrun.
  destruct (importSkills E (importRequest p ws) fs) as [[result | e] fs1] eqn:Himport;
    [| discriminate].
  destruct (ok result) eqn:Hres.
  - unfold bind at 1 in Hrun. unfold bind at 1 in Hrun.
    destruct (validateImportedSkills H ws (imported result) (Some (loadConfig G fs))
                (Some (getRemoteSkillEligibility G fs1)) fs1)
      as [[validation | e] fs1'] eqn:Hval; [| discriminate].
    pose proof (validate_keeps_disk _ _ _ _ _ _ _ _ _ _ Hval) as ->.
    unfold ret at 1 in Hrun. cbn [fst snd] in Hrun.
    assert (Hrun' : (Returned
              ({| respOk := true;
                  payload := Some {| r_result := result; r_validation := Some validation;
                                     r_autoInstall := None |};
                  error := None |},
               [CallImport (importRequest p ws); CallValidate ws (imported result); CallBump]),
             fs1) = (Returned (resp, calls), fs')).
    { rewrite <- Hrun. destruct (p_autoInstall p) as [[|] |]; [now elim Hauto | |];
        reflexivity. }
    injection Hrun' as <- <- <-. split.
    + intros n i [Hc | [Hc | [Hc | []]]]; discriminate.
    + exists result. rewrite Hres.
      split; [reflexivity |]. split; [reflexivity |]. split; [reflexivity |].
      exists (Some validation). split; [reflexivity |]. split; [reflexivity | discriminate].
  - assert (Hrun' : (Returned
              ({| respOk := false;
                  payload := Some {| r_result := result; r_validation := None;
                                     r_autoInstall := None |};
                  error := Some (UNAVAILABLE, message result) |},
               [CallImport (importRequest p ws)]), fs1) = (Returned (resp, calls), fs')).
    { rewrite <- Hrun. unfold bind, ret. cbn [fst snd].
      destruct (p_autoInstall p) as [[|] |]; reflexivity. }
    injection Hrun' as <- <- <-. split.
    + intros n i [Hc | []]; discriminate.
    + exists result. rewrite Hres.
      split; [reflexivity |]. split; [reflexivity |]. split; [reflexivity |].
      exists None. split; [reflexivity |]. split; [intros Hn; now elim Hn | discriminate].
Qed.

End Facts.

Lemma failed_import_stops_the_handler_witness :
  let p := SampleMore.importOf "/nowhere" (Some true) in
  let H := Sample.hostReporting Sample.needsJqAndKey in
  let request := importRequest p (js "/ws") in
  let run := importSkills Sample.sampleEnv request Sample.disk1 in
  let result := match fst run with Returned r => r | Thrown _ => failure [] [] [] end in
  message result = js "source path does not exist: /nowhere"
  /\ skills_import Sample.sampleEnv H Sample.sampleGateway p Sample.disk1
     = (Returned ({| respOk := false;
                     payload := Some {| r_result := result; r_validation := None;
                                        r_autoInstall := None |};
                     error := Some (UNAVAILABLE, message result) |},
                  [CallImport request]), snd run).
Proof.
  intros p H request run result. split; [vm_compute; reflexivity |].
  apply (failed_import_stops_the_handler unit unit Sample.sampleEnv H Sample.sampleGateway
           p Sample.disk1 (snd run) result).
  - vm_compute. reflexivity.
  - vm_compute. reflexivity.
Defined.

Lemma without_autoInstall_nothing_is_installed_witness :
  let p := SampleMore.importOf "/src/my-skill" None in
  let H := Sample.hostReporting Sample.needsJqAndKey in
  let run := skills_import Sample.sampleEnv H Sample.sampleGateway p Sample.disk1 in
  exists resp calls,
    fst run = Returned (resp, calls)
    /\ (forall skillName installId, ~ In (CallInstall skillName installId) calls)
    /\ exists result,
         importSkills Sample.sampleEnv (importRequest p (js "/ws")) Sample.disk1
         = (Returned result, snd run)
         /\ respOk resp = ok result
         /\ calls = CallImport (importRequest p (js "/ws"))
                    :: (if ok result
                        then [CallValidate (js "/ws") (imported result); CallBump]
                        else [])
         /\ exists validation,
              payload resp = Some {| r_result := result; r_validation := validation;
                                     r_autoInstall := None |}
              /\ (validation <> None <-> ok result = true).
Proof.
  intros p H run. eexists. eexists. split; [vm_compute; reflexivity |].
  apply (without_autoInstall_nothing_is_installed unit unit Sample.sampleEnv H
           Sample.sampleGateway p Sample.disk1 (snd run)).
  - vm_compute. reflexivity.
  - discriminate.
Defined.

End GatewayMore.

(** ** The binaries of the skills *)

Module BinsFacts.

Import GatewayBins.

Lemma In_add_trimmed b l : forall bins,
  In b (fold_left add_trimmed l bins)
  <-> In b bins \/ exists raw, In raw l /\ trimsTo raw b.
Proof.
  induction l as [| x l IH]; intros bins; simpl.
  - split; [auto | intros [Hb | (raw & [] & _)]; exact Hb].
  - rewrite IH. unfold add_trimmed. unfold trimsTo.
    destruct (truthy (trim x)) eqn:Hx.
    + rewrite In_set_add. apply truthy_nonempty in Hx. split.
      * intros [[-> | Hb] | (raw & Hraw & Ht)]; eauto 6.
      * intros [Hb | (raw & [-> | Hraw] & Ht & Hne)]; eauto 6.
    + split.
      * intros [Hb | (raw & Hraw & Ht)]; eauto 6.
      * intros [Hb | (raw & [-> | Hraw] & Ht & Hne)]; eauto 6.
        apply truthy_nonempty in Hne. congruence.
Qed.

Lemma NoDup_add_trimmed l : forall bins,
  NoDup bins -> NoDup (fold_left add_trimmed l bins).
Proof.
  induction l as [| x l IH]; intros bins Hb; simpl; [exact Hb |].
  apply IH. unfold add_trimmed. destruct (truthy (trim x)); [| exact Hb].
  now apply NoDup_set_add.
Qed.

Lemma In_specs b specs : forall bins,
  In b (fold_left
          (fun acc spec =>
             fold_left add_trimmed
               (or_nil (match spec with Some s => specBins s | None => None end)) acc)
          specs bins)
  <-> In b bins
      \/ exists raw,
           In raw (flat_map (fun spec => match spec with
                                         | Some s => or_nil (specBins s)
                                         | None => []
                                         end) specs)
           /\ trimsTo raw b.
Proof.
  induction specs as [| spec specs IH]; intros bins; simpl.
  - split; [auto | intros [Hb | (raw & [] & _)]; exact Hb].
  - rewrite IH, In_add_trimmed. split.
    + intros [[Hb | (raw & Hraw & Ht)] | (raw & Hraw & Ht)]; [auto | |].
      * right. exists raw. split; [| exact Ht]. apply in_or_app. left.
        destruct spec as [s |]; [exact Hraw | destruct Hraw].
      * right. exists raw. split; [| exact Ht]. apply in_or_app. now right.
    + intros [Hb | (raw & Hraw & Ht)]; [auto |].
      apply in_app_or in Hraw as [Hraw | Hraw].
      * left. right. exists raw. split; [| exact Ht].
        destruct spec as [s |]; [exact Hraw | destruct Hraw].
      * right. eauto.
Qed.

Lemma NoDup_specs specs : forall bins,
  NoDup bins ->
  NoDup (fold_left
           (fun acc spec =>
              fold_left add_trimmed
                (or_nil (match spec with Some s => specBins s | None => None end)) acc)
           specs bins).
Proof.
  induction specs as [| spec specs IH]; intros bins Hb; simpl; [exact Hb |].
  apply IH. now apply NoDup_add_trimmed.
Qed.

Lemma In_collectEntry b bins entry :
  In b (collectEntry bins entry)
  <-> In b bins \/ exists raw, In raw (declaredBins entry) /\ trimsTo raw b.
Proof.
  unfold collectEntry, declaredBins. cbv zeta.
  rewrite In_specs, !In_add_trimmed.
  destruct (metadata entry) as [m |]; cbn [or_nil].
  2:{ split.
      - intros [[[Hb | (raw & [] & _)] | (raw & [] & _)] | (raw & [] & _)]. auto.
      - intros [Hb | (raw & [] & _)]. auto. }
  destruct (requires m) as [r |]; cbn [or_nil].
  - split.
    + intros [[[Hb | (raw & Hraw & Ht)] | (raw & Hraw & Ht)] | (raw & Hraw & Ht)];
        [auto | | |]; right; exists raw; (split; [| exact Ht]);
        rewrite !in_app_iff; auto.
    + intros [Hb | (raw & Hraw & Ht)]; [auto |].
      rewrite !in_app_iff in Hraw. destruct Hraw as [[Hraw | Hraw] | Hraw]; eauto 8.
  - split.
    + intros [[[Hb | (raw & [] & _)] | (raw & [] & _)] | (raw & Hraw & Ht)]; [auto |].
      right. eauto.
    + intros [Hb | (raw & Hraw & Ht)]; [auto |]. right. eauto.
Qed.

Lemma NoDup_collectEntry bins entry : NoDup bins -> NoDup (collectEntry bins entry).
Proof.
  intros Hb. unfold collectEntry. cbv zeta.
  apply NoDup_specs. now do 2 apply NoDup_add_trimmed.
Qed.

Lemma In_collect_fold b entries : forall bins,
  In b (fold_left collectEntry entries bins)
  <-> In b bins
      \/ exists entry raw, In entry entries /\ In raw (declaredBins entry) /\ trimsTo raw b.
Proof.
  induction entries as [| e entries IH]; intros bins; simpl.
  - split; [auto | intros [Hb | (entry & raw & [] & _)]; exact Hb].
  - rewrite IH, In_collectEntry. split.
    + intros [[Hb | (raw & Hraw & Ht)] | (entry & raw & Hin & Hraw & Ht)]; eauto 8.
    + intros [Hb | (entry & raw & [-> | Hin] & Hraw & Ht)]; eauto 8.
Qed.

Lemma NoDup_collect_fold entries : forall bins,
  NoDup bins -> NoDup (fold_left collectEntry entries bins).
Proof.
  induction entries as [| e entries IH]; intros bins Hb; simpl; [exact Hb |].
  apply IH. now apply NoDup_collectEntry.
Qed.

Lemma sorted_strings le_sorted : sortedStrings (stable_sort str_leb le_sorted).
Proof.
  apply sorted_stable_sort.
  - intros a b. apply lex_leb_total.
  - intros a b c. apply lex_leb_trans.
Qed.

Lemma collectSkillBins_spec entries b :
  In b (collectSkillBins entries)
  <-> exists entry raw,
        In entry entries /\ In raw (declaredBins entry) /\ trimsTo raw b.
Proof.
  unfold collectSkillBins. rewrite In_stable_sort, In_collect_fold. split.
  - intros [[] | Hb]. exact Hb.
  - auto.
Qed.

(** X22: [collectSkillBins] returns, without duplicates and in ascending
    order, exactly the non-empty trimmed forms of the binaries that the
    entries declare as required, as alternatives or for an installer. *)
Theorem collected_bins_characterized (entries : list SkillEntry) :
  let bins := collectSkillBins entries in
  NoDup bins
  /\ sortedStrings bins
  /\ forall b, In b bins
       <-> exists entry raw,
             In entry entries /\ In raw (declaredBins entry) /\ trimsTo raw b.
Proof.
  intros bins. subst bins. unfold collectSkillBins.
  split; [apply NoDup_stable_sort, NoDup_collect_fold; constructor |].
  split; [apply sorted_strings |].
  intros b. apply collectSkillBins_spec.
Qed.

Section Handler.
Variable Config : Type.
Variable G : BinsHost Config.

Lemma In_workspace_fold cfg d l : forall dirs,
  In d (fold_left
          (fun dirs entry =>
             match entry with
             | Some id => set_add (resolveAgentWorkspaceDir G cfg id) dirs
             | None => dirs
             end) l dirs)
  <-> In d dirs \/ exists id, In (Some id) l /\ d = resolveAgentWorkspaceDir G cfg id.
Proof.
  induction l as [| e l IH]; intros dirs; simpl.
  - split; [auto | intros [Hd | (id & [] & _)]; exact Hd].
  - rewrite IH. destruct e as [id0 |].
    + rewrite In_set_add. split.
      * intros [[-> | Hd] | (id & Hin & ->)]; eauto 6.
      * intros [Hd | (id & [Heq | Hin] & ->)]; eauto 6.
        injection Heq as ->. auto.
    + split.
      * intros [Hd | (id & Hin & ->)]; eauto 6.
      * intros [Hd | (id & [Heq | Hin] & ->)]; eauto 6. discriminate.
Qed.

Lemma NoDup_workspace_fold cfg l : forall dirs,
  NoDup dirs ->
  NoDup (fold_left
           (fun dirs entry =>
              match entry with
              | Some id => set_add (resolveAgentWorkspaceDir G cfg id) dirs
              | None => dirs
              end) l dirs).
Proof.
  induction l as [| e l IH]; intros dirs Hd; simpl; [exact Hd |].
  apply IH. destruct e; [now apply NoDup_set_add | exact Hd].
Qed.

Lemma listWorkspaceDirs_characterized cfg :
  NoDup (listWorkspaceDirs G cfg)
  /\ forall d, In d (listWorkspaceDirs G cfg)
       <-> d = resolveAgentWorkspaceDir G cfg (resolveDefaultAgentId G cfg)
           \/ exists id, In (Some id) (or_nil (agentsList G cfg))
                         /\ d = resolveAgentWorkspaceDir G cfg id.
Proof.
  unfold listWorkspaceDirs. cbv zeta. split.
  - apply NoDup_set_add, NoDup_workspace_fold. constructor.
  - intros d. rewrite In_set_add, In_workspace_fold. split.
    + intros [Hd | [[] | Hd]]; auto.
    + intros [Hd | Hd]; auto.
Qed.

Lemma In_bins_fold fs cfg b dirs : forall bins,
  In b (fold_left
          (fun bins workspaceDir =>
             fold_left (fun acc bin => set_add bin acc)
               (collectSkillBins (loadWorkspaceSkillEntries G fs workspaceDir cfg)) bins)
          dirs bins)
  <-> In b bins
      \/ exists dir, In dir dirs
                     /\ In b (collectSkillBins (loadWorkspaceSkillEntries G fs dir cfg)).
Proof.
  induction dirs as [| d dirs IH]; intros bins; simpl.
  - split; [auto | intros [Hb | (dir & [] & _)]; exact Hb].
  - rewrite IH, In_fold_set_add. split.
    + intros [[Hb | Hb] | (dir & Hin & Hb)]; eauto 6.
    + intros [Hb | (dir & [-> | Hin] & Hb)]; eauto 6.
Qed.

Lemma NoDup_fold_set_add l : forall s,
  NoDup s -> NoDup (fold_left (fun acc (bin : jsstring) => set_add bin acc) l s).
Proof.
  induction l as [| x l IH]; intros s Hs; simpl; [exact Hs |].
  apply IH. now apply NoDup_set_add.
Qed.

Lemma NoDup_bins_fold fs cfg dirs : forall bins,
  NoDup bins ->
  NoDup (fold_left
           (fun bins workspaceDir =>
              fold_left (fun acc bin => set_add bin acc)
                (collectSkillBins (loadWorkspaceSkillEntries G fs workspaceDir cfg)) bins)
           dirs bins).
Proof.
  induction dirs as [| d dirs IH]; intros bins Hb; simpl; [exact Hb |].
  apply IH. now apply NoDup_fold_set_add.
Qed.

(** X23: the workspace directories that [skills.bins] visits are pairwise
    different and include the one of the default agent; the handler returns,
    leaves the disk as it is, and its answer lists, without duplicates and
    in ascending order, exactly the trimmed non-empty binaries declared by
    some skill entry of the workspace of the default agent or of an agent of
    the configured list. *)
Theorem bins_cover_every_agent_workspace (fs : node) :
  let cfg := loadConfig G fs in
  NoDup (listWorkspaceDirs G cfg)
  /\ In (resolveAgentWorkspaceDir G cfg (resolveDefaultAgentId G cfg))
       (listWorkspaceDirs G cfg)
  /\ exists bins,
       skills_bins G fs = (Returned bins, fs)
       /\ NoDup bins /\ sortedStrings bins
       /\ forall b, In b bins
            <-> exists dir entry raw,
                  (dir = resolveAgentWorkspaceDir G cfg (resolveDefaultAgentId G cfg)
                   \/ exists id, In (Some id) (or_nil (agentsList G cfg))
                                 /\ dir = resolveAgentWorkspaceDir G cfg id)
                  /\ In entry (loadWorkspaceSkillEntries G fs dir cfg)
                  /\ In raw (declaredBins entry) /\ trimsTo raw b.
Proof.
  intros cfg. destruct (listWorkspaceDirs_characterized cfg) as [Hnd Hdirs].
  split; [exact Hnd |]. split; [apply Hdirs; now left |].
  unfold skills_bins. fold cfg. eexists. split; [reflexivity |].
  split; [apply NoDup_stable_sort, NoDup_bins_fold; constructor |].
  split; [apply sorted_strings |].
  intros b. rewrite In_stable_sort, In_bins_fold. split.
  - intros [[] | (dir & Hdir & Hb)].
    apply Hdirs in Hdir.
    apply collectSkillBins_spec in Hb as (entry & raw & Hin & Hraw & Ht).
    exists dir, entry, raw. auto.
  - intros (dir & entry & raw & Hdir & Hin & Hraw & Ht). right.
    exists dir. split; [now apply Hdirs |].
    apply collectSkillBins_spec. eauto.
Qed.

End Handler.

End BinsFacts.

(** ** Updating the configuration *)

Module UpdateFacts.

Import GatewayUpdate.

Section Objects.
Variable V : Type.

Lemma obj_get_replace_same k v (o : object V) :
  obj_get k o <> None -> obj_get k (obj_replace k v o) = Some v.
Proof.
  induction o as [| [k0 v0] o IH]; simpl; [intros Hn; now elim Hn |].
  destruct (str_eqb k0 k) eqn:Hk; simpl; rewrite Hk; [reflexivity | exact IH].
Qed.

Lemma obj_get_replace_other k k' v (o : object V) :
  k' <> k -> obj_get k' (obj_replace k v o) = obj_get k' o.
Proof.
  intros Hne. induction o as [| [k0 v0] o IH]; simpl; [reflexivity |].
  destruct (str_eqb k0 k) eqn:Hk; simpl.
  - apply str_eqb_eq in Hk. subst k0.
    destruct (str_eqb k k') eqn:Hk'; [| reflexivity].
    apply str_eqb_eq in Hk'. congruence.
  - destruct (str_eqb k0 k'); [reflexivity | exact IH].
Qed.

Lemma obj_get_app k (o o' : object V) :
  obj_get k (o ++ o') = match obj_get k o with Some v => Some v | None => obj_get k o' end.
Proof.
  induction o as [| [k0 v0] o IH]; simpl; [reflexivity |].
  destruct (str_eqb k0 k); [reflexivity | exact IH].
Qed.

Lemma obj_get_set_same k v (o : object V) :
  k <> PROTO \/ obj_get k o <> None -> obj_get k (obj_set k v o) = Some v.
Proof.
  intros Hk. unfold obj_set. destruct (obj_get k o) as [v0 |] eqn:Hget.
  - apply obj_get_replace_same. congruence.
  - destruct Hk as [Hk | Hk]; [| now elim Hk].
    apply str_eqb_neq in Hk. rewrite Hk. rewrite obj_get_app, Hget. simpl.
    now rewrite str_eqb_refl.
Qed.

Lemma obj_get_set_other k k' v (o : object V) :
  k' <> k -> obj_get k' (obj_set k v o) = obj_get k' o.
Proof.
  intros Hne. unfold obj_set. destruct (obj_get k o) as [v0 |].
  - now apply obj_get_replace_other.
  - destruct (str_eqb k PROTO); [reflexivity |].
    rewrite obj_get_app. destruct (obj_get k' o); [reflexivity |]. simpl.
    destruct (str_eqb k k') eqn:Hk; [| reflexivity].
    apply str_eqb_eq in Hk. congruence.
Qed.

Lemma obj_get_delete_same k (o : object V) : obj_get k (obj_delete k o) = None.
Proof.
  induction o as [| [k0 v0] o IH]; simpl; [reflexivity |].
  destruct (str_eqb k0 k) eqn:Hk; simpl; [exact IH |]. now rewrite Hk.
Qed.

Lemma obj_get_delete_other k k' (o : object V) :
  k' <> k -> obj_get k' (obj_delete k o) = obj_get k' o.
Proof.
  intros Hne. induction o as [| [k0 v0] o IH]; simpl; [reflexivity |].
  destruct (str_eqb k0 k) eqn:Hk; simpl.
  - apply str_eqb_eq in Hk. subst k0.
    destruct (str_eqb k k') eqn:Hk'; [| exact IH].
    apply str_eqb_eq in Hk'. congruence.
  - destruct (str_eqb k0 k'); [reflexivity | exact IH].
Qed.

End Objects.

Section Facts.
Variable Json : Type.

(** X24: the configuration that [skills.update] writes differs from the
    loaded one in the entry of the named skill only: the other top-level
    settings, the other settings of [skills] and the entry of every other
    key are kept; the named key afterwards holds the updated entry (for the
    key [__proto__] only if it was an own property before), whose settings
    other than [enabled], [apiKey] and [env] are those of the old entry. *)
Theorem update_touches_only_the_named_skill (cfg : OpenClawConfig Json)
    (p : UpdateParams) :
  let next := updatedConfig cfg p in
  configRest next = configRest cfg
  /\ (forall s, skills cfg = Some s ->
        exists s', skills next = Some s' /\ skillsRest s' = skillsRest s)
  /\ (forall key, key <> skillKey p ->
        obj_get key (entriesOf next) = obj_get key (entriesOf cfg))
  /\ (skillKey p <> PROTO \/ obj_get (skillKey p) (entriesOf cfg) <> None ->
      obj_get (skillKey p) (entriesOf next) = Some (updatedEntry cfg p))
  /\ entryRest (updatedEntry cfg p)
     = match obj_get (skillKey p) (entriesOf cfg) with
       | Some old => entryRest old
       | None => []
       end.
Proof.
  intros next. subst next. unfold updatedConfig, entriesOf. cbv zeta.
  cbn [configRest skills entries skillsRest].
  split; [reflexivity |]. split.
  { intros s Hs. rewrite Hs. eexists. split; reflexivity. }
  assert (Hentries : match entries match skills cfg with
                                   | Some s => s
                                   | None => {| entries := None; skillsRest := [] |}
                                   end with
                     | Some e => e
                     | None => []
                     end
                     = match skills cfg with
                       | Some s => match entries s with Some e => e | None => [] end
                       | None => []
                       end).
  { destruct (skills cfg); reflexivity. }
  rewrite Hentries. split; [| split].
  - intros key Hkey. now apply obj_get_set_other.
  - apply obj_get_set_same.
  - unfold updatedEntry. cbv zeta.
    destruct (obj_get (skillKey p) _) as [old |];
      destruct (u_enabled p), (u_apiKey p), (u_env p); reflexivity.
Qed.

Lemma mergeEnv_other k kv (e : object jsstring) :
  (truthy (trim (fst kv)) && str_eqb (trim (fst kv)) k) = false ->
  obj_get k (mergeEnv e kv) = obj_get k e.
Proof.
  intros Hk. unfold mergeEnv. cbv zeta.
  destruct (truthy (trim (fst kv))) eqn:Ht; cbn [negb andb] in *; [| reflexivity].
  apply str_eqb_neq in Hk.
  destruct (truthy (trim (snd kv))); cbn [negb].
  - apply obj_get_set_other. congruence.
  - apply obj_get_delete_other. congruence.
Qed.

Lemma mergeEnv_same k kv (e : object jsstring) :
  k <> PROTO ->
  (truthy (trim (fst kv)) && str_eqb (trim (fst kv)) k) = true ->
  obj_get k (mergeEnv e kv)
  = if truthy (trim (snd kv)) then Some (trim (snd kv)) else None.
Proof.
  intros Hproto Hk. apply andb_true_iff in Hk as [Ht Hk]. apply str_eqb_eq in Hk.
  unfold mergeEnv. cbv zeta. rewrite Ht. cbn [negb]. rewrite Hk.
  destruct (truthy (trim (snd kv))); cbn [negb].
  - apply obj_get_set_same. now left.
  - apply obj_get_delete_same.
Qed.

Lemma merged_env_lookup k given (e : object jsstring) :
  k <> PROTO ->
  obj_get k (fold_left mergeEnv given e)
  = match lastSetting k given with
    | Some r => r
    | None => obj_get k e
    end.
Proof.
  intros Hproto. unfold lastSetting.
  induction given as [| kv given IH] using rev_ind; [reflexivity |].
  rewrite !fold_left_app. cbn [fold_left].
  destruct (truthy (trim (fst kv)) && str_eqb (trim (fst kv)) k) eqn:Hk.
  - now apply mergeEnv_same.
  - rewrite (mergeEnv_other k kv _ Hk). exact IH.
Qed.

(** X25: [skills.update] merges the given environment into the old one.
    For a variable other than [__proto__], the updated entry holds what the
    last given pair for it says, keys and values being trimmed and pairs
    with a blank key ignored: the trimmed value, or nothing when the value
    is blank; a variable that no pair names keeps its old value. *)
Theorem update_merges_the_environment (cfg : OpenClawConfig Json) (p : UpdateParams)
    (given : list (jsstring * jsstring)) (key : jsstring) :
  u_env p = Some given ->
  key <> PROTO ->
  obj_get key (envOf (Some (updatedEntry cfg p)))
  = match lastSetting key given with
    | Some setting => setting
    | None => obj_get key (envOf (obj_get (skillKey p) (entriesOf cfg)))
    end.
Proof.
  intros Hgiven Hproto. unfold updatedEntry, envOf, entriesOf. cbv zeta. rewrite Hgiven.
  cbn [env]. rewrite (merged_env_lookup key given _ Hproto).
  destruct (lastSetting key given) as [setting |]; [reflexivity |].
  destruct (obj_get (skillKey p) _) as [old |];
    destruct (u_enabled p), (u_apiKey p); reflexivity.
Qed.

End Facts.

Lemma update_merges_the_environment_witness :
  let entry := Some (updatedEntry SampleMore.weatherConfig SampleMore.weatherUpdate) in
  envOf entry = [(js "REGION", js "us")]
  /\ obj_get (js "DEBUG") (envOf entry)
     = match lastSetting (js "DEBUG")
               [(js " REGION ", js " us "); (js "DEBUG", js " "); (js "  ", js "x")] with
       | Some setting => setting
       | None => obj_get (js "DEBUG")
                   (envOf (obj_get (skillKey SampleMore.weatherUpdate)
                             (entriesOf SampleMore.weatherConfig)))
       end.
Proof.
  intros entry. split; [reflexivity |].
  apply (update_merges_the_environment unit SampleMore.weatherConfig
           SampleMore.weatherUpdate).
  - reflexivity.
  - discriminate.
Defined.

End UpdateFacts.

(** ** The Dify helpers *)

Module DifyFacts.

Import DifyCompat.

Lemma chunkLoop_spec text size : 0 < size -> forall fuel i,
  length text - i <= fuel ->
  exists chunks,
    chunkLoop fuel text size i = Some chunks
    /\ concat chunks = skipn i text
    /\ Forall (fun c => c <> [] /\ length c <= size) chunks
    /\ fullButLast size chunks.
Proof.
  intros Hsize. induction fuel as [| fuel IH]; intros i Hfuel.
  - simpl. assert (Hi : (length text <=? i) = true) by (apply Nat.leb_le; lia).
    rewrite Hi. exists []. split; [reflexivity |]. split.
    + simpl. symmetry. apply skipn_all2. lia.
    + split; [constructor |]. intros [| x b] c a Heq; discriminate.
  - simpl. destruct (length text <=? i) eqn:Hi.
    + apply Nat.leb_le in Hi. exists []. split; [reflexivity |]. split.
      * simpl. symmetry. apply skipn_all2. lia.
      * split; [constructor |]. intros [| x b] c a Heq; discriminate.
    + apply Nat.leb_gt in Hi.
      destruct (IH (i + size) ltac:(lia)) as (chunks & -> & Hcat & Hall & Hfull).
      eexists. split; [reflexivity |]. split; [| split].
      * simpl. rewrite Hcat. rewrite Nat.add_comm, <- skipn_skipn.
        apply firstn_skipn.
      * constructor; [| exact Hall]. split.
        -- intros Hnil. apply (f_equal (@length N)) in Hnil.
           rewrite length_firstn, length_skipn in Hnil. simpl in Hnil. lia.
        -- rewrite length_firstn. lia.
      * intros [| x before] chunk after Heq Hafter.
        -- simpl in Heq. injection Heq as <- <-.
           rewrite length_firstn, length_skipn.
           destruct (Nat.le_gt_cases (length text) (i + size)) as [Hle | Hgt]; [| lia].
           exfalso. apply Hafter.
           assert (Hnil : skipn (i + size) text = []) by (apply skipn_all2; lia).
           rewrite Hnil in Hcat. destruct chunks as [| c0 after']; [reflexivity |].
           inversion Hall as [| ? ? [Hc0 _] _]; subst. simpl in Hcat.
           destruct c0; [now elim Hc0 | discriminate].
        -- simpl in Heq. injection Heq as _ Heq. eapply Hfull; eassumption.
Qed.

Lemma chunkLoop_zero text : forall fuel i,
  i < length text -> chunkLoop fuel text 0 i = None.
Proof.
  induction fuel as [| fuel IH]; intros i Hi; simpl.
  - assert (Hle : (length text <=? i) = false) by (apply Nat.leb_gt; lia).
    now rewrite Hle.
  - assert (Hle : (length text <=? i) = false) by (apply Nat.leb_gt; lia).
    rewrite Hle. rewrite Nat.add_0_r. now rewrite IH.
Qed.

(** X26: for a positive chunk size, [chunkText] returns (the loop ends
    after at most as many rounds as the text has code units) at least one
    chunk; the chunks put together give the text, none is longer than the
    chunk size and all but the last have exactly that size.  The empty text
    gives one empty chunk, every other text only non-empty chunks. *)
Theorem chunks_reassemble_the_text (text : list N) (size fuel : nat) :
  0 < size ->
  length text <= fuel ->
  exists chunks,
    chunkText fuel text size = Some chunks
    /\ chunks <> []
    /\ concat chunks = text
    /\ Forall (fun c => length c <= size) chunks
    /\ fullButLast size chunks
    /\ (text = [] -> chunks = [[]])
    /\ (text <> [] -> Forall (fun c => c <> []) chunks).
Proof.
  intros Hsize Hfuel.
  destruct (chunkLoop_spec text size Hsize fuel 0 ltac:(lia))
    as (chunks & Hloop & Hcat & Hall & Hfull).
  unfold chunkText. rewrite Hloop. simpl in Hcat.
  destruct chunks as [| c chunks].
  - exists [[]]. simpl in Hcat. subst text.
    split; [reflexivity |]. split; [discriminate |]. split; [reflexivity |].
    split; [constructor; [simpl; lia | constructor] |].
    split; [| split; [reflexivity | intros Hn; now elim Hn]].
    intros [| x b] ch a Heq Ha.
    + injection Heq as _ <-. now elim Ha.
    + destruct b; discriminate.
  - exists (c :: chunks).
    split; [reflexivity |]. split; [discriminate |]. split; [exact Hcat |].
    split; [| split; [exact Hfull | split]].
    + eapply Forall_impl; [| exact Hall]. intros a [_ Ha]. exact Ha.
    + intros ->. inversion Hall as [| ? ? [Hc _] _]; subst.
      simpl in Hcat. destruct c; [now elim Hc | discriminate].
    + intros _. eapply Forall_impl; [| exact Hall]. intros a [Ha _]. exact Ha.
Qed.

Lemma chunks_reassemble_the_text_witness :
  chunkText 5 [104; 101; 108; 108; 111]%N 2
  = Some [[104; 101]; [108; 108]; [111]]%N
  /\ exists chunks,
       chunkText 5 [104; 101; 108; 108; 111]%N 2 = Some chunks
       /\ chunks <> []
       /\ concat chunks = [104; 101; 108; 108; 111]%N
       /\ Forall (fun c => length c <= 2) chunks
       /\ fullButLast 2 chunks
       /\ ([104; 101; 108; 108; 111]%N = [] -> chunks = [[]])
       /\ ([104; 101; 108; 108; 111]%N <> [] -> Forall (fun c => c <> []) chunks).
Proof.
  split; [reflexivity |].
  apply (chunks_reassemble_the_text [104; 101; 108; 108; 111]%N 2 5); simpl; lia.
Defined.

(** X27: with the chunk size 0 the loop of [chunkText] makes no progress:
    on a text that is not empty it does not return, however many rounds it
    is given. *)
Theorem chunk_size_zero_never_returns (text : list N) (fuel : nat) :
  text <> [] -> chunkText fuel text 0 = None.
Proof.
  intros Hne. unfold chunkText. rewrite chunkLoop_zero; [reflexivity |].
  destruct text; [now elim Hne | simpl; lia].
Qed.

Lemma chunk_size_zero_never_returns_witness : chunkText 1000 [104; 105]%N 0 = None.
Proof.
  apply (chunk_size_zero_never_returns [104; 105]%N 1000). discriminate.
Defined.

(** X28: [buildSessionKey] does not depend on the platform prefix: for
    every user, with a known platform before the colon, an unknown one or
    none, the key is [sga:] followed by the user as given. *)
Theorem session_key_ignores_the_platform (user : jsstring) :
  buildSessionKey user = js "sga:" ++ user.
Proof.
  unfold buildSessionKey.
  destruct (indexOf colon user) as [colonIndex |]; [| reflexivity].
  destruct (0 <? colonIndex); [| reflexivity].
  cbv zeta. destruct (mem _ VALID_PLATFORMS); reflexivity.
Qed.

End DifyFacts.

(** ** Adding the best candidate *)

Module AddFacts.

Import SkillsImport SkillsValidate SkillsDiscover Gateway GatewayAdd SkillsDiscoverMore.

Section Facts.
Variables Config Eligibility : Type.
Variable U : UnicodeData.
Variable E : Env.
Variable W : Net.
Variable H : Host Config Eligibility.
Variable G : GatewayHost Config Eligibility.

Lemma bestFirst_head c cs :
  bestFirst (c :: cs) -> forall b, In b (c :: cs) -> (score b <= score c)%Q.
Proof.
  intros Hs b [<- | Hb]; [apply Qle_refl |].
  inversion Hs as [| ? ? _ Hall]; subst. rewrite Forall_forall in Hall. now apply Hall.
Qed.

(** X29: [skills.add] discovers with limit 5 and imports the first
    candidate, which no other candidate outscores.  Without candidate it
    answers not ok with the discovery as payload and its message as an
    UNAVAILABLE error, and imports nothing.  Otherwise the import is its
    first call, from the source of that candidate; the answer is ok exactly
    as the import is, the snapshot version is bumped exactly when the
    import is ok, and the message and warnings of the discovery are passed
    on. *)
Theorem add_imports_the_best_candidate (p : AddParams) (fs fs' : node)
    (resp : AddResponse) (calls : list Call) :
  skills_add U E W H G p fs = (Returned (resp, calls), fs') ->
  exists discovered fetched fs0,
    discoverSkills U E W (addDiscovery p) fs = (Returned (discovered, fetched), fs0)
    /\ match addPayload resp with
       | NotDiscovered d =>
           d = discovered /\ d_ok d = false /\ candidates d = []
           /\ calls = [] /\ fs' = fs0
           /\ addOk resp = false /\ addError resp = Some (UNAVAILABLE, d_message d)
       | Added candidate result _ _ discoveryMessage discoveryWarnings =>
           let request :=
             addRequest p candidate (resolveWorkspaceDir G (loadConfig G fs0)) in
           hd_error (candidates discovered) = Some candidate
           /\ (forall c, In c (candidates discovered) -> (score c <= score candidate)%Q)
           /\ source request = c_source candidate
           /\ fst (importSkills E request fs0) = Returned result
           /\ hd_error calls = Some (CallImport request)
           /\ addOk resp = ok result
           /\ (In CallBump calls <-> ok result = true)
           /\ discoveryMessage = d_message discovered
           /\ discoveryWarnings = d_warnings discovered
       end.
Proof.
  unfold skills_add. fold (addDiscovery p). unfold bind at 1.
  destruct (discoverSkills U E W (addDiscovery p) fs) as [[[discovered fetched] | e] fs0]
    eqn:Hdisc; [| discriminate].
  cbn [fst].
  destruct (discovery_shape _ _ _ _ _ _ _ _ Hdisc) as (Hok & _ & Hbest & _).
  intros Hrun. exists discovered, fetched, fs0. split; [reflexivity |].
  destruct (candidates discovered) as [| candidate rest] eqn:Hcs.
  - unfold ret in Hrun. injection Hrun as <- <- <-. cbn.
    repeat split; try assumption.
    destruct (d_ok discovered); [| reflexivity]. destruct (proj1 Hok eq_refl eq_refl).
  - assert (Hd : d_ok discovered = true) by (apply Hok; discriminate).
    rewrite Hd in Hrun. cbn [negb] in Hrun.
    set (ws := resolveWorkspaceDir G (loadConfig G fs0)) in *.
    set (request := addRequest p candidate ws) in *.
    unfold bind at 1 in Hrun.
    destruct (importSkills E request fs0) as [[result | e] fs1] eqn:Himport;
      [| discriminate].
    destruct (ok result) eqn:Hres.
    + unfold bind at 1 in Hrun. unfold bind at 1 in Hrun.
      destruct (validateImportedSkills H ws (imported result) (Some (loadConfig G fs0))
                  (Some (getRemoteSkillEligibility G fs1)) fs1)
        as [[validation | e] fs1'] eqn:Hval; [| discriminate].
      unfold ret at 1 in Hrun. cbn [fst snd] in Hrun.
      unfold bind at 1 in Hrun.
      match type of Hrun with
      | match ?m fs1' with _ => _ end = _ =>
          destruct (m fs1') as [[second | e] fs2]; [| discriminate]
      end.
      unfold ret in Hrun. injection Hrun as <- <- <-.
      cbn [addPayload addOk]. cbv zeta. subst request ws. rewrite Himport, Hres.
      split; [reflexivity |]. split; [now apply bestFirst_head |].
      split; [reflexivity |]. split; [reflexivity |]. split; [reflexivity |].
      split; [reflexivity |]. split; [| split; reflexivity].
      split; [reflexivity |].
      intros _. right. right. apply in_or_app. right. now left.
    + unfold bind, ret in Hrun. cbn [fst snd] in Hrun.
      assert (Hrun' : (Returned
                ({| addOk := false;
                    addPayload := Added candidate result None None
                                    (d_message discovered) (d_warnings discovered);
                    addError := Some (UNAVAILABLE, message result) |},
                 [CallImport request]), fs1) = (Returned (resp, calls), fs')).
      { rewrite <- Hrun. destruct (a_autoInstall p) as [[|] |]; reflexivity. }
      injection Hrun' as <- <- <-.
      cbn [addPayload addOk]. cbv zeta. subst request ws. rewrite Himport, Hres.
      split; [reflexivity |]. split; [now apply bestFirst_head |].
      split; [reflexivity |]. split; [reflexivity |]. split; [reflexivity |].
      split; [reflexivity |]. split; [| split; reflexivity].
      split; [| discriminate].
      intros [Hc | []]. discriminate.
Qed.

End Facts.

Lemma add_imports_the_best_candidate_witness :
  let p := SampleMore.addParams "invoice organizer" in
  let H := Sample.hostReporting Sample.readyStatus in
  let run := skills_add basic_latin Sample.sampleEnv SampleMore.poolNet H
               Sample.sampleGateway p Sample.disk1 in
  exists resp calls,
    fst run = Returned (resp, calls)
    /\ addOk resp = true
    /\ exists discovered fetched fs0,
         discoverSkills basic_latin Sample.sampleEnv SampleMore.poolNet (addDiscovery p)
           Sample.disk1
         = (Returned (discovered, fetched), fs0)
         /\ match addPayload resp with
            | NotDiscovered d =>
                d = discovered /\ d_ok d = false /\ candidates d = []
                /\ calls = [] /\ snd run = fs0
                /\ addOk resp = false
                /\ addError resp = Some (UNAVAILABLE, d_message d)
            | Added candidate result _ _ discoveryMessage discoveryWarnings =>
                let request :=
                  addRequest p candidate
                    (resolveWorkspaceDir Sample.sampleGateway
                       (loadConfig Sample.sampleGateway fs0)) in
                hd_error (candidates discovered) = Some candidate
                /\ (forall c, In c (candidates discovered) ->
                              (score c <= score candidate)%Q)
                /\ source request = c_source candidate
                /\ fst (importSkills Sample.sampleEnv request fs0) = Returned result
                /\ hd_error calls = Some (CallImport request)
                /\ addOk resp = ok result
                /\ (In CallBump calls <-> ok result = true)
                /\ discoveryMessage = d_message discovered
                /\ discoveryWarnings = d_warnings discovered
            end.
Proof.
  intros p H run. eexists. eexists. split; [vm_compute; reflexivity |].
  split; [reflexivity |].
  apply (add_imports_the_best_candidate unit unit basic_latin Sample.sampleEnv
           SampleMore.poolNet H Sample.sampleGateway p Sample.disk1 (snd run)).
  vm_compute. reflexivity.
Defined.

End AddFacts.
